(** * Normal-vector compression codec (pack.cpp)

    A shallow embedding of the 32-bit normal packing scheme of [pack.cpp]:
    the scalar range mappers, the 15- and 16-bit quantizers, [pack],
    [unpack] and the approximate comparison used by the test driver.

    Floating point is modelled bit-exactly with the Standard Library's
    [SpecFloat] (IEEE-754, round to nearest even): C++ [float] is binary32
    ([prec = 24], [emax = 128]) and [double] is binary64 ([prec = 53],
    [emax = 1024]).  Every [float] operation rounds to binary32 on its
    own, as the file's build line ([g++ -std=c++20], no contraction into
    fused multiply-adds) makes it.  The GLM functions are the ones of the
    C++ standard library they forward to: [glm::round] is [std::round],
    [glm::abs] is [std::fabs], [glm::sqrt] is the correctly rounded
    [std::sqrt], and [glm::pow(2.0f, n) - 1.0f] is the constant the
    comments give.  [uint32_t] values are integers of [Z] in [0, 2^32)
    with the wrap-around of shifts written out. *)

From Stdlib Require Import ZArith QArith Qpower Qabs Bool List Lia Lqa.
From Stdlib Require Import Floats.SpecFloat.
Import ListNotations.

Local Open Scope Z_scope.

(** ** Machine types *)

Module F32.
Definition prec : Z := 24.
Definition emax : Z := 128.
Definition add := SFadd prec emax.
Definition sub := SFsub prec emax.
Definition mul := SFmul prec emax.
Definition div := SFdiv prec emax.
Definition sqrt := SFsqrt prec emax.
Definition valid := valid_binary prec emax.
(** Rounding of a finite binary64 (or any dyadic) to binary32. *)
Definition of_finite (s : bool) (m : positive) (e : Z) : spec_float :=
  binary_round prec emax s m e.
(** Conversion of an integer, [float(x)] in the source. *)
Definition of_Z (z : Z) : spec_float := binary_normalize prec emax z 0 false.
End F32.

Module F64.
Definition prec : Z := 53.
Definition emax : Z := 1024.
Definition add := SFadd prec emax.
Definition sub := SFsub prec emax.
Definition mul := SFmul prec emax.
Definition of_Z (z : Z) : spec_float := binary_normalize prec emax z 0 false.
(** The implicit conversion [float -> double] is exact; it only
    renormalises the mantissa to the 53-bit format. *)
Definition of_f32 (x : spec_float) : spec_float :=
  match x with
  | S754_finite s m e => binary_round prec emax s m e
  | _ => x
  end.
(** The implicit conversion [double -> float] on return rounds to
    nearest even. *)
Definition to_f32 (x : spec_float) : spec_float :=
  match x with
  | S754_finite s m e => F32.of_finite s m e
  | _ => x
  end.
End F64.

Definition float := spec_float.

Definition is_nan (x : float) : bool :=
  match x with S754_nan => true | _ => false end.

Definition is_finite (x : float) : bool :=
  match x with S754_zero _ | S754_finite _ _ _ => true | _ => false end.

Definition sign_bit (x : float) : bool :=
  match x with
  | S754_zero s | S754_infinity s | S754_finite s _ _ => s
  | S754_nan => false
  end.

(** Float literals of the source. *)
Definition f0 : float := S754_zero false.                         (* 0.0f *)
Definition f1 : float := Eval vm_compute in F32.of_Z 1.           (* 1.0f *)
Definition fm1 : float := Eval vm_compute in F32.of_Z (-1).       (* -1.0f *)
Definition fhalf : float := Eval vm_compute in F32.div (F32.of_Z 1) (F32.of_Z 2). (* 0.5f *)
Definition f65535 : float := Eval vm_compute in F32.of_Z 65535.   (* 65535.0f *)
Definition f32767 : float := Eval vm_compute in F32.of_Z 32767.   (* 32767.0f *)
Definition feps : float :=                                        (* 0.005f *)
  Eval vm_compute in F32.div (F32.of_Z 5) (F32.of_Z 1000).
Definition d1 : float := Eval vm_compute in F64.of_Z 1.           (* 1.0 as double *)
Definition d2 : float := Eval vm_compute in F64.of_Z 2.           (* 2.0 *)

(** [uint32_t]. *)
Definition u32_mod : Z := 2 ^ 32.
Definition is_u32 (p : Z) : Prop := 0 <= p < u32_mod.
Definition u32_shl (x n : Z) : Z := (Z.shiftl x n) mod u32_mod.
Definition u32_shr (x n : Z) : Z := Z.shiftr x n.

(** [std::round] on [float] (what [glm::round] forwards to): nearest
    integer, halfway cases away from zero, sign kept on a zero result. *)
Definition roundf (x : float) : float :=
  match x with
  | S754_finite s m e =>
      if 0 <=? e then x
      else
        let k := (Zpos m + 2 ^ (- e - 1)) / 2 ^ (- e) in
        if k =? 0 then S754_zero s
        else binary_normalize F32.prec F32.emax (cond_Zopp s k) 0 s
  | _ => x
  end.

(** Integer part of a finite float, towards zero. *)
Definition trunc_mag (m : positive) (e : Z) : Z :=
  if 0 <=? e then Zpos m * 2 ^ e else Zpos m / 2 ^ (- e).

(** The cast [(uint32_t) x]: truncation towards zero.  The conversion is
    undefined in C++ when the truncated value is not representable in
    [uint32_t] (a NaN, an infinity, a value <= -1 or >= 2^32): [None]. *)
Definition f2u32 (x : float) : option Z :=
  match x with
  | S754_zero _ => Some 0
  | S754_finite s m e =>
      let t := trunc_mag m e in
      if s then (if t =? 0 then Some 0 else None)
      else if t <? u32_mod then Some t else None
  | _ => None
  end.

(** ** The source functions *)

Record vec3 : Type := mkvec3 { vx : float; vy : float; vz : float }.

(** [float_eq]: [glm::abs(x - y) < 0.005f]. *)
Definition float_eq (x y : float) : bool :=
  SFltb (SFabs (F32.sub x y)) feps.

(** [map_ufnorm]: [(x + 1.0f) * 0.5f]. *)
Definition map_ufnorm (x : float) : float :=
  F32.mul (F32.add x f1) fhalf.

(** [map_sfnorm]: [x * 2.0 - 1.0f]; the literal [2.0] is a [double], so
    the expression is evaluated in binary64 and rounded to [float] by the
    [return]. *)
Definition map_sfnorm (x : float) : float :=
  F64.to_f32 (F64.sub (F64.mul (F64.of_f32 x) d2) (F64.of_f32 f1)).

(** [map_ftou15]: [(uint32_t)(glm::round(x * s)) & 0x0000FFFF], s = 32767. *)
Definition map_ftou15 (x : float) : option Z :=
  option_map (fun u => Z.land u 65535) (f2u32 (roundf (F32.mul x f32767))).

(** [map_ftou16]: [(uint32_t)(glm::round(x * s))], s = 65535. *)
Definition map_ftou16 (x : float) : option Z :=
  f2u32 (roundf (F32.mul x f65535)).

(** [pack]. *)
Definition pack (n : vec3) : option Z :=
  let ufx := map_ufnorm (vx n) in
  let ufy := map_ufnorm (vy n) in
  match map_ftou16 ufx, map_ftou15 ufy with
  | Some ux, Some uy =>
      let ua := if SFltb (vz n) f0 then 1 else 0 in
      Some (Z.lor (Z.lor (u32_shl ux 16) (u32_shl uy 1)) ua)
  | _, _ => None
  end.

(** The radicand [1.0f - (fx*fx + fy*fy)] of [unpack]. *)
Definition radicand (fx fy : float) : float :=
  F32.sub f1 (F32.add (F32.mul fx fx) (F32.mul fy fy)).

(** [unpack]. *)
Definition unpack (p : Z) : vec3 :=
  let x := u32_shr p 16 in
  let y := u32_shr (Z.land p 65535) 1 in
  let a := Z.land p 1 in
  let fx := map_sfnorm (F32.div (F32.of_Z x) f65535) in
  let fy := map_sfnorm (F32.div (F32.of_Z y) f32767) in
  let fa := if a =? 1 then fm1 else f1 in
  let fz := F32.mul (F32.sqrt (radicand fx fy)) fa in
  mkvec3 fx fy fz.

(** [vector_equals]. *)
Definition vector_equals (v1 v2 : vec3) : bool :=
  float_eq (vx v1) (vx v2) && float_eq (vy v1) (vy v2) && float_eq (vz v1) (vz v2).

(** ** Support for the proofs *)

(** The two dequantisation expressions of [unpack], as functions of the
    extracted bit field. *)
Definition dequant16 (k : Z) : float :=
  map_sfnorm (F32.div (F32.of_Z k) f65535).

Definition dequant15 (k : Z) : float :=
  map_sfnorm (F32.div (F32.of_Z k) f32767).

(** [x] lies in the closed interval [-1, 1] (C++ [-1.0f <= x && x <= 1.0f]). *)
Definition in_signed_unit (x : float) : bool :=
  SFleb fm1 x && SFleb x f1.

(** [x] lies in the closed interval [0, 1]. *)
Definition in_unsigned_unit (x : float) : bool :=
  SFleb f0 x && SFleb x f1.

(** Bounded universal quantification, by evaluation: [f k] for all
    [0 <= k < n]. *)
Fixpoint all_from (n : nat) (k : Z) (f : Z -> bool) : bool :=
  match n with
  | O => true
  | S n' => f k && all_from n' (k + 1) f
  end.

Definition all_below (n : Z) (f : Z -> bool) : bool :=
  all_from (Z.to_nat n) 0 f.

(** The C++ comparison [v1 == v2] of two [glm::vec3]. *)
Definition vec3_eqb (v1 v2 : vec3) : bool :=
  SFeqb (vx v1) (vx v2) && SFeqb (vy v1) (vy v2) && SFeqb (vz v1) (vz v2).

(** The float dot product [x*x + y*y + z*z] of a vector with itself. *)
Definition norm2 (v : vec3) : float :=
  F32.add (F32.add (F32.mul (vx v) (vx v)) (F32.mul (vy v) (vy v)))
          (F32.mul (vz v) (vz v)).

(** The literals [0.6f], [0.8f], [1.5f] and [3.0f] of the examples. *)
Definition f0_6 : float := Eval vm_compute in F32.div (F32.of_Z 6) (F32.of_Z 10).
Definition f0_8 : float := Eval vm_compute in F32.div (F32.of_Z 8) (F32.of_Z 10).
Definition f1_5 : float := Eval vm_compute in F32.div (F32.of_Z 3) (F32.of_Z 2).
Definition f3 : float := Eval vm_compute in F32.of_Z 3.

(** The rational value of a finite float ([0] for the special values). *)
Definition pow2 (e : Z) : Q := (2 ^ e)%Q.

Definition F2Q (x : float) : Q :=
  match x with
  | S754_finite s m e => (inject_Z (cond_Zopp s (Zpos m)) * pow2 e)%Q
  | _ => 0%Q
  end.

(** What the evaluation of a dequantiser over all its codes checks: for the
    code [k] of a field with largest code [top], the decoded float [g] lies
    in [-1, 1], is a canonical binary32, has a finite square, and is within
    [2^-22] of the exact [2k/top - 1]. *)
Definition dequant_ok (top : Z) (g : float) (k : Z) : bool :=
  in_signed_unit g && F32.valid g && is_finite g && is_finite (F32.mul g g)
  && Qle_bool (Qabs (F2Q g - (inject_Z (2 * k - top) / inject_Z top))%Q)
              (pow2 (-22)).

(** *** Specification of rounding

    The second half of [binary_round_aux]: renormalise the rounded
    mantissa [k] at exponent [e] and detect overflow. *)
Definition finish_round (prec emax : Z) (s : bool) (k e : Z) : spec_float :=
  let '(mrs, e') := shr_fexp prec emax k e loc_Exact in
  match shr_m mrs with
  | Z0 => S754_zero s
  | Zpos m => if e' <=? emax - prec then S754_finite s m e' else S754_infinity s
  | Zneg _ => S754_nan
  end.

(** [r] carries the sign [s] and the magnitude [q]: a zero when [q] is 0,
    a canonical finite float of value [q], or an infinity when [q] is
    beyond the format. *)
Definition round_result (prec emax : Z) (s : bool) (q : Q) (r : spec_float) : Prop :=
  match r with
  | S754_zero s' => s' = s /\ (q == 0)%Q
  | S754_finite s' m e =>
      s' = s /\ bounded prec emax m e = true /\
      (inject_Z (Zpos m) * pow2 e == q)%Q
  | S754_infinity s' => s' = s /\ (pow2 emax <= q)%Q
  | S754_nan => False
  end.

(** [r] is a rounding of the positive magnitude [v] with sign [s]: its
    magnitude is a multiple [k * 2^e1] of the unit in the last place of [v],
    at distance less than that unit from [v]. *)
Definition rounds_to (prec emax : Z) (s : bool) (v : Q) (r : spec_float) : Prop :=
  exists k e1 : Z,
    0 <= k /\ emin prec emax <= e1 /\
    (e1 = emin prec emax \/ (pow2 (e1 + prec - 1) <= v)%Q) /\
    (Qabs (inject_Z k * pow2 e1 - v) < pow2 e1)%Q /\
    round_result prec emax s (inject_Z k * pow2 e1)%Q r.

(** An operation whose exact result is [v] and whose float result is [r]:
    an exact zero gives [+0], anything else is rounded with the sign of
    [v]. *)
Definition signed_rounding (prec emax : Z) (v : Q) (r : spec_float) : Prop :=
  ((v == 0)%Q /\ r = S754_zero false) \/
  ((0 < v)%Q /\ rounds_to prec emax false v r) \/
  ((v < 0)%Q /\ rounds_to prec emax true (- v)%Q r).

(** The binary32 format meets the side conditions of the rounding
    lemmas. *)
Definition f32_prec_gt_0 : 0 < F32.prec := eq_refl.
Definition f32_prec_lt_emax : F32.prec < F32.emax := eq_refl.

Local Notation "'f32' L" :=
  (L F32.prec F32.emax f32_prec_gt_0 f32_prec_lt_emax)
  (at level 10, L at level 9, only parsing).

(** [r] is a rounding, with sign [s], of a positive magnitude of which
    [v] is the truncation: as [rounds_to], but at distance at most (not
    less than) one unit in the last place. *)
Definition rounds_near (prec emax : Z) (s : bool) (v : Q) (r : spec_float) : Prop :=
  exists k e1 : Z,
    0 <= k /\ emin prec emax <= e1 /\
    (e1 = emin prec emax \/ (pow2 (e1 + prec - 1) <= v)%Q) /\
    (Qabs (inject_Z k * pow2 e1 - v) <= pow2 e1)%Q /\
    round_result prec emax s (inject_Z k * pow2 e1)%Q r.

(** A finite binary32 number (a canonical float that is neither an
    infinity nor a NaN). *)
Definition is_float32 (x : float) : bool := F32.valid x && is_finite x.

(** The exact squared Euclidean length of a vector of finite floats. *)
Definition sq_norm (v : vec3) : Q :=
  (F2Q (vx v) * F2Q (vx v) + F2Q (vy v) * F2Q (vy v)
   + F2Q (vz v) * F2Q (vz v))%Q.

(** Unit Euclidean length, up to binary32 rounding: the squared length is
    within [2^-20] of 1.  The exact unit vectors of floats, such as the
    axis vectors, satisfy it with distance 0. *)
Definition unit_length (v : vec3) : Prop :=
  (Qabs (sq_norm v - 1) <= pow2 (-20))%Q.

(** ** The test driver *)

(** [test]: the result code, 0 after the line SUCCESS and 1 after the
    line FAIL (the text written to [std::cout] is left out).  The code
    has no defined result where [pack] has none. *)
Definition test (n : vec3) : option Z :=
  match pack n with
  | Some p =>
      let u := unpack p in
      if vector_equals n u then Some 0 else Some 1
  | None => None
  end.

(** [err += test(...)] of [main]. *)
Definition add_test (err : option Z) (n : vec3) : option Z :=
  match err, test n with
  | Some e, Some r => Some (e + r)
  | _, _ => None
  end.

(** The six unit axis vectors that [main] tests first, in its order. *)
Definition axis_vectors : list vec3 :=
  [ mkvec3 f1 f0 f0; mkvec3 f0 f1 f0; mkvec3 f0 f0 f1;
    mkvec3 fm1 f0 f0; mkvec3 f0 fm1 f0; mkvec3 f0 f0 fm1 ].

(** The error count of [main] after its axis-vector tests. *)
Definition main_axis_errors : option Z :=
  fold_left add_test axis_vectors (Some 0).

(** ** Support for the re-encoding proofs *)

(** What the evaluation of a field over all its codes checks for
    re-encoding: the code [k] decodes to a float that is not a zero, that
    the quantizer [quant] sends back to [k] after [map_ufnorm], and that
    is below the float of the code [k + 1], if there is one ([top] is
    the largest code). *)
Definition recode_ok (quant : float -> option Z) (dequant : Z -> float)
                     (top k : Z) : bool :=
  let g := dequant k in
  match g with S754_finite _ _ _ => true | _ => false end
  && match quant (map_ufnorm g) with Some j => j =? k | None => false end
  && ((k =? top) || SFltb g (dequant (k + 1))).

(** The binary64 format meets the side conditions of the rounding
    lemmas. *)
Definition f64_prec_gt_0 : 0 < F64.prec := eq_refl.
Definition f64_prec_lt_emax : F64.prec < F64.emax := eq_refl.

Local Notation "'f64' L" :=
  (L F64.prec F64.emax f64_prec_gt_0 f64_prec_lt_emax)
  (at level 10, L at level 9, only parsing).

(** ** Bounded quantification by evaluation *)

Lemma all_from_spec (f : Z -> bool) (n : nat) :
  forall k0, all_from n k0 f = true ->
  forall k, k0 <= k < k0 + Z.of_nat n -> f k = true.
Proof.
  induction n as [|n IH]; intros k0 H k Hk.
  - simpl in Hk. lia.
  - cbn [all_from] in H. apply andb_true_iff in H. destruct H as [Hk0 Hrest].
    destruct (Z.eq_dec k k0) as [->|Hne]; [exact Hk0|].
    apply (IH (k0 + 1) Hrest). lia.
Qed.

Lemma all_below_spec (f : Z -> bool) (n : Z) :
  all_below n f = true -> forall k, 0 <= k < n -> f k = true.
Proof.
  unfold all_below. intros H k Hk.
  apply (all_from_spec f (Z.to_nat n) 0 H). lia.
Qed.

(** ** The bit fields of a 32-bit word *)

Lemma land_low_shifted (a b n : Z) :
  0 <= n -> 0 <= b < 2 ^ n -> Z.land (a * 2 ^ n) b = 0.
Proof.
  intros Hn Hb. apply Z.bits_inj'. intros i Hi.
  rewrite Z.land_spec, Z.bits_0.
  destruct (Z.lt_ge_cases i n) as [Hlt|Hge].
  - rewrite Z.mul_pow2_bits_low by lia. reflexivity.
  - rewrite <- (Z.mod_small b (2 ^ n)) by lia.
    rewrite Z.mod_pow2_bits_high by lia. apply andb_false_r.
Qed.

Lemma lor_shifted_add (a b n : Z) :
  0 <= n -> 0 <= b < 2 ^ n -> Z.lor (a * 2 ^ n) b = a * 2 ^ n + b.
Proof.
  intros Hn Hb. rewrite <- Z.add_lor_land.
  rewrite land_low_shifted by assumption. lia.
Qed.

(** The word assembled by [pack] from in-range fields, as a sum. *)
Lemma assemble_sum (ux uy ua : Z) :
  0 <= ux < 65536 -> 0 <= uy < 32768 -> 0 <= ua < 2 ->
  Z.lor (Z.lor (u32_shl ux 16) (u32_shl uy 1)) ua = ux * 65536 + uy * 2 + ua.
Proof.
  intros Hx Hy Ha. unfold u32_shl, u32_mod.
  rewrite !Z.shiftl_mul_pow2 by lia.
  rewrite (Z.mod_small (ux * 2 ^ 16)) by lia.
  rewrite (Z.mod_small (uy * 2 ^ 1)) by lia.
  rewrite (lor_shifted_add ux (uy * 2 ^ 1) 16) by lia.
  replace (ux * 2 ^ 16 + uy * 2 ^ 1) with ((ux * 2 ^ 15 + uy) * 2 ^ 1) by lia.
  rewrite lor_shifted_add by lia. lia.
Qed.

Lemma land_1_mod2 (p : Z) : Z.land p 1 = p mod 2.
Proof. change 1 with (Z.ones 1). rewrite Z.land_ones by lia. reflexivity. Qed.

(** Reading the three fields back from such a sum. *)
Lemma fields_of_sum (ux uy ua : Z) :
  0 <= ux < 65536 -> 0 <= uy < 32768 -> 0 <= ua < 2 ->
  let w := ux * 65536 + uy * 2 + ua in
  u32_shr w 16 = ux /\ Z.land (u32_shr w 1) 32767 = uy /\ Z.land w 1 = ua.
Proof.
  intros Hx Hy Ha w. unfold u32_shr.
  rewrite (land_1_mod2 w). change 32767 with (Z.ones 15).
  rewrite !Z.land_ones, !Z.shiftr_div_pow2 by lia.
  change (2 ^ 16) with 65536. change (2 ^ 1) with 2. change (2 ^ 15) with 32768.
  assert (E16 : w / 65536 = ux).
  { symmetry. apply (Z.div_unique w 65536 ux (uy * 2 + ua)); unfold w; lia. }
  assert (E1 : w / 2 = ux * 32768 + uy).
  { symmetry. apply (Z.div_unique w 2 _ ua); unfold w; lia. }
  assert (E0 : w mod 2 = ua).
  { symmetry. apply (Z.mod_unique w 2 (ux * 32768 + uy) ua); unfold w; lia. }
  rewrite E16, E1, E0. repeat split.
  symmetry. apply (Z.mod_unique _ 32768 ux uy); lia.
Qed.

(** The fields [unpack] extracts from any 32-bit word are in range. *)
Lemma unpack_fields_range (p : Z) :
  is_u32 p ->
  0 <= u32_shr p 16 < 65536 /\ 0 <= u32_shr (Z.land p 65535) 1 < 32768.
Proof.
  unfold is_u32, u32_mod, u32_shr. intros Hp.
  change 65535 with (Z.ones 16).
  rewrite Z.land_ones, !Z.shiftr_div_pow2 by lia.
  change (2 ^ 16) with 65536. change (2 ^ 1) with 2.
  pose proof (Z.mod_pos_bound p 65536 ltac:(lia)) as Hm.
  split.
  - split; [apply Z.div_pos; lia|].
    apply Z.div_lt_upper_bound; lia.
  - split; [apply Z.div_pos; lia|].
    apply Z.div_lt_upper_bound; lia.
Qed.

Lemma land_1_cases (p : Z) : Z.land p 1 = 0 \/ Z.land p 1 = 1.
Proof.
  rewrite land_1_mod2. pose proof (Z.mod_pos_bound p 2 ltac:(lia)). lia.
Qed.

(** ** The two dequantisation tables, by evaluation of all codes *)

Lemma dequant16_table :
  all_below 65536 (fun k => dequant_ok 65535 (dequant16 k) k) = true.
Proof. vm_compute. reflexivity. Qed.

Lemma dequant15_table :
  all_below 32768 (fun k => dequant_ok 32767 (dequant15 k) k) = true.
Proof. vm_compute. reflexivity. Qed.

Lemma dequant16_ok (k : Z) :
  0 <= k < 65536 -> dequant_ok 65535 (dequant16 k) k = true.
Proof. exact (all_below_spec _ _ dequant16_table k). Qed.

Lemma dequant15_ok (k : Z) :
  0 <= k < 32768 -> dequant_ok 32767 (dequant15 k) k = true.
Proof. exact (all_below_spec _ _ dequant15_table k). Qed.

Lemma unpack_x_dequant (p : Z) : vx (unpack p) = dequant16 (u32_shr p 16).
Proof. reflexivity. Qed.

Lemma unpack_y_dequant (p : Z) :
  vy (unpack p) = dequant15 (u32_shr (Z.land p 65535) 1).
Proof. reflexivity. Qed.

(** ** Digits and right shifts of the rounding kernel *)

Lemma digits2_pos_bounds (p : positive) :
  2 ^ (Zpos (digits2_pos p) - 1) <= Zpos p < 2 ^ Zpos (digits2_pos p).
Proof.
  induction p as [p IH|p IH|]; cbn [digits2_pos].
  - rewrite Pos2Z.inj_succ.
    replace (Z.succ (Zpos (digits2_pos p)) - 1) with (Z.succ (Zpos (digits2_pos p) - 1)) by lia.
    rewrite !Z.pow_succ_r by lia. lia.
  - rewrite Pos2Z.inj_succ.
    replace (Z.succ (Zpos (digits2_pos p)) - 1) with (Z.succ (Zpos (digits2_pos p) - 1)) by lia.
    rewrite !Z.pow_succ_r by lia. lia.
  - simpl. lia.
Qed.

Lemma digits2_pos_unique (p : positive) (d : Z) :
  2 ^ (d - 1) <= Zpos p < 2 ^ d -> Zpos (digits2_pos p) = d.
Proof.
  intros [Hl Hu]. pose proof (digits2_pos_bounds p) as [Bl Bu].
  assert (0 < d).
  { destruct (Z.lt_ge_cases 0 d) as [|Hd]; [assumption|].
    destruct (Z.eq_dec d 0) as [->|]; [simpl in Hu; lia|].
    rewrite Z.pow_neg_r in Hu by lia. lia. }
  destruct (Z.lt_trichotomy (Zpos (digits2_pos p)) d) as [Hlt|[Heq|Hgt]];
    [|assumption|]; exfalso.
  - assert (2 ^ Zpos (digits2_pos p) <= 2 ^ (d - 1))
      by (apply Z.pow_le_mono_r; lia). lia.
  - assert (2 ^ d <= 2 ^ (Zpos (digits2_pos p) - 1))
      by (apply Z.pow_le_mono_r; lia). lia.
Qed.

Lemma digits2_pos_le (p : positive) (d : Z) :
  Zpos p < 2 ^ d -> Zpos (digits2_pos p) <= d.
Proof.
  intros Hu. pose proof (digits2_pos_bounds p) as [Bl _].
  destruct (Z.le_gt_cases (Zpos (digits2_pos p)) d) as [|Hgt]; [assumption|].
  exfalso.
  destruct (Z.lt_ge_cases d 0) as [Hneg|Hd].
  - rewrite Z.pow_neg_r in Hu by lia. lia.
  - assert (2 ^ d <= 2 ^ (Zpos (digits2_pos p) - 1))
      by (apply Z.pow_le_mono_r; lia). lia.
Qed.

Lemma digits2_pos_ge (p : positive) (d : Z) :
  2 ^ (d - 1) <= Zpos p -> d <= Zpos (digits2_pos p).
Proof.
  intros Hl. pose proof (digits2_pos_bounds p) as [_ Bu].
  destruct (Z.le_gt_cases d (Zpos (digits2_pos p))) as [|Hgt]; [assumption|].
  exfalso.
  assert (2 ^ Zpos (digits2_pos p) <= 2 ^ (d - 1))
    by (apply Z.pow_le_mono_r; lia). lia.
Qed.

(** [iter_pos] is the library's iterator. *)
Lemma iter_pos_iter {A : Type} (f : A -> A) (n : positive) :
  forall x, iter_pos f n x = Pos.iter f x n.
Proof.
  induction n as [n IH|n IH|]; intros x; cbn [iter_pos Pos.iter].
  - rewrite !IH. rewrite <- !Pos.iter_swap. reflexivity.
  - rewrite !IH. reflexivity.
  - reflexivity.
Qed.

Lemma shr_1_m (mrs : shr_record) :
  0 <= shr_m mrs -> shr_m (shr_1 mrs) = shr_m mrs / 2.
Proof.
  destruct mrs as [m r s]. cbn [shr_m]. intros Hm.
  rewrite <- Z.div2_div.
  destruct m as [|[p|p|]|p]; try reflexivity; lia.
Qed.

Lemma shr_iter_m (n : positive) (mrs : shr_record) :
  0 <= shr_m mrs ->
  shr_m (iter_pos shr_1 n mrs) = shr_m mrs / 2 ^ Zpos n.
Proof.
  intros Hm. rewrite iter_pos_iter.
  induction n as [|n IH] using Pos.peano_ind.
  - cbn [Pos.iter]. rewrite shr_1_m by assumption. reflexivity.
  - rewrite Pos.iter_succ, shr_1_m.
    + rewrite IH, Pos2Z.inj_succ, Z.pow_succ_r, Z.div_div by lia.
      f_equal. lia.
    + rewrite IH. apply Z.div_pos; [assumption|]. apply Z.pow_pos_nonneg; lia.
Qed.

(** Shifting out zero bits of an exact record leaves it exact. *)
Lemma shr_1_exact (m : Z) :
  0 <= m ->
  shr_1 (Build_shr_record (2 * m) false false) = Build_shr_record m false false.
Proof. intros Hm. destruct m as [|p|p]; try reflexivity; lia. Qed.

Lemma shr_iter_exact (n : positive) :
  forall m, 0 <= m ->
  iter_pos shr_1 n (Build_shr_record (m * 2 ^ Zpos n) false false)
  = Build_shr_record m false false.
Proof.
  intros m Hm. rewrite iter_pos_iter. revert m Hm.
  induction n as [|n IH] using Pos.peano_ind; intros m Hm.
  - cbn [Pos.iter]. change (2 ^ 1) with 2.
    rewrite Z.mul_comm. apply shr_1_exact. assumption.
  - rewrite Pos.iter_succ_r, Pos2Z.inj_succ, Z.pow_succ_r by lia.
    replace (m * (2 * 2 ^ Zpos n)) with (2 * (m * 2 ^ Zpos n)) by lia.
    rewrite shr_1_exact by (apply Z.mul_nonneg_nonneg; [assumption|];
                            apply Z.lt_le_incl, Z.pow_pos_nonneg; lia).
    apply IH. assumption.
Qed.

Lemma round_nearest_even_cases (m : Z) (l : location) :
  round_nearest_even m l = m \/ round_nearest_even m l = m + 1.
Proof.
  destruct l as [|[| |]]; cbn [round_nearest_even]; auto.
  destruct (Z.even m); auto.
Qed.

(** What a right shift by [n > 0] of an exact record rounds to: the
    quotient, or the quotient plus one when the shift is inexact. *)
Lemma shr_round_cases (n : positive) (m : Z) :
  0 <= m ->
  let mrs := iter_pos shr_1 n (Build_shr_record m false false) in
  let k := round_nearest_even (shr_m mrs) (loc_of_shr_record mrs) in
  (m mod 2 ^ Zpos n = 0 /\ k = m / 2 ^ Zpos n) \/
  (m mod 2 ^ Zpos n <> 0 /\ (k = m / 2 ^ Zpos n \/ k = m / 2 ^ Zpos n + 1)).
Proof.
  intros Hm mrs k.
  assert (Hpos : 0 < 2 ^ Zpos n) by (apply Z.pow_pos_nonneg; lia).
  assert (Hq : shr_m mrs = m / 2 ^ Zpos n)
    by (unfold mrs; rewrite shr_iter_m by exact Hm; reflexivity).
  destruct (Z.eq_dec (m mod 2 ^ Zpos n) 0) as [Hz|Hnz].
  - left. split; [assumption|].
    unfold k, mrs.
    rewrite (Z.div_mod m (2 ^ Zpos n)) at 1 2 by lia.
    rewrite Hz, Z.add_0_r, (Z.mul_comm (2 ^ Zpos n)).
    rewrite shr_iter_exact by (apply Z.div_pos; lia).
    reflexivity.
  - right. split; [assumption|]. unfold k. rewrite <- Hq.
    apply round_nearest_even_cases.
Qed.

(** ** Powers of two in [Q] *)

Lemma pow2_pos (e : Z) : (0 < pow2 e)%Q.
Proof. apply Qpower_0_lt. reflexivity. Qed.

Lemma pow2_add (a b : Z) : (pow2 (a + b) == pow2 a * pow2 b)%Q.
Proof. apply Qpower_plus. discriminate. Qed.

Lemma pow2_Z (n : Z) : 0 <= n -> (pow2 n == inject_Z (2 ^ n))%Q.
Proof. intros Hn. unfold pow2. rewrite Zpower_Qpower by assumption. reflexivity. Qed.

Lemma pow2_le (a b : Z) : a <= b -> (pow2 a <= pow2 b)%Q.
Proof. intros H. apply Qpower_le_compat_l; [assumption|]. discriminate. Qed.

Lemma pow2_lt (a b : Z) : a < b -> (pow2 a < pow2 b)%Q.
Proof. intros H. apply Qpower_lt_compat_l; [assumption|]. reflexivity. Qed.

Lemma pow2_lt_inv (a b : Z) : (pow2 a < pow2 b)%Q -> a < b.
Proof. intros H. apply (Qpower_lt_compat_l_inv 2); [assumption|]. reflexivity. Qed.

(** An integer at a lower exponent is an integer multiple at a higher
    one's scale: [m * 2^n * 2^e = m * 2^(n+e)]. *)
Lemma pow2_shift (m n e : Z) :
  0 <= n -> (inject_Z (m * 2 ^ n) * pow2 e == inject_Z m * pow2 (n + e))%Q.
Proof.
  intros Hn. rewrite inject_Z_mult, pow2_add, <- pow2_Z by assumption.
  ring.
Qed.

(** A shift count that is not positive leaves the record alone. *)
Lemma shr_nonpos (mrs : shr_record) (e n : Z) :
  n <= 0 -> shr mrs e n = (mrs, e).
Proof. intros Hn. destruct n; try reflexivity. lia. Qed.

Lemma grid_dist (k p n E : Z) :
  0 <= n -> Z.abs (k * 2 ^ n - p) < 2 ^ n ->
  (Qabs (inject_Z k * pow2 (n + E) - inject_Z p * pow2 E) < pow2 (n + E))%Q.
Proof.
  intros Hn Habs.
  rewrite <- pow2_shift by assumption.
  assert (E1 : (inject_Z (k * 2 ^ n) * pow2 E - inject_Z p * pow2 E
                == inject_Z (k * 2 ^ n - p) * pow2 E)%Q).
  { unfold Z.sub. rewrite inject_Z_plus, inject_Z_opp. ring. }
  rewrite E1, pow2_add, Qabs_Qmult, (Qabs_pos (pow2 E))
    by apply Qlt_le_weak, pow2_pos.
  apply Qmult_lt_compat_r; [apply pow2_pos|].
  rewrite pow2_Z by assumption.
  change (Qabs (inject_Z (k * 2 ^ n - p))) with (inject_Z (Z.abs (k * 2 ^ n - p))).
  rewrite <- Zlt_Qlt. assumption.
Qed.

Lemma iter_xO_shift (m d : positive) :
  Zpos (Pos.iter xO m d) = Zpos m * 2 ^ Zpos d.
Proof.
  induction d as [|d IH] using Pos.peano_ind.
  - cbn [Pos.iter]. rewrite Pos2Z.inj_xO. change (2 ^ 1) with 2. lia.
  - rewrite Pos.iter_succ, Pos2Z.inj_xO, IH, Pos2Z.inj_succ, Z.pow_succ_r by lia.
    lia.
Qed.

Lemma digits2_pos_shift (m m' : positive) (n : Z) :
  0 <= n -> Zpos m' = Zpos m * 2 ^ n ->
  Zpos (digits2_pos m') = Zpos (digits2_pos m) + n.
Proof.
  intros Hn Hm. pose proof (digits2_pos_bounds m) as [Dl Du].
  assert (0 < 2 ^ n) by (apply Z.pow_pos_nonneg; lia).
  apply digits2_pos_unique. rewrite Hm.
  replace (Zpos (digits2_pos m) + n - 1) with ((Zpos (digits2_pos m) - 1) + n) by lia.
  rewrite !Z.pow_add_r by lia. split; nia.
Qed.

(** [shl_align] keeps the value and reaches the requested exponent when
    it is lower. *)
Lemma shl_align_spec (m : positive) (e e' : Z) :
  let '(m', ez) := shl_align m e e' in
  ez = Z.min e e' /\ Zpos m' = Zpos m * 2 ^ (e - ez).
Proof.
  unfold shl_align. destruct (e' - e) as [|d|d] eqn:Ed.
  - split; [lia|]. replace (e - e) with 0 by lia. simpl. lia.
  - split; [lia|]. replace (e - e) with 0 by lia. simpl. lia.
  - split; [lia|]. rewrite iter_xO_shift. f_equal. f_equal. lia.
Qed.

(** ** The rounding kernel meets its specification *)

Section Rounding.
Variables prec emax : Z.
Hypothesis prec_gt_0 : 0 < prec.
Hypothesis prec_lt_emax : prec < emax.
Local Set Default Proof Using "prec_gt_0 prec_lt_emax".

Local Abbreviation emin := (SpecFloat.emin prec emax).
Local Abbreviation fexp := (SpecFloat.fexp prec emax).

Lemma fexp_ge_emin (x : Z) : emin <= fexp x.
Proof. unfold fexp, SpecFloat.fexp. fold emin. lia. Qed.

Lemma binary_round_aux_unfold (s : bool) (m e : Z) (l : location) :
  binary_round_aux prec emax s m e l =
  let '(mrs, e') := shr_fexp prec emax m e l in
  finish_round prec emax s
    (round_nearest_even (shr_m mrs) (loc_of_shr_record mrs)) e'.
Proof using Type.
  unfold binary_round_aux, finish_round.
  destruct (shr_fexp prec emax m e l) as [mrs e']. reflexivity.
Qed.

Lemma finish_round_spec (s : bool) (k e1 : Z) :
  0 <= k <= 2 ^ prec -> emin <= e1 ->
  (e1 = emin \/ 2 ^ (prec - 1) <= k) ->
  round_result prec emax s (inject_Z k * pow2 e1)%Q
    (finish_round prec emax s k e1).
Proof.
  intros [Hk0 Hk1] He1 Hcan.
  assert (Hemin : emin = 3 - emax - prec) by reflexivity.
  unfold finish_round, shr_fexp.
  destruct k as [|q|q]; [| |lia].
  - (* zero *)
    cbn [Zdigits2 shr_record_of_loc].
    rewrite shr_nonpos by (unfold SpecFloat.fexp; fold emin; lia).
    cbn [shr_m round_result]. split; [reflexivity|]. ring.
  - cbn [Zdigits2 shr_record_of_loc].
    pose proof (digits2_pos_bounds q) as [Dl Du].
    set (dr := Zpos (digits2_pos q)) in *.
    destruct (Z.eq_dec (Zpos q) (2 ^ prec)) as [Htop|Hlow].
    + (* the mantissa overflowed to 2^prec: one more shift *)
      assert (Hdr : dr = prec + 1).
      { apply digits2_pos_unique. rewrite Htop.
        replace (prec + 1 - 1) with prec by lia. split; [lia|].
        apply Z.pow_lt_mono_r; lia. }
      rewrite Hdr.
      replace (SpecFloat.fexp prec emax (prec + 1 + e1) - e1) with 1
        by (unfold SpecFloat.fexp; fold emin; lia).
      cbn [shr iter_pos]. rewrite Htop.
      replace (2 ^ prec) with (2 * 2 ^ (prec - 1))
        by (rewrite <- Z.pow_succ_r by lia; f_equal; lia).
      rewrite shr_1_exact
        by (apply Z.lt_le_incl, Z.pow_pos_nonneg; lia).
      cbn [shr_m].
      assert (Hp : 0 < 2 ^ (prec - 1)) by (apply Z.pow_pos_nonneg; lia).
      destruct (2 ^ (prec - 1)) as [|m|m] eqn:Em; [lia| |lia].
      assert (Hval : (inject_Z (Z.pos m) * pow2 (e1 + 1)
                      == inject_Z (2 * Z.pos m) * pow2 e1)%Q).
      { rewrite (Z.add_comm e1 1), pow2_add, inject_Z_mult.
        change (pow2 1) with 2%Q. change (inject_Z 2) with 2%Q. ring. }
      destruct (Z.leb_spec (e1 + 1) (emax - prec)) as [Hle|Hgt];
        cbn [round_result].
      * split; [reflexivity|]. split; [|exact Hval].
        unfold bounded, canonical_mantissa.
        apply andb_true_iff. split; [|apply Z.leb_le; lia].
        apply Z.eqb_eq.
        assert (Hd : Zpos (digits2_pos m) = prec).
        { apply digits2_pos_unique. rewrite <- Em. split; [lia|].
          apply Z.pow_lt_mono_r; lia. }
        rewrite Hd. unfold SpecFloat.fexp. fold emin. lia.
      * split; [reflexivity|].
        rewrite <- Hval, <- Em, <- pow2_Z, <- pow2_add by lia.
        apply pow2_le. lia.
    + (* at most prec digits: no further shift *)
      assert (Hdr : dr <= prec) by (apply digits2_pos_le; lia).
      rewrite shr_nonpos by (unfold SpecFloat.fexp; fold emin; lia).
      cbn [shr_m].
      destruct (Z.leb_spec e1 (emax - prec)) as [Hle|Hgt];
        cbn [round_result].
      * split; [reflexivity|]. split; [|reflexivity].
        unfold bounded, canonical_mantissa.
        apply andb_true_iff. split; [|apply Z.leb_le; lia].
        apply Z.eqb_eq. fold dr.
        destruct Hcan as [->|Hbig].
        -- unfold SpecFloat.fexp. fold emin. lia.
        -- assert (prec <= dr) by (apply digits2_pos_ge; assumption).
           unfold SpecFloat.fexp. fold emin. lia.
      * split; [reflexivity|].
        destruct Hcan as [->|Hbig]; [lia|].
        apply Qle_trans with (inject_Z (2 ^ (prec - 1)) * pow2 e1)%Q.
        -- rewrite <- pow2_Z, <- pow2_add by lia. apply pow2_le. lia.
        -- apply Qmult_le_compat_r; [|apply Qlt_le_weak, pow2_pos].
           rewrite <- Zle_Qle. assumption.
Qed.

(** [binary_round_aux] on an exact, pre-aligned positive mantissa. *)
Lemma binary_round_aux_spec (s : bool) (p : positive) (E : Z) :
  E <= fexp (Zpos (digits2_pos p) + E) ->
  rounds_to prec emax s (inject_Z (Zpos p) * pow2 E)%Q
    (binary_round_aux prec emax s (Zpos p) E loc_Exact).
Proof.
  intros Hpre.
  pose proof (digits2_pos_bounds p) as [Dl Du].
  set (d := Zpos (digits2_pos p)) in *.
  set (e1 := fexp (d + E)) in *.
  assert (He1 : e1 = Z.max (d + E - prec) emin) by reflexivity.
  assert (Hulp : e1 = emin \/
                 (pow2 (e1 + prec - 1) <= inject_Z (Zpos p) * pow2 E)%Q).
  { destruct (Z.eq_dec e1 emin) as [|Hne]; [left; assumption|right].
    replace (e1 + prec - 1) with ((d - 1) + E) by lia.
    rewrite pow2_add, pow2_Z by lia.
    apply Qmult_le_compat_r; [|apply Qlt_le_weak, pow2_pos].
    rewrite <- Zle_Qle. assumption. }
  rewrite binary_round_aux_unfold. unfold shr_fexp.
  cbn [Zdigits2 shr_record_of_loc]. fold d. fold (fexp (d + E)). fold e1.
  assert (Hemin1 : emin <= e1) by apply fexp_ge_emin.
  clearbody e1.
  destruct (e1 - E) as [|n|n] eqn:En; [| |lia].
  - (* already aligned: exact *)
    cbn [shr shr_m loc_of_shr_record round_nearest_even].
    assert (E = e1) by lia. subst E.
    exists (Zpos p), e1. repeat split.
    + lia.
    + exact Hemin1.
    + exact Hulp.
    + setoid_replace (inject_Z (Z.pos p) * pow2 e1 - inject_Z (Z.pos p) * pow2 e1)%Q
        with 0%Q by ring.
      apply pow2_pos.
    + apply finish_round_spec.
      * split; [lia|]. apply Z.lt_le_incl.
        apply Z.lt_le_trans with (2 ^ d); [assumption|].
        apply Z.pow_le_mono_r; lia.
      * exact Hemin1.
      * destruct (Z.eq_dec e1 emin); [left; assumption|right].
        replace (prec - 1) with (d - 1) by lia. assumption.
  - cbn [shr].
    assert (Hn : e1 = Zpos n + E) by lia.
    assert (H2n : 0 < 2 ^ Zpos n) by (apply Z.pow_pos_nonneg; lia).
    set (q := Zpos p / 2 ^ Zpos n).
    pose proof (Z.div_mod (Zpos p) (2 ^ Zpos n) ltac:(lia)) as Hdm.
    pose proof (Z.mod_pos_bound (Zpos p) (2 ^ Zpos n) H2n) as Hmod.
    fold q in Hdm.
    assert (Hq0 : 0 <= q) by (apply Z.div_pos; lia).
    assert (Hqtop : q < 2 ^ prec).
    { apply Z.div_lt_upper_bound; [assumption|].
      apply Z.lt_le_trans with (2 ^ d); [assumption|].
      rewrite <- Z.pow_add_r by lia. apply Z.pow_le_mono_r; lia. }
    pose proof (shr_round_cases n (Zpos p) ltac:(lia)) as Hk.
    cbv zeta in Hk. fold q in Hk.
    set (k := round_nearest_even _ _) in *.
    replace (E + Zpos n) with e1 by lia.
    exists k, e1. repeat split.
    + lia.
    + exact Hemin1.
    + exact Hulp.
    + rewrite Hn. apply grid_dist; [lia|].
      destruct Hk as [[Hz ->]|[Hnz [->| ->]]]; lia.
    + apply finish_round_spec.
      * lia.
      * exact Hemin1.
      * destruct (Z.eq_dec e1 emin); [left; assumption|right].
        apply Z.le_trans with q; [|lia].
        apply Z.div_le_lower_bound; [assumption|].
        replace (2 ^ Zpos n * 2 ^ (prec - 1)) with (2 ^ (d - 1)); [assumption|].
        rewrite <- Z.pow_add_r by lia. f_equal. lia.
Qed.

Lemma rounds_to_ext (s : bool) (v v' : Q) (r : spec_float) :
  (v == v')%Q -> rounds_to prec emax s v r -> rounds_to prec emax s v' r.
Proof using Type.
  intros Hv (k & e1 & Hk & He & Hulp & Hd & Hr).
  exists k, e1. repeat split; try assumption.
  - destruct Hulp as [->|Hu]; [left; reflexivity|right].
    rewrite <- Hv. assumption.
  - rewrite <- Hv. assumption.
Qed.

(** [binary_round]: rounding of any positive dyadic [m * 2^e]. *)
Lemma binary_round_spec (s : bool) (m : positive) (e : Z) :
  rounds_to prec emax s (inject_Z (Zpos m) * pow2 e)%Q
    (binary_round prec emax s m e).
Proof.
  unfold binary_round.
  pose proof (shl_align_spec m e (fexp (Zpos (digits2_pos m) + e))) as Hal.
  fold fexp.
  destruct (shl_align m e (fexp (Zpos (digits2_pos m) + e))) as [mz ez].
  destruct Hal as [Hez Hmz].
  assert (Hd : Zpos (digits2_pos mz) + ez = Zpos (digits2_pos m) + e).
  { rewrite (digits2_pos_shift m mz (e - ez)) by (assumption || lia). lia. }
  apply rounds_to_ext with (inject_Z (Zpos mz) * pow2 ez)%Q.
  - rewrite Hmz, pow2_shift by lia. replace (e - ez + ez) with e by lia.
    reflexivity.
  - apply binary_round_aux_spec. rewrite Hd. lia.
Qed.

(** [binary_normalize]: rounding of any dyadic [m * 2^e], signed. *)
Lemma binary_normalize_spec (m e : Z) (sz : bool) :
  let v := (inject_Z m * pow2 e)%Q in
  let r := binary_normalize prec emax m e sz in
  (m = 0 /\ r = S754_zero sz) \/
  (0 < m /\ rounds_to prec emax false v r) \/
  (m < 0 /\ rounds_to prec emax true (- v)%Q r).
Proof.
  destruct m as [|p|p]; cbn [binary_normalize].
  - left. split; reflexivity.
  - right. left. split; [lia|]. apply binary_round_spec.
  - right. right. split; [lia|].
    apply rounds_to_ext with (inject_Z (Zpos p) * pow2 e)%Q.
    + change (Z.neg p) with (- Zpos p). rewrite inject_Z_opp. ring.
    + apply binary_round_spec.
Qed.

(** The exact integer sum behind a float addition. *)
Lemma aligned_value (s : bool) (m : positive) (e ez : Z) :
  ez <= e ->
  (inject_Z (cond_Zopp s (Zpos (fst (shl_align m e ez)))) * pow2 ez
   == F2Q (S754_finite s m e))%Q.
Proof.
  intros Hez. pose proof (shl_align_spec m e ez) as Hal.
  destruct (shl_align m e ez) as [m' e']. cbn [fst]. destruct Hal as [He' Hm'].
  rewrite Z.min_r in He' by lia. subst e'.
  assert (Hpos : (inject_Z (Zpos m') * pow2 ez == inject_Z (Zpos m) * pow2 e)%Q).
  { rewrite Hm', pow2_shift by lia. replace (e - ez + ez) with e by lia.
    reflexivity. }
  cbn [F2Q]. destruct s; cbn [cond_Zopp].
  - rewrite !inject_Z_opp.
    setoid_replace (- inject_Z (Z.pos m') * pow2 ez)%Q
      with (- (inject_Z (Z.pos m') * pow2 ez))%Q by ring.
    rewrite Hpos. ring.
  - exact Hpos.
Qed.

Lemma signed_rounding_ext (v v' : Q) (r : spec_float) :
  (v == v')%Q -> signed_rounding prec emax v r ->
  signed_rounding prec emax v' r.
Proof using Type.
  intros Hv [[Hz Hr]|[[Hp Hr]|[Hn Hr]]].
  - left. split; [rewrite <- Hv|]; assumption.
  - right. left. split; [rewrite <- Hv; assumption|].
    apply rounds_to_ext with (2 := Hr). assumption.
  - right. right. split; [rewrite <- Hv; assumption|].
    apply rounds_to_ext with (2 := Hr). rewrite Hv. reflexivity.
Qed.

Lemma binary_normalize_signed (m e : Z) (v : Q) :
  (inject_Z m * pow2 e == v)%Q ->
  signed_rounding prec emax v (binary_normalize prec emax m e false).
Proof.
  intros Hv. pose proof (pow2_pos e) as He.
  destruct (binary_normalize_spec m e false) as [[Hm Hr]|[[Hm Hr]|[Hm Hr]]].
  - left. split; [|assumption]. rewrite <- Hv, Hm. ring.
  - right. left. split.
    + rewrite <- Hv. apply Qmult_lt_0_compat; [|assumption].
      change 0%Q with (inject_Z 0). rewrite <- Zlt_Qlt. assumption.
    + apply rounds_to_ext with (2 := Hr). assumption.
  - right. right. split.
    + rewrite <- Hv.
      assert (inject_Z m < 0)%Q
        by (change 0%Q with (inject_Z 0); rewrite <- Zlt_Qlt; assumption).
      nra.
    + apply rounds_to_ext with (2 := Hr). rewrite Hv. reflexivity.
Qed.

Lemma SFadd_finite_spec (sx : bool) (mx : positive) (ex : Z)
                        (sy : bool) (my : positive) (ey : Z) :
  signed_rounding prec emax
    (F2Q (S754_finite sx mx ex) + F2Q (S754_finite sy my ey))%Q
    (SFadd prec emax (S754_finite sx mx ex) (S754_finite sy my ey)).
Proof.
  cbn [SFadd]. apply binary_normalize_signed.
  rewrite inject_Z_plus, Qmult_plus_distr_l.
  rewrite !aligned_value by lia. reflexivity.
Qed.

Lemma SFsub_finite_spec (sx : bool) (mx : positive) (ex : Z)
                        (sy : bool) (my : positive) (ey : Z) :
  signed_rounding prec emax
    (F2Q (S754_finite sx mx ex) - F2Q (S754_finite sy my ey))%Q
    (SFsub prec emax (S754_finite sx mx ex) (S754_finite sy my ey)).
Proof.
  cbn [SFsub]. apply binary_normalize_signed.
  unfold Z.sub. rewrite inject_Z_plus, inject_Z_opp, Qmult_plus_distr_l.
  setoid_replace (- inject_Z (cond_Zopp sy (Z.pos (fst (shl_align my ey (Z.min ex ey)))))
                  * pow2 (Z.min ex ey))%Q
    with (- (inject_Z (cond_Zopp sy (Z.pos (fst (shl_align my ey (Z.min ex ey)))))
                  * pow2 (Z.min ex ey)))%Q by ring.
  rewrite !aligned_value by lia. reflexivity.
Qed.
End Rounding.

(** ** Consequences of the rounding specification *)

Lemma finite_mag_pos (m : positive) (e : Z) :
  (0 < inject_Z (Zpos m) * pow2 e)%Q.
Proof.
  apply Qmult_lt_0_compat; [|apply pow2_pos].
  change 0%Q with (inject_Z 0). rewrite <- Zlt_Qlt. lia.
Qed.

Lemma mantissa_compare (m1 m2 : positive) (e : Z) :
  ((inject_Z (Zpos m1) * pow2 e ?= inject_Z (Zpos m2) * pow2 e)%Q
   = (m1 ?= m2)%positive).
Proof.
  pose proof (pow2_pos e) as Pe.
  destruct (Pos.compare_spec m1 m2) as [->|Hlt|Hgt].
  - apply -> Qeq_alt. reflexivity.
  - apply -> Qlt_alt. apply Qmult_lt_compat_r; [assumption|].
    rewrite <- Zlt_Qlt. lia.
  - apply -> Qgt_alt. apply Qmult_lt_compat_r; [assumption|].
    rewrite <- Zlt_Qlt. lia.
Qed.

Lemma Qcompare_opp (a b : Q) : ((- a ?= - b) = CompOpp (a ?= b))%Q.
Proof.
  destruct (Qcompare_spec a b) as [H|H|H]; cbn [CompOpp].
  - apply -> Qeq_alt. rewrite H. reflexivity.
  - apply -> Qgt_alt. lra.
  - apply -> Qlt_alt. lra.
Qed.

Section RoundingUse.
Variables prec emax : Z.
Hypothesis prec_gt_0 : 0 < prec.
Hypothesis prec_lt_emax : prec < emax.
Local Set Default Proof Using "prec_gt_0 prec_lt_emax".

Local Abbreviation emin := (SpecFloat.emin prec emax).
Local Abbreviation fexp := (SpecFloat.fexp prec emax).

Lemma bounded_inv (m : positive) (e : Z) :
  bounded prec emax m e = true ->
  Zpos (digits2_pos m) <= prec /\ emin <= e <= emax - prec /\
  (e = emin \/ Zpos (digits2_pos m) = prec).
Proof.
  unfold bounded, canonical_mantissa. rewrite andb_true_iff.
  intros [Hc He]. apply Z.eqb_eq in Hc. apply Z.leb_le in He.
  unfold SpecFloat.fexp in Hc. fold emin in Hc. lia.
Qed.

Lemma bounded_mantissa (m : positive) (e : Z) :
  bounded prec emax m e = true ->
  Zpos m < 2 ^ prec /\ (e = emin \/ 2 ^ (prec - 1) <= Zpos m).
Proof.
  intros Hb. destruct (bounded_inv m e Hb) as (Hd & He & Hn).
  pose proof (digits2_pos_bounds m) as [Dl Du]. split.
  - apply Z.lt_le_trans with (1 := Du). apply Z.pow_le_mono_r; lia.
  - destruct Hn as [->|Hn]; [left; reflexivity|right].
    rewrite <- Hn. assumption.
Qed.

(** Multiplication of two canonical finite floats. *)
Lemma SFmul_finite_spec (sx : bool) (mx : positive) (ex : Z)
                        (sy : bool) (my : positive) (ey : Z) :
  bounded prec emax mx ex = true -> bounded prec emax my ey = true ->
  rounds_to prec emax (xorb sx sy)
    ((inject_Z (Zpos mx) * pow2 ex) * (inject_Z (Zpos my) * pow2 ey))%Q
    (SFmul prec emax (S754_finite sx mx ex) (S754_finite sy my ey)).
Proof.
  intros Hx Hy. cbn [SFmul].
  apply rounds_to_ext
    with (inject_Z (Zpos (mx * my)) * pow2 (ex + ey))%Q.
  - rewrite Pos2Z.inj_mul, inject_Z_mult, pow2_add. ring.
  - apply binary_round_aux_spec; [assumption..|].
    destruct (bounded_inv mx ex Hx) as (Hdx & Hex & Hnx).
    destruct (bounded_inv my ey Hy) as (Hdy & Hey & Hny).
    pose proof (digits2_pos_bounds mx) as [Lx _].
    pose proof (digits2_pos_bounds my) as [Ly _].
    assert (Hd : Zpos (digits2_pos mx) + Zpos (digits2_pos my) - 1
                 <= Zpos (digits2_pos (mx * my))).
    { apply digits2_pos_ge. rewrite Pos2Z.inj_mul.
      replace (Zpos (digits2_pos mx) + Zpos (digits2_pos my) - 1 - 1)
        with ((Zpos (digits2_pos mx) - 1) + (Zpos (digits2_pos my) - 1)) by lia.
      rewrite Z.pow_add_r by lia.
      apply Z.mul_le_mono_nonneg; try assumption;
        apply Z.lt_le_incl, Z.pow_pos_nonneg; lia. }
    assert (Hemin : emin = 3 - emax - prec) by reflexivity.
    unfold SpecFloat.fexp. fold emin. lia.
Qed.

(** The value and the error of a rounding of [v], from a bound
    [B * 2^j] on [v] that lies on the grid and a strict power-of-two
    bound [2^jj]. *)
Lemma rounds_to_elim (s : bool) (v : Q) (r : spec_float) (B j jj : Z) :
  rounds_to prec emax s v r ->
  (v <= inject_Z B * pow2 j)%Q -> 0 < B < 2 ^ prec ->
  emin <= j -> j + prec <= emax ->
  (v < pow2 jj)%Q -> emin <= jj - prec ->
  exists q : Q,
    is_finite r = true /\ valid_binary prec emax r = true /\
    sign_bit r = s /\ (F2Q r == if s then - q else q)%Q /\
    (0 <= q <= inject_Z B * pow2 j)%Q /\
    (Qabs (q - v) < pow2 (jj - prec))%Q.
Proof.
  intros (k & e1 & Hk & He1 & Hulp & Hd & Hr) HvB HB Hj Hjmax Hvj Hjj.
  set (q := (inject_Z k * pow2 e1)%Q) in *.
  pose proof (pow2_pos e1) as P1.
  assert (HBq : (inject_Z B * pow2 j < pow2 (prec + j))%Q).
  { rewrite pow2_add, (pow2_Z prec) by lia.
    apply Qmult_lt_compat_r; [apply pow2_pos|].
    rewrite <- Zlt_Qlt. lia. }
  assert (He1j : e1 <= j).
  { destruct Hulp as [->|Hu]; [assumption|].
    assert (pow2 (e1 + prec - 1) < pow2 (prec + j))%Q
      by (eapply Qle_lt_trans; [exact Hu|]; eapply Qle_lt_trans; eassumption).
    apply pow2_lt_inv in H. lia. }
  assert (He1jj : e1 <= jj - prec).
  { destruct Hulp as [->|Hu]; [assumption|].
    assert (pow2 (e1 + prec - 1) < pow2 jj)%Q
      by (eapply Qle_lt_trans; eassumption).
    apply pow2_lt_inv in H. lia. }
  assert (Hq0 : (0 <= q)%Q).
  { unfold q. apply Qmult_le_0_compat; [|apply Qlt_le_weak; assumption].
    change 0%Q with (inject_Z 0). rewrite <- Zle_Qle. assumption. }
  assert (HqB : (q <= inject_Z B * pow2 j)%Q).
  { apply Qabs_Qlt_condition in Hd. destruct Hd as [_ Hd].
    assert (Hgrid : (inject_Z B * pow2 j
                     == inject_Z (B * 2 ^ (j - e1)) * pow2 e1)%Q).
    { rewrite pow2_shift by lia. replace (j - e1 + e1) with j by lia.
      reflexivity. }
    assert (Hlt : (inject_Z k * pow2 e1
                   < inject_Z (B * 2 ^ (j - e1) + 1) * pow2 e1)%Q).
    { rewrite inject_Z_plus, Qmult_plus_distr_l, <- Hgrid.
      fold q. change (inject_Z 1) with 1%Q. lra. }
    apply Qmult_lt_r in Hlt; [|assumption].
    rewrite <- Zlt_Qlt in Hlt.
    rewrite Hgrid. unfold q.
    apply Qmult_le_compat_r; [|apply Qlt_le_weak; assumption].
    rewrite <- Zle_Qle. lia. }
  assert (Herr : (Qabs (q - v) < pow2 (jj - prec))%Q).
  { eapply Qlt_le_trans; [exact Hd|]. apply pow2_le. assumption. }
  exists q.
  destruct r as [s'|s'| |s' m e]; cbn [round_result] in Hr.
  - destruct Hr as [-> Hz]. repeat split; try assumption.
    cbn [F2Q]. destruct s; rewrite Hz; reflexivity.
  - exfalso. destruct Hr as [_ Hinf].
    assert (pow2 emax < pow2 (prec + j))%Q
      by (eapply Qle_lt_trans; [exact Hinf|]; eapply Qle_lt_trans; eassumption).
    apply pow2_lt_inv in H. lia.
  - contradiction.
  - destruct Hr as (-> & Hb & Hval). repeat split; try assumption.
    cbn [F2Q]. destruct s; cbn [cond_Zopp].
    + rewrite inject_Z_opp, <- Hval. ring.
    + exact Hval.
Qed.

(** Canonical floats are ordered by exponent first. *)
Lemma canonical_exp_lt (m1 : positive) (e1 : Z) (m2 : positive) (e2 : Z) :
  bounded prec emax m1 e1 = true -> bounded prec emax m2 e2 = true ->
  e1 < e2 ->
  (inject_Z (Zpos m1) * pow2 e1 < inject_Z (Zpos m2) * pow2 e2)%Q.
Proof.
  intros H1 H2 Hlt.
  destruct (bounded_mantissa m1 e1 H1) as [U1 _].
  destruct (bounded_mantissa m2 e2 H2) as [_ L2].
  destruct (bounded_inv m1 e1 H1) as (_ & He1 & _).
  destruct L2 as [->|L2]; [lia|].
  apply Qlt_le_trans with (pow2 (prec + e1)).
  - rewrite pow2_add, (pow2_Z prec) by lia.
    apply Qmult_lt_compat_r; [apply pow2_pos|].
    rewrite <- Zlt_Qlt. assumption.
  - apply Qle_trans with (pow2 ((prec - 1) + e2)); [apply pow2_le; lia|].
    rewrite pow2_add, (pow2_Z (prec - 1)) by lia.
    apply Qmult_le_compat_r; [|apply Qlt_le_weak, pow2_pos].
    rewrite <- Zle_Qle. assumption.
Qed.

(** Comparison of canonical finite floats of one sign. *)
Lemma compare_pos_spec (m1 : positive) (e1 : Z) (m2 : positive) (e2 : Z) :
  bounded prec emax m1 e1 = true -> bounded prec emax m2 e2 = true ->
  match Z.compare e1 e2 with
  | Lt => Lt
  | Gt => Gt
  | Eq => Pos.compare_cont Eq m1 m2
  end = (inject_Z (Zpos m1) * pow2 e1 ?= inject_Z (Zpos m2) * pow2 e2)%Q.
Proof.
  intros H1 H2. symmetry.
  destruct (Z.compare_spec e1 e2) as [->|Hlt|Hgt].
  - apply mantissa_compare.
  - apply -> Qlt_alt. apply canonical_exp_lt; assumption.
  - apply -> Qgt_alt. apply canonical_exp_lt; assumption.
Qed.

(** [SFcompare] on canonical finite floats is the comparison of their
    values. *)
Lemma SFcompare_spec (x y : spec_float) :
  valid_binary prec emax x = true -> valid_binary prec emax y = true ->
  is_finite x = true -> is_finite y = true ->
  SFcompare x y = Some (F2Q x ?= F2Q y)%Q.
Proof.
  intros Vx Vy Fx Fy.
  destruct x as [sx|sx| |sx mx ex]; try discriminate;
    destruct y as [sy|sy| |sy my ey]; try discriminate;
    cbn [SFcompare F2Q valid_binary] in *; f_equal; symmetry.
  - pose proof (finite_mag_pos my ey).
    destruct sy; cbn [cond_Zopp].
    + apply -> Qgt_alt. rewrite inject_Z_opp. lra.
    + apply -> Qlt_alt. assumption.
  - pose proof (finite_mag_pos mx ex).
    destruct sx; cbn [cond_Zopp].
    + apply -> Qlt_alt. rewrite inject_Z_opp. lra.
    + apply -> Qgt_alt. assumption.
  - pose proof (finite_mag_pos mx ex). pose proof (finite_mag_pos my ey).
    destruct sx, sy; cbn [cond_Zopp]; rewrite ?inject_Z_opp.
    + setoid_replace (- inject_Z (Zpos mx) * pow2 ex)%Q
        with (- (inject_Z (Zpos mx) * pow2 ex))%Q by ring.
      setoid_replace (- inject_Z (Zpos my) * pow2 ey)%Q
        with (- (inject_Z (Zpos my) * pow2 ey))%Q by ring.
      rewrite Qcompare_opp, <- compare_pos_spec by assumption.
      destruct (ex ?= ey); reflexivity.
    + apply -> Qlt_alt. lra.
    + apply -> Qgt_alt. lra.
    + symmetry. apply compare_pos_spec; assumption.
Qed.

Lemma SFltb_spec (x y : spec_float) :
  valid_binary prec emax x = true -> valid_binary prec emax y = true ->
  is_finite x = true -> is_finite y = true ->
  (SFltb x y = true <-> (F2Q x < F2Q y)%Q).
Proof.
  intros Vx Vy Fx Fy. unfold SFltb.
  rewrite (SFcompare_spec x y Vx Vy Fx Fy), Qlt_alt.
  destruct (F2Q x ?= F2Q y)%Q; split; congruence.
Qed.

Lemma SFleb_spec (x y : spec_float) :
  valid_binary prec emax x = true -> valid_binary prec emax y = true ->
  is_finite x = true -> is_finite y = true ->
  (SFleb x y = true <-> (F2Q x <= F2Q y)%Q).
Proof.
  intros Vx Vy Fx Fy. unfold SFleb.
  rewrite (SFcompare_spec x y Vx Vy Fx Fy), Qle_alt.
  destruct (F2Q x ?= F2Q y)%Q; split; congruence.
Qed.
End RoundingUse.

(** ** Exact roundings and the float-to-integer cast *)

Section ExactInt.
Variables prec emax : Z.
Hypothesis prec_gt_0 : 0 < prec.
Hypothesis prec_lt_emax : prec < emax.
Local Set Default Proof Using "prec_gt_0 prec_lt_emax".

(** An integer of fewer than [prec] bits is a float: rounding it is
    exact. *)
Lemma rounds_to_int_exact (s : bool) (z : Z) (r : spec_float) :
  rounds_to prec emax s (inject_Z z) r -> 0 < z < 2 ^ prec ->
  exists m e, r = S754_finite s m e /\ bounded prec emax m e = true /\
              (inject_Z (Zpos m) * pow2 e == inject_Z z)%Q.
Proof.
  intros (k & e1 & Hk & He1 & Hulp & Hd & Hr) Hz.
  assert (Hemin : SpecFloat.emin prec emax = 3 - emax - prec) by reflexivity.
  assert (Hzq : (inject_Z z < pow2 prec)%Q)
    by (rewrite pow2_Z by lia; rewrite <- Zlt_Qlt; lia).
  assert (He0 : e1 <= 0).
  { destruct Hulp as [->|Hu]; [lia|].
    assert (pow2 (e1 + prec - 1) < pow2 prec)%Q
      by (eapply Qle_lt_trans; eassumption).
    apply pow2_lt_inv in H. lia. }
  pose proof (pow2_pos e1) as P1.
  assert (Hgrid : (inject_Z z == inject_Z (z * 2 ^ (- e1)) * pow2 e1)%Q).
  { rewrite pow2_shift by lia. replace (- e1 + e1) with 0 by lia.
    change (pow2 0) with 1%Q. ring. }
  assert (Hkz : k = z * 2 ^ (- e1)).
  { apply Qabs_Qlt_condition in Hd. destruct Hd as [Hd1 Hd2].
    rewrite Hgrid in Hd1, Hd2.
    assert (L1 : (inject_Z (z * 2 ^ (- e1) - 1) * pow2 e1
                  < inject_Z k * pow2 e1)%Q).
    { unfold Z.sub. rewrite inject_Z_plus, inject_Z_opp.
      change (inject_Z 1) with 1%Q. lra. }
    assert (L2 : (inject_Z k * pow2 e1
                  < inject_Z (z * 2 ^ (- e1) + 1) * pow2 e1)%Q).
    { rewrite inject_Z_plus. change (inject_Z 1) with 1%Q. lra. }
    apply Qmult_lt_r in L1; [|assumption].
    apply Qmult_lt_r in L2; [|assumption].
    rewrite <- Zlt_Qlt in L1, L2. lia. }
  assert (Hq : (inject_Z k * pow2 e1 == inject_Z z)%Q)
    by (rewrite Hkz; symmetry; exact Hgrid).
  destruct r as [s'|s'| |s' m e]; cbn [round_result] in Hr.
  - exfalso. destruct Hr as [_ Hr]. rewrite Hq in Hr.
    assert (inject_Z 0 < inject_Z z)%Q by (rewrite <- Zlt_Qlt; lia).
    change (inject_Z 0) with 0%Q in H. lra.
  - exfalso. destruct Hr as [_ Hr]. rewrite Hq in Hr.
    assert (pow2 emax < pow2 prec)%Q by (eapply Qle_lt_trans; eassumption).
    apply pow2_lt_inv in H. lia.
  - contradiction.
  - destruct Hr as (-> & Hb & Hv). exists m, e. repeat split; try assumption.
    rewrite Hv. exact Hq.
Qed.
End ExactInt.

Lemma pow2_inv (e : Z) : (pow2 e * pow2 (- e) == 1)%Q.
Proof. rewrite <- pow2_add. replace (e + - e) with 0 by lia. reflexivity. Qed.

(** The integer part of a float whose value is the integer [z]. *)
Lemma trunc_mag_exact (m : positive) (e z : Z) :
  (inject_Z (Zpos m) * pow2 e == inject_Z z)%Q -> trunc_mag m e = z.
Proof.
  intros Hv. unfold trunc_mag.
  destruct (Z.leb_spec 0 e) as [He|He].
  - rewrite pow2_Z, <- inject_Z_mult in Hv by assumption.
    apply -> inject_Z_injective in Hv. assumption.
  - assert (Hm : Zpos m = z * 2 ^ (- e)).
    { apply -> inject_Z_injective. rewrite inject_Z_mult, <- pow2_Z by lia.
      rewrite <- Hv. rewrite <- Qmult_assoc, pow2_inv. ring. }
    rewrite Hm. apply Z.div_mul.
    apply Z.neq_sym, Z.lt_neq, Z.pow_pos_nonneg; lia.
Qed.

(** [(uint32_t) round(w)] for a non-negative [w] of at most [B < 2^24]:
    the nearest integer, at most [B]. *)
Lemma round_cast_spec (w : float) (B : Z) :
  is_finite w = true -> sign_bit w = false ->
  (F2Q w <= inject_Z B)%Q -> 0 <= B < 2 ^ 24 ->
  exists k, f2u32 (roundf w) = Some k /\ 0 <= k <= B /\
            (Qabs (inject_Z k - F2Q w) <= 1 # 2)%Q.
Proof.
  intros Hfin Hsign HB HBr.
  destruct w as [s|s| |s m e]; try discriminate.
  - exists 0. cbn. repeat split; try lia. discriminate.
  - cbn [sign_bit] in Hsign. subst s. cbn [F2Q cond_Zopp] in *.
    cbn [roundf]. destruct (Z.leb_spec 0 e) as [He|He].
    + (* already an integer *)
      assert (Ev : (inject_Z (Zpos m) * pow2 e == inject_Z (Zpos m * 2 ^ e))%Q)
        by (rewrite pow2_Z, <- inject_Z_mult by assumption; reflexivity).
      rewrite Ev in HB. rewrite <- Zle_Qle in HB.
      assert (0 < 2 ^ e) by (apply Z.pow_pos_nonneg; lia).
      exists (Zpos m * 2 ^ e). cbn [f2u32]. unfold trunc_mag.
      destruct (Z.leb_spec 0 e); [|lia].
      destruct (Z.ltb_spec (Zpos m * 2 ^ e) u32_mod) as [_|Hbig];
        [|unfold u32_mod in Hbig; lia].
      split; [reflexivity|]. split; [nia|].
      rewrite Ev.
      setoid_replace (inject_Z (Z.pos m * 2 ^ e) - inject_Z (Z.pos m * 2 ^ e))%Q
        with 0%Q by ring. discriminate.
    + set (N := 2 ^ (- e)). set (H := 2 ^ (- e - 1)).
      assert (HN : N = 2 * H).
      { unfold N, H. rewrite <- Z.pow_succ_r by lia. f_equal. lia. }
      assert (HH : 0 < H) by (apply Z.pow_pos_nonneg; lia).
      set (k := (Zpos m + H) / N).
      pose proof (Z.div_mod (Zpos m + H) N ltac:(lia)) as Hdm.
      pose proof (Z.mod_pos_bound (Zpos m + H) N ltac:(lia)) as Hmod.
      fold k in Hdm.
      assert (HwN : (inject_Z (Zpos m) * pow2 e * inject_Z N == inject_Z (Zpos m))%Q).
      { unfold N. rewrite <- pow2_Z, <- Qmult_assoc, pow2_inv by lia. ring. }
      assert (HNq : (0 < inject_Z N)%Q)
        by (change 0%Q with (inject_Z 0); rewrite <- Zlt_Qlt; lia).
      assert (HmB : Zpos m <= B * N).
      { rewrite Zle_Qle, inject_Z_mult, <- HwN.
        apply Qmult_le_compat_r; [assumption|lra]. }
      assert (Hk0 : 0 <= k) by (apply Z.div_pos; lia).
      assert (HkB : k <= B) by nia.
      assert (Herr : (Qabs (inject_Z k - inject_Z (Zpos m) * pow2 e) <= 1 # 2)%Q).
      { apply Qabs_Qle_condition.
        assert (A1 : (inject_Z (k * N) <= inject_Z (Zpos m + H))%Q)
          by (rewrite <- Zle_Qle; lia).
        assert (A2 : (inject_Z (Zpos m) <= inject_Z (k * N + H))%Q)
          by (rewrite <- Zle_Qle; lia).
        assert (HHq : (inject_Z N == 2 * inject_Z H)%Q)
          by (rewrite HN, inject_Z_mult; reflexivity).
        rewrite inject_Z_plus, inject_Z_mult in A1, A2.
        rewrite <- HwN in A1, A2.
        set (a := (inject_Z (Zpos m) * pow2 e)%Q) in *.
        clearbody a k N H.
        split.
        - apply (Qmult_le_r _ _ (inject_Z N)); [assumption|]. lra.
        - apply (Qmult_le_r _ _ (inject_Z N)); [assumption|]. lra. }
      destruct (Z.eqb_spec k 0) as [Hkz|Hkz].
      * exists 0. cbn [f2u32]. rewrite Hkz in Herr. repeat split; try lia.
        exact Herr.
      * exists k. cbn [cond_Zopp].
        destruct (f32 binary_normalize_spec k 0 false)
          as [[Hz _]|[[Hpos Hr]|[Hneg _]]]; [lia| |lia].
        cbv zeta in Hr.
        apply rounds_to_ext with (v' := inject_Z k) in Hr;
          [|change (pow2 0) with 1%Q; ring].
        destruct (f32 rounds_to_int_exact false k _ Hr)
          as (m' & e' & -> & Hb & Hv).
        { unfold F32.prec. lia. }
        cbn [f2u32]. rewrite (trunc_mag_exact m' e' k Hv).
        destruct (Z.ltb_spec k u32_mod) as [_|Hbig];
          [|unfold u32_mod in Hbig; lia].
        repeat split; try lia. exact Herr.
Qed.

(** ** The binary32 steps of [pack] and of [float_eq] *)

Lemma finite_sign_nonneg (u : float) :
  is_finite u = true -> (0 <= F2Q u)%Q ->
  (exists s, u = S754_zero s) \/ sign_bit u = false.
Proof.
  intros Hf H0. destruct u as [s|s| |s m e]; try discriminate.
  - left. eauto.
  - right. destruct s; [|reflexivity]. exfalso.
    cbn [F2Q cond_Zopp] in H0. rewrite inject_Z_opp in H0.
    pose proof (finite_mag_pos m e). lra.
Qed.

Lemma in_signed_unit_inv (x : float) :
  F32.valid x = true -> in_signed_unit x = true ->
  is_finite x = true /\ (- (1) <= F2Q x <= 1)%Q.
Proof.
  intros Hv Hin. unfold in_signed_unit in Hin.
  apply andb_true_iff in Hin. destruct Hin as [Hlo Hhi].
  assert (Hf : is_finite x = true)
    by (destruct x as [s|[|]| |s m e]; try reflexivity; discriminate).
  split; [assumption|].
  apply (f32 SFleb_spec) in Hlo;
    try assumption; try reflexivity.
  apply (f32 SFleb_spec) in Hhi;
    try assumption; try reflexivity.
  change (F2Q fm1) with (inject_Z (-8388608) * pow2 (-23))%Q in Hlo.
  change (F2Q f1) with (inject_Z 8388608 * pow2 (-23))%Q in Hhi.
  change (pow2 (-23)) with (1 # 8388608)%Q in *.
  split; [eapply Qle_trans; [|exact Hlo] | eapply Qle_trans; [exact Hhi|]];
    discriminate.
Qed.

Lemma in_unsigned_unit_inv (x : float) :
  F32.valid x = true -> in_unsigned_unit x = true ->
  is_finite x = true /\ (0 <= F2Q x <= 1)%Q.
Proof.
  intros Hv Hin. unfold in_unsigned_unit in Hin.
  apply andb_true_iff in Hin. destruct Hin as [Hlo Hhi].
  assert (Hf : is_finite x = true)
    by (destruct x as [s|[|]| |s m e]; try reflexivity; discriminate).
  split; [assumption|].
  apply (f32 SFleb_spec) in Hlo;
    try assumption; try reflexivity.
  apply (f32 SFleb_spec) in Hhi;
    try assumption; try reflexivity.
  change (F2Q f0) with 0%Q in Hlo.
  change (F2Q f1) with (inject_Z 8388608 * pow2 (-23))%Q in Hhi.
  change (pow2 (-23)) with (1 # 8388608)%Q in *.
  split; [assumption | eapply Qle_trans; [exact Hhi|]]; discriminate.
Qed.

(** [map_ufnorm] sends [-1, 1] into [0, 1], within [2^-22] of
    [(x + 1) / 2]. *)
Lemma map_ufnorm_spec (x : float) :
  F32.valid x = true -> in_signed_unit x = true ->
  let u := map_ufnorm x in
  F32.valid u = true /\ is_finite u = true /\ sign_bit u = false /\
  (0 <= F2Q u <= 1)%Q /\
  (Qabs (F2Q u - (F2Q x + 1) * (1 # 2)) <= pow2 (-22))%Q.
Proof.
  intros Hv Hin. destruct (in_signed_unit_inv x Hv Hin) as [Hf [Hlo Hhi]].
  destruct x as [s|s| |s m e]; try discriminate.
  - (* x is a zero: (0 + 1) * 0.5 *)
    destruct s; vm_compute; repeat split; discriminate.
  - unfold map_ufnorm, F32.add, F32.mul.
    pose proof (f32 SFadd_finite_spec s m e false 8388608 (-23)) as Hadd.
    change (S754_finite false 8388608 (-23)) with f1 in Hadd.
    set (t := SFadd F32.prec F32.emax (S754_finite s m e) f1) in *.
    set (a := F2Q (S754_finite s m e)) in *.
    apply signed_rounding_ext with (v' := (a + 1)%Q) in Hadd;
      [|apply Qplus_comp; reflexivity].
    clearbody a.
    destruct Hadd as [[Hz ->]|[[Hpos Hr]|[Hneg _]]]; [| |lra].
    + (* exact cancellation: x = -1 *)
      change (SFmul F32.prec F32.emax (S754_zero false) fhalf)
        with (S754_zero false).
      cbn [F2Q]. repeat split; try discriminate.
      setoid_replace (0 - (a + 1) * (1 # 2))%Q with 0%Q
        by (rewrite Hz; reflexivity).
      discriminate.
    + destruct (f32 rounds_to_elim
                  false (a + 1)%Q t 1 1 2 Hr)
        as (q1 & Ft & Vt & St & Et & [Q0 Q1] & D1);
        try (unfold F32.prec, F32.emax, SpecFloat.emin; lia).
      { change (inject_Z 1 * pow2 1)%Q with 2%Q. lra. }
      { change (pow2 2) with 4%Q. lra. }
      change (F2Q t == q1)%Q in Et.
      change (inject_Z 1 * pow2 1)%Q with 2%Q in Q1.
      change (pow2 (2 - F32.prec)) with (1 # 4194304)%Q in D1.
      apply Qabs_Qlt_condition in D1.
      clearbody t.
      destruct t as [st|st| |st mt et]; try discriminate.
      * (* the sum rounded to zero *)
        cbn [sign_bit] in St. subst st. cbn [F2Q] in Et.
        change (SFmul F32.prec F32.emax (S754_zero false) fhalf)
          with (S754_zero false).
        cbn [F2Q]. repeat split; try discriminate.
        apply Qabs_Qle_condition.
        change (pow2 (-22)) with (1 # 4194304)%Q. lra.
      * cbn [sign_bit] in St. subst st.
        cbn [F2Q cond_Zopp] in Et. cbn [valid_binary] in Vt.
        pose proof (f32 SFmul_finite_spec false mt et false 8388608 (-24)
                      Vt eq_refl) as Hmul.
        change (S754_finite false 8388608 (-24)) with fhalf in Hmul.
        set (u := SFmul F32.prec F32.emax (S754_finite false mt et) fhalf) in *.
        apply rounds_to_ext with (v' := (q1 * (1 # 2))%Q) in Hmul;
          [|rewrite Et; apply Qmult_comp; [reflexivity|vm_compute; reflexivity]].
        cbn [xorb] in Hmul.
        destruct (f32 rounds_to_elim false (q1 * (1 # 2))%Q u 1 0 1 Hmul)
          as (q2 & Fu & Vu & Su & Eu & [U0 U1] & D2);
          try (unfold F32.prec, F32.emax, SpecFloat.emin; lia).
        { change (inject_Z 1 * pow2 0)%Q with 1%Q. lra. }
        { change (pow2 1) with 2%Q. lra. }
        change (F2Q u == q2)%Q in Eu.
        change (inject_Z 1 * pow2 0)%Q with 1%Q in U1.
        change (pow2 (1 - F32.prec)) with (1 # 8388608)%Q in D2.
        apply Qabs_Qlt_condition in D2.
        repeat split; try assumption.
        -- rewrite Eu. assumption.
        -- rewrite Eu. assumption.
        -- rewrite Eu. apply Qabs_Qle_condition.
           change (pow2 (-22)) with (1 # 4194304)%Q. lra.
Qed.

(** A quantizer [(uint32_t) round(u * top)] on [u] in [0, 1], for a level
    count [top < 2^jj <= 2^24] that is a float: the result is at most
    [top] and within [1/2 + 2^(jj-24)] of [top * u]. *)
Lemma quantize_spec (u : float) (mt : positive) (et top jj : Z) :
  bounded F32.prec F32.emax mt et = true ->
  (inject_Z (Zpos mt) * pow2 et == inject_Z top)%Q ->
  0 < top < 2 ^ jj -> 0 <= jj <= 24 ->
  F32.valid u = true -> is_finite u = true -> (0 <= F2Q u <= 1)%Q ->
  exists k,
    f2u32 (roundf (F32.mul u (S754_finite false mt et))) = Some k /\
    0 <= k <= top /\
    (Qabs (inject_Z k - inject_Z top * F2Q u) <= (1 # 2) + pow2 (jj - 24))%Q.
Proof.
  intros Hbt Htop Htr Hjj Hv Hf [H0 H1].
  assert (Ptop : (0 < inject_Z top)%Q)
    by (change 0%Q with (inject_Z 0); rewrite <- Zlt_Qlt; lia).
  pose proof (pow2_pos (jj - 24)) as Pj.
  unfold F32.mul.
  destruct (finite_sign_nonneg u Hf H0) as [[s ->]|Hs].
  - exists 0. split; [reflexivity|]. split; [lia|]. cbn [F2Q].
    setoid_replace (inject_Z 0 - inject_Z top * 0)%Q with 0%Q by ring.
    change (Qabs 0) with 0%Q. lra.
  - destruct u as [s|s| |s m e]; try discriminate.
    + exists 0. split; [reflexivity|]. split; [lia|]. cbn [F2Q].
      setoid_replace (inject_Z 0 - inject_Z top * 0)%Q with 0%Q by ring.
      change (Qabs 0) with 0%Q. lra.
    + cbn [sign_bit] in Hs. subst s. cbn [F2Q cond_Zopp] in H0, H1 |- *.
      pose proof (f32 SFmul_finite_spec false m e false mt et Hv Hbt) as Hmul.
      cbn [xorb] in Hmul.
      set (w := SFmul F32.prec F32.emax (S754_finite false m e)
                  (S754_finite false mt et)) in *.
      set (a := (inject_Z (Zpos m) * pow2 e)%Q) in *.
      apply rounds_to_ext with (v' := (inject_Z top * a)%Q) in Hmul;
        [|rewrite Htop; ring].
      assert (Hva : (inject_Z top * a <= inject_Z top)%Q).
      { setoid_replace (inject_Z top) with (inject_Z top * 1)%Q at 2 by ring.
        apply Qmult_le_l; assumption. }
      destruct (f32 rounds_to_elim false (inject_Z top * a)%Q w top 0 jj Hmul)
        as (q & Fw & Vw & Sw & Ew & [W0 W1] & D);
        try (unfold F32.prec, F32.emax, SpecFloat.emin; lia).
      { change (pow2 0) with 1%Q. lra. }
      { split; [lia|]. apply Z.lt_le_trans with (2 ^ jj); [lia|].
        apply Z.pow_le_mono_r; unfold F32.prec; lia. }
      { eapply Qle_lt_trans; [exact Hva|].
        rewrite pow2_Z by lia. rewrite <- Zlt_Qlt. lia. }
      change (F2Q w == q)%Q in Ew.
      change (pow2 0) with 1%Q in W1.
      assert (HwB : (F2Q w <= inject_Z top)%Q) by (rewrite Ew; lra).
      destruct (round_cast_spec w top Fw Sw HwB) as (k & Hk & Hkr & Herr).
      { split; [lia|]. apply Z.lt_le_trans with (2 ^ jj); [lia|].
        apply Z.pow_le_mono_r; lia. }
      exists k. split; [exact Hk|]. split; [exact Hkr|].
      rewrite Ew in Herr. clearbody a w.
      apply Qabs_Qle_condition in Herr. apply Qabs_Qlt_condition in D.
      change (jj - F32.prec) with (jj - 24) in D.
      apply Qabs_Qle_condition. lra.
Qed.

Lemma SFabs_value (d : float) : (F2Q (SFabs d) == Qabs (F2Q d))%Q.
Proof.
  destruct d as [s|s| |s m e]; try reflexivity.
  pose proof (finite_mag_pos m e) as P.
  cbn [SFabs F2Q]. destruct s; cbn [cond_Zopp].
  - rewrite inject_Z_opp.
    setoid_replace (- inject_Z (Zpos m) * pow2 e)%Q
      with (- (inject_Z (Zpos m) * pow2 e))%Q by ring.
    rewrite Qabs_opp, Qabs_pos by lra. reflexivity.
  - rewrite Qabs_pos by lra. reflexivity.
Qed.

Lemma SFabs_valid (d : float) :
  F32.valid d = true -> is_finite d = true ->
  F32.valid (SFabs d) = true /\ is_finite (SFabs d) = true.
Proof. destruct d; cbn; auto. Qed.

(** The float difference of two binary32 values at most [2^-8] apart is
    itself at most [2^-8] in magnitude. *)
Lemma sub_close_spec (x g : float) :
  F32.valid x = true -> F32.valid g = true ->
  is_finite x = true -> is_finite g = true ->
  (Qabs (F2Q x - F2Q g) <= pow2 (-8))%Q ->
  let d := F32.sub x g in
  F32.valid d = true /\ is_finite d = true /\
  (Qabs (F2Q d) <= pow2 (-8))%Q.
Proof.
  intros Vx Vg Fx Fg Hclose. unfold F32.sub.
  change (pow2 (-8)) with (1 # 256)%Q in *.
  destruct x as [sx|sx| |sx mx ex]; try discriminate;
    destruct g as [sg|sg| |sg mg eg]; try discriminate.
  - destruct sx, sg; cbn; repeat split; discriminate.
  - cbn [SFsub]. split; [exact Vg|]. split; [reflexivity|].
    change (F2Q (S754_zero sx)) with 0%Q in Hclose.
    rewrite <- (Qabs_opp (F2Q (S754_finite (negb sg) mg eg))).
    setoid_replace (- F2Q (S754_finite (negb sg) mg eg))%Q
      with (F2Q (S754_finite sg mg eg)).
    + setoid_replace (F2Q (S754_finite sg mg eg))
        with (- (0 - F2Q (S754_finite sg mg eg)))%Q by ring.
      rewrite Qabs_opp. exact Hclose.
    + cbn [F2Q]. destruct sg; cbn [negb cond_Zopp];
        rewrite ?inject_Z_opp; ring.
  - cbn [SFsub]. split; [exact Vx|]. split; [reflexivity|].
    change (F2Q (S754_zero sg)) with 0%Q in Hclose.
    setoid_replace (F2Q (S754_finite sx mx ex))
      with (F2Q (S754_finite sx mx ex) - 0)%Q by ring.
    exact Hclose.
  - pose proof (f32 SFsub_finite_spec sx mx ex sg mg eg) as Hsub.
    set (d := SFsub F32.prec F32.emax (S754_finite sx mx ex)
                (S754_finite sg mg eg)) in *.
    set (v := (F2Q (S754_finite sx mx ex) - F2Q (S754_finite sg mg eg))%Q) in *.
    clearbody v d. apply Qabs_Qle_condition in Hclose.
    destruct Hsub as [[Hz ->]|[[Hpos Hr]|[Hneg Hr]]].
    + cbn. repeat split; discriminate.
    + destruct (f32 rounds_to_elim false v d 1 (-8) (-7) Hr)
        as (q & Fd & Vd & Sd & Ed & [D0 D1] & _);
        try (unfold F32.prec, F32.emax, SpecFloat.emin; lia).
      { change (inject_Z 1 * pow2 (-8))%Q with (1 # 256)%Q. lra. }
      { change (pow2 (-7)) with (1 # 128)%Q. lra. }
      change (F2Q d == q)%Q in Ed.
      change (inject_Z 1 * pow2 (-8))%Q with (1 # 256)%Q in D1.
      repeat split; try assumption.
      rewrite Ed. apply Qabs_Qle_condition. lra.
    + destruct (f32 rounds_to_elim true (- v)%Q d 1 (-8) (-7) Hr)
        as (q & Fd & Vd & Sd & Ed & [D0 D1] & _);
        try (unfold F32.prec, F32.emax, SpecFloat.emin; lia).
      { change (inject_Z 1 * pow2 (-8))%Q with (1 # 256)%Q. lra. }
      { change (pow2 (-7)) with (1 # 128)%Q. lra. }
      change (F2Q d == - q)%Q in Ed.
      change (inject_Z 1 * pow2 (-8))%Q with (1 # 256)%Q in D1.
      repeat split; try assumption.
      rewrite Ed. apply Qabs_Qle_condition. lra.
Qed.

(** [float_eq] accepts two binary32 values at most [2^-8] apart. *)
Lemma float_eq_close (x g : float) :
  F32.valid x = true -> F32.valid g = true ->
  is_finite x = true -> is_finite g = true ->
  (Qabs (F2Q x - F2Q g) <= pow2 (-8))%Q ->
  float_eq x g = true.
Proof.
  intros Vx Vg Fx Fg Hclose.
  destruct (sub_close_spec x g Vx Vg Fx Fg Hclose) as (Vd & Fd & Hd).
  cbv zeta in Vd, Fd, Hd. unfold float_eq.
  destruct (SFabs_valid _ Vd Fd) as [Va Fa].
  apply (f32 SFltb_spec); try assumption; try reflexivity.
  rewrite SFabs_value.
  eapply Qle_lt_trans; [exact Hd|]. vm_compute. reflexivity.
Qed.

(** ** The quantizers on [0, 1] and [pack] on its domain *)

Lemma map_ftou16_spec (u : float) :
  F32.valid u = true -> is_finite u = true -> (0 <= F2Q u <= 1)%Q ->
  exists k, map_ftou16 u = Some k /\ 0 <= k <= 65535 /\
            (Qabs (inject_Z k - 65535 * F2Q u) <= (1 # 2) + (1 # 256))%Q.
Proof.
  intros Hv Hf Hu. unfold map_ftou16.
  exact (quantize_spec u 16776960 (-8) 65535 16 eq_refl eq_refl
           ltac:(lia) ltac:(lia) Hv Hf Hu).
Qed.

Lemma map_ftou15_spec (u : float) :
  F32.valid u = true -> is_finite u = true -> (0 <= F2Q u <= 1)%Q ->
  exists k, map_ftou15 u = Some k /\ 0 <= k <= 32767 /\
            (Qabs (inject_Z k - 32767 * F2Q u) <= (1 # 2) + (1 # 512))%Q.
Proof.
  intros Hv Hf Hu. unfold map_ftou15.
  destruct (quantize_spec u 16776704 (-9) 32767 15 eq_refl eq_refl
              ltac:(lia) ltac:(lia) Hv Hf Hu) as (k & Hk & Hr & He).
  exists k. change f32767 with (S754_finite false 16776704 (-9)).
  rewrite Hk. cbn [option_map]. repeat split; try lia; [|exact He].
  f_equal. change 65535 with (Z.ones 16). rewrite Z.land_ones by lia.
  apply Z.mod_small. lia.
Qed.

(** [pack] on a vector whose x and y are canonical floats of [-1, 1]:
    both quantizers are defined and in range, each code is the nearest
    level to the component (up to float rounding), and the word is the
    sum of the three shifted fields. *)
Lemma pack_in_domain (v : vec3) :
  F32.valid (vx v) = true -> F32.valid (vy v) = true ->
  in_signed_unit (vx v) = true -> in_signed_unit (vy v) = true ->
  exists ux uy,
    map_ftou16 (map_ufnorm (vx v)) = Some ux /\
    map_ftou15 (map_ufnorm (vy v)) = Some uy /\
    0 <= ux <= 65535 /\ 0 <= uy <= 32767 /\
    (Qabs (inject_Z ux - 65535 * ((F2Q (vx v) + 1) * (1 # 2)))
     <= (1 # 2) + (1 # 50))%Q /\
    (Qabs (inject_Z uy - 32767 * ((F2Q (vy v) + 1) * (1 # 2)))
     <= (1 # 2) + (1 # 50))%Q /\
    pack v = Some (ux * 65536 + uy * 2 + (if SFltb (vz v) f0 then 1 else 0)).
Proof.
  intros Vx Vy Ix Iy.
  destruct (map_ufnorm_spec _ Vx Ix) as (Vu & Fu & _ & Ru & Eu).
  destruct (map_ufnorm_spec _ Vy Iy) as (Vw & Fw & _ & Rw & Ew).
  cbv zeta in *.
  destruct (map_ftou16_spec _ Vu Fu Ru) as (ux & Hux & Rx & Ex).
  destruct (map_ftou15_spec _ Vw Fw Rw) as (uy & Huy & Ry & Ey).
  exists ux, uy. repeat split; try assumption; try lia.
  - change (pow2 (-22)) with (1 # 4194304)%Q in Eu.
    apply Qabs_Qle_condition in Eu. apply Qabs_Qle_condition in Ex.
    apply Qabs_Qle_condition. lra.
  - change (pow2 (-22)) with (1 # 4194304)%Q in Ew.
    apply Qabs_Qle_condition in Ew. apply Qabs_Qle_condition in Ey.
    apply Qabs_Qle_condition. lra.
  - unfold pack. rewrite Hux, Huy. f_equal.
    apply assemble_sum; try lia. destruct (SFltb (vz v) f0); lia.
Qed.

Lemma dequant_ok_inv (top : Z) (g : float) (k : Z) :
  dequant_ok top g k = true ->
  in_signed_unit g = true /\ F32.valid g = true /\ is_finite g = true /\
  is_finite (F32.mul g g) = true /\
  (Qabs (F2Q g - inject_Z (2 * k - top) / inject_Z top) <= pow2 (-22))%Q.
Proof.
  unfold dequant_ok. rewrite !andb_true_iff, Qle_bool_iff. tauto.
Qed.

(** A component and the decoding of its code pass [float_eq]. *)
Lemma dequant16_close (x : float) (k : Z) :
  F32.valid x = true -> is_finite x = true -> 0 <= k <= 65535 ->
  (Qabs (inject_Z k - 65535 * ((F2Q x + 1) * (1 # 2))) <= (1 # 2) + (1 # 50))%Q ->
  float_eq x (dequant16 k) = true.
Proof.
  intros Vx Fx Hk Hq.
  destruct (dequant_ok_inv _ _ _ (dequant16_ok k ltac:(lia)))
    as (_ & Vg & Fg & _ & Hg).
  apply float_eq_close; try assumption.
  setoid_replace (inject_Z (2 * k - 65535) / inject_Z 65535)%Q
    with ((2 * inject_Z k - 65535) * (1 # 65535))%Q in Hg
    by (unfold Z.sub; rewrite inject_Z_plus, inject_Z_mult; reflexivity).
  change (pow2 (-22)) with (1 # 4194304)%Q in Hg.
  change (pow2 (-8)) with (1 # 256)%Q.
  apply Qabs_Qle_condition in Hg. apply Qabs_Qle_condition in Hq.
  apply Qabs_Qle_condition. lra.
Qed.

Lemma dequant15_close (x : float) (k : Z) :
  F32.valid x = true -> is_finite x = true -> 0 <= k <= 32767 ->
  (Qabs (inject_Z k - 32767 * ((F2Q x + 1) * (1 # 2))) <= (1 # 2) + (1 # 50))%Q ->
  float_eq x (dequant15 k) = true.
Proof.
  intros Vx Fx Hk Hq.
  destruct (dequant_ok_inv _ _ _ (dequant15_ok k ltac:(lia)))
    as (_ & Vg & Fg & _ & Hg).
  apply float_eq_close; try assumption.
  setoid_replace (inject_Z (2 * k - 32767) / inject_Z 32767)%Q
    with ((2 * inject_Z k - 32767) * (1 # 32767))%Q in Hg
    by (unfold Z.sub; rewrite inject_Z_plus, inject_Z_mult; reflexivity).
  change (pow2 (-22)) with (1 # 4194304)%Q in Hg.
  change (pow2 (-8)) with (1 # 256)%Q.
  apply Qabs_Qle_condition in Hg. apply Qabs_Qle_condition in Hq.
  apply Qabs_Qle_condition. lra.
Qed.

(** ** No NaN out of the rounding kernel *)

Lemma shr_record_of_loc_m (m : Z) (l : location) :
  shr_m (shr_record_of_loc m l) = m.
Proof. destruct l as [|[| |]]; reflexivity. Qed.

Lemma shr_m_nonneg (mrs : shr_record) (e n : Z) :
  0 <= shr_m mrs -> 0 <= shr_m (fst (shr mrs e n)).
Proof.
  intros Hm. destruct n as [|p|p]; cbn [shr fst]; try assumption.
  rewrite shr_iter_m by assumption.
  apply Z.div_pos; [assumption|]. apply Z.pow_pos_nonneg; lia.
Qed.

Section NoNaN.
Variables prec emax : Z.

Lemma shr_fexp_exp (m e : Z) (l : location) :
  SpecFloat.emin prec emax <= snd (shr_fexp prec emax m e l).
Proof.
  unfold shr_fexp, SpecFloat.fexp.
  destruct (Z.max (Zdigits2 m + e - prec) (SpecFloat.emin prec emax) - e)
    as [|p|p] eqn:En; cbn [shr snd]; lia.
Qed.

Lemma finish_round_cases (s : bool) (k e : Z) :
  0 <= k ->
  let r := finish_round prec emax s k e in
  (r = S754_zero s) \/ (r = S754_infinity s) \/
  (exists m e', r = S754_finite s m e' /\ SpecFloat.emin prec emax <= e').
Proof.
  intros Hk r. unfold r, finish_round.
  pose proof (shr_fexp_exp k e loc_Exact) as He.
  unfold shr_fexp in *.
  pose proof (shr_m_nonneg (shr_record_of_loc k loc_Exact) e
                (SpecFloat.fexp prec emax (Zdigits2 k + e) - e)) as Hm.
  rewrite shr_record_of_loc_m in Hm. specialize (Hm Hk).
  destruct (shr (shr_record_of_loc k loc_Exact) e
              (SpecFloat.fexp prec emax (Zdigits2 k + e) - e)) as [mrs e'].
  cbn [fst snd] in *.
  destruct (shr_m mrs) as [|m|m]; [left; reflexivity| |lia].
  destruct (e' <=? emax - prec); [|right; left; reflexivity].
  right. right. exists m, e'. split; [reflexivity|assumption].
Qed.

(** [binary_round_aux] on a non-negative mantissa returns a zero, an
    infinity, or a finite float of exponent at least [emin], with the
    requested sign: never a NaN. *)
Lemma binary_round_aux_cases (s : bool) (m e : Z) (l : location) :
  0 <= m ->
  let r := binary_round_aux prec emax s m e l in
  (r = S754_zero s) \/ (r = S754_infinity s) \/
  (exists m' e', r = S754_finite s m' e' /\ SpecFloat.emin prec emax <= e').
Proof.
  intros Hm r. unfold r. rewrite binary_round_aux_unfold.
  unfold shr_fexp.
  pose proof (shr_m_nonneg (shr_record_of_loc m l) e
                (SpecFloat.fexp prec emax (Zdigits2 m + e) - e)) as Hq.
  rewrite shr_record_of_loc_m in Hq. specialize (Hq Hm).
  destruct (shr (shr_record_of_loc m l) e
              (SpecFloat.fexp prec emax (Zdigits2 m + e) - e)) as [mrs e'].
  cbn [fst] in Hq.
  apply finish_round_cases.
  destruct (round_nearest_even_cases (shr_m mrs) (loc_of_shr_record mrs))
    as [-> | ->]; lia.
Qed.

(** The square root of a float that is not negative is not a NaN and
    is not negative. *)
Lemma SFsqrt_cases (mx : positive) (ex : Z) :
  let r := SFsqrt prec emax (S754_finite false mx ex) in
  (r = S754_zero false) \/ (r = S754_infinity false) \/
  (exists m' e', r = S754_finite false m' e' /\ SpecFloat.emin prec emax <= e').
Proof.
  cbn [SFsqrt]. unfold SFsqrt_core_binary.
  set (m' := match ex - 2 * Z.min _ _ with
             | Z0 => Zpos mx | Zpos _ => Z.shiftl (Zpos mx) _ | Zneg _ => 0
             end).
  pose proof (Z.sqrtrem_sqrt m') as Hs.
  pose proof (Z.sqrt_nonneg m') as Hn.
  destruct (Z.sqrtrem m') as [q r]. cbn [fst] in Hs. subst q.
  apply binary_round_aux_cases. assumption.
Qed.
End NoNaN.

(** ** NaN and sign of the decoded z *)








(** A positive float of exponent at least [emin], multiplied by [1.0f]
    or [-1.0f], is a non-zero float with the sign of the multiplier. *)
Lemma mul_unit_sign (m : positive) (e : Z) (sa : bool) :
  SpecFloat.emin F32.prec F32.emax <= e ->
  let z := F32.mul (S754_finite false m e) (S754_finite sa 8388608 (-23)) in
  SFltb z f0 = sa /\ SFleb f0 z = negb sa.
Proof.
  intros He z. unfold z, F32.mul. cbn [SFmul xorb].
  assert (Hd : Zpos (digits2_pos (m * 8388608)) = Zpos (digits2_pos m) + 23)
    by (apply digits2_pos_shift; [lia|rewrite Pos2Z.inj_mul; reflexivity]).
  pose proof (digits2_pos_bounds m) as [_ _].
  assert (Hpre : e + -23 <= SpecFloat.fexp F32.prec F32.emax
                             (Zpos (digits2_pos (m * 8388608)) + (e + -23))).
  { rewrite Hd. unfold SpecFloat.fexp, F32.prec. lia. }
  destruct (f32 binary_round_aux_spec sa (m * 8388608)%positive (e + -23) Hpre)
    as (k & e1 & Hk & He1 & Hulp & Hdist & Hr).
  set (v := (inject_Z (Zpos (m * 8388608)) * pow2 (e + -23))%Q) in *.
  assert (Hv : (pow2 e <= v)%Q).
  { unfold v. rewrite Pos2Z.inj_mul.
    change (Zpos 8388608) with (2 ^ 23). rewrite pow2_shift by lia.
    replace (23 + (e + -23)) with e by lia.
    setoid_replace (pow2 e) with (inject_Z 1 * pow2 e)%Q at 1 by ring.
    apply Qmult_le_compat_r; [|apply Qlt_le_weak, pow2_pos].
    rewrite <- Zle_Qle. lia. }
  assert (Hvmin : (pow2 (SpecFloat.emin F32.prec F32.emax) <= v)%Q)
    by (eapply Qle_trans; [apply pow2_le; exact He|exact Hv]).
  destruct (binary_round_aux F32.prec F32.emax sa (Zpos (m * 8388608))
              (e + -23) loc_Exact) as [s'|s'| |s' m' e'];
    cbn [round_result] in Hr.
  - (* a zero result is impossible *)
    exfalso. destruct Hr as [_ Hq]. rewrite Hq in Hdist.
    apply Qabs_Qlt_condition in Hdist. destruct Hdist as [Hlo _].
    assert (Hlt : (v < pow2 e1)%Q) by lra.
    destruct Hulp as [-> |Hu]; [lra|].
    assert (pow2 (e1 + F32.prec - 1) < pow2 e1)%Q
      by (eapply Qle_lt_trans; eassumption).
    apply pow2_lt_inv in H. unfold F32.prec in H. lia.
  - destruct Hr as [-> _]. destruct sa; split; reflexivity.
  - contradiction.
  - destruct Hr as [-> _]. destruct sa; split; reflexivity.
Qed.

(** ** The square root *)

Lemma grid_dist_le (k p n E : Z) :
  0 <= n -> Z.abs (k * 2 ^ n - p) <= 2 ^ n ->
  (Qabs (inject_Z k * pow2 (n + E) - inject_Z p * pow2 E) <= pow2 (n + E))%Q.
Proof.
  intros Hn Habs.
  rewrite <- pow2_shift by assumption.
  assert (E1 : (inject_Z (k * 2 ^ n) * pow2 E - inject_Z p * pow2 E
                == inject_Z (k * 2 ^ n - p) * pow2 E)%Q).
  { unfold Z.sub. rewrite inject_Z_plus, inject_Z_opp. ring. }
  rewrite E1, pow2_add, Qabs_Qmult, (Qabs_pos (pow2 E))
    by apply Qlt_le_weak, pow2_pos.
  apply Qmult_le_compat_r; [|apply Qlt_le_weak, pow2_pos].
  rewrite pow2_Z by assumption.
  change (Qabs (inject_Z (k * 2 ^ n - p))) with (inject_Z (Z.abs (k * 2 ^ n - p))).
  rewrite <- Zle_Qle. assumption.
Qed.

Lemma pow2_le_inv (a b : Z) : (pow2 a <= pow2 b)%Q -> a <= b.
Proof. intros H. apply (Qpower_le_compat_l_inv 2); [assumption|]. reflexivity. Qed.

(** The integer square root halves the number of digits. *)
Lemma digits2_pos_sqrt (n q : positive) :
  Zpos q = Z.sqrt (Zpos n) ->
  Zpos (digits2_pos q) = Z.div2 (Zpos (digits2_pos n) + 1).
Proof.
  intros Hq. pose proof (digits2_pos_bounds n) as [Dl Du].
  set (d := Zpos (digits2_pos n)) in *.
  set (h := Z.div2 (d + 1)).
  assert (Hh : 2 * h <= d + 1 <= 2 * h + 1).
  { unfold h. rewrite Z.div2_div.
    pose proof (Z.div_mod (d + 1) 2 ltac:(lia)).
    pose proof (Z.mod_pos_bound (d + 1) 2 ltac:(lia)). lia. }
  assert (Hd : 0 < d) by (unfold d; lia).
  apply digits2_pos_unique. rewrite Hq. split.
  - apply Z.sqrt_le_square; [lia|apply Z.lt_le_incl, Z.pow_pos_nonneg; lia|].
    rewrite <- Z.pow_add_r by lia.
    apply Z.le_trans with (2 ^ (d - 1)); [|assumption].
    apply Z.pow_le_mono_r; lia.
  - apply Z.sqrt_lt_square; [lia|apply Z.lt_le_incl, Z.pow_pos_nonneg; lia|].
    rewrite <- Z.pow_add_r by lia.
    apply Z.lt_le_trans with (2 ^ d); [assumption|].
    apply Z.pow_le_mono_r; lia.
Qed.

Section Sqrt.
Variables prec emax : Z.
Hypothesis prec_gt_0 : 0 < prec.
Hypothesis prec_lt_emax : prec < emax.
Local Set Default Proof Using "prec_gt_0 prec_lt_emax".

Local Abbreviation emin := (SpecFloat.emin prec emax).
Local Abbreviation fexp := (SpecFloat.fexp prec emax).

(** [binary_round_aux] on a pre-aligned positive mantissa with any
    location of the discarded part. *)
Lemma binary_round_aux_loc_spec (s : bool) (p : positive) (E : Z) (l : location) :
  E <= fexp (Zpos (digits2_pos p) + E) ->
  rounds_near prec emax s (inject_Z (Zpos p) * pow2 E)%Q
    (binary_round_aux prec emax s (Zpos p) E l).
Proof.
  intros Hpre.
  pose proof (digits2_pos_bounds p) as [Dl Du].
  set (d := Zpos (digits2_pos p)) in *.
  set (e1 := fexp (d + E)) in *.
  assert (He1 : e1 = Z.max (d + E - prec) emin) by reflexivity.
  assert (Hulp : e1 = emin \/
                 (pow2 (e1 + prec - 1) <= inject_Z (Zpos p) * pow2 E)%Q).
  { destruct (Z.eq_dec e1 emin) as [|Hne]; [left; assumption|right].
    replace (e1 + prec - 1) with ((d - 1) + E) by lia.
    rewrite pow2_add, pow2_Z by lia.
    apply Qmult_le_compat_r; [|apply Qlt_le_weak, pow2_pos].
    rewrite <- Zle_Qle. assumption. }
  rewrite binary_round_aux_unfold. unfold shr_fexp.
  cbn [Zdigits2]. fold d. fold (fexp (d + E)). fold e1.
  assert (Hemin1 : emin <= e1) by (unfold e1; apply fexp_ge_emin; assumption).
  clearbody e1.
  assert (Hp2 : Zpos p < 2 ^ prec \/ 0 < e1 - E).
  { destruct (Z.lt_ge_cases 0 (e1 - E)); [right; assumption|left].
    apply Z.lt_le_trans with (2 ^ d); [assumption|].
    apply Z.pow_le_mono_r; lia. }
  destruct (e1 - E) as [|n|n] eqn:En; [| |lia].
  - (* already aligned *)
    cbn [shr]. rewrite shr_record_of_loc_m.
    assert (E = e1) by lia. subst E.
    set (k := round_nearest_even (Zpos p) _).
    assert (Hk : k = Zpos p \/ k = Zpos p + 1)
      by apply round_nearest_even_cases.
    exists k, e1. repeat split.
    + lia.
    + exact Hemin1.
    + exact Hulp.
    + replace e1 with (0 + e1) at 1 3 by lia.
      apply grid_dist_le; [lia|]. change (2 ^ 0) with 1. lia.
    + apply finish_round_spec; try assumption.
      * destruct Hp2; lia.
      * destruct (Z.eq_dec e1 emin); [left; assumption|right].
        replace (prec - 1) with (d - 1) by lia. lia.
  - cbn [shr].
    assert (Hn : e1 = Zpos n + E) by lia.
    assert (H2n : 0 < 2 ^ Zpos n) by (apply Z.pow_pos_nonneg; lia).
    set (mrs := iter_pos shr_1 n (shr_record_of_loc (Zpos p) l)).
    assert (Hq : shr_m mrs = Zpos p / 2 ^ Zpos n).
    { unfold mrs. rewrite shr_iter_m; rewrite shr_record_of_loc_m; [reflexivity|lia]. }
    set (q := Zpos p / 2 ^ Zpos n) in *.
    pose proof (Z.div_mod (Zpos p) (2 ^ Zpos n) ltac:(lia)) as Hdm.
    pose proof (Z.mod_pos_bound (Zpos p) (2 ^ Zpos n) H2n) as Hmod.
    fold q in Hdm.
    assert (Hq0 : 0 <= q) by (apply Z.div_pos; lia).
    assert (Hqtop : q < 2 ^ prec).
    { apply Z.div_lt_upper_bound; [assumption|].
      apply Z.lt_le_trans with (2 ^ d); [assumption|].
      rewrite <- Z.pow_add_r by lia. apply Z.pow_le_mono_r; lia. }
    set (k := round_nearest_even (shr_m mrs) (loc_of_shr_record mrs)).
    assert (Hk : k = q \/ k = q + 1)
      by (unfold k; rewrite <- Hq; apply round_nearest_even_cases).
    replace (E + Zpos n) with e1 by lia.
    exists k, e1. repeat split.
    + lia.
    + exact Hemin1.
    + exact Hulp.
    + rewrite Hn. apply grid_dist_le; [lia|].
      destruct Hk as [-> | ->]; lia.
    + apply finish_round_spec; try assumption.
      * lia.
      * destruct (Z.eq_dec e1 emin); [left; assumption|right].
        apply Z.le_trans with q; [|lia].
        apply Z.div_le_lower_bound; [assumption|].
        replace (2 ^ Zpos n * 2 ^ (prec - 1)) with (2 ^ (d - 1)); [assumption|].
        rewrite <- Z.pow_add_r by lia. f_equal. lia.
Qed.
End Sqrt.

Section SqrtSpec.
Variables prec emax : Z.
Hypothesis prec_gt_0 : 0 < prec.
Hypothesis prec_lt_emax : prec < emax.
Local Set Default Proof Using "prec_gt_0 prec_lt_emax".

(** The square root of a positive float: the kernel computes the integer
    square root [q] of the mantissa aligned to an even exponent [2e'],
    and rounds [q * 2^e']. *)
Lemma SFsqrt_spec (mx : positive) (ex : Z) :
  exists (q : positive) (e' : Z),
    let sigma := (inject_Z (Zpos q) * pow2 e')%Q in
    let v := (inject_Z (Zpos mx) * pow2 ex)%Q in
    (sigma * sigma <= v)%Q /\
    (v < (sigma + pow2 e') * (sigma + pow2 e'))%Q /\
    e' <= SpecFloat.fexp prec emax (Zpos (digits2_pos q) + e') /\
    rounds_near prec emax false sigma
      (SFsqrt prec emax (S754_finite false mx ex)).
Proof.
  cbn [SFsqrt]. unfold SFsqrt_core_binary. cbn [Zdigits2].
  set (d := Zpos (digits2_pos mx)).
  set (e' := Z.min (SpecFloat.fexp prec emax (Z.div2 (d + ex + 1))) (Z.div2 ex)).
  assert (He' : 2 * e' <= ex).
  { assert (2 * Z.div2 ex <= ex).
    { rewrite Z.div2_div. pose proof (Z.div_mod ex 2 ltac:(lia)).
      pose proof (Z.mod_pos_bound ex 2 ltac:(lia)). lia. }
    unfold e'. lia. }
  set (s := ex - 2 * e').
  set (m' := match s with
             | Z0 => Zpos mx | Zpos _ => Z.shiftl (Zpos mx) s | Zneg _ => 0
             end).
  assert (Hm' : m' = Zpos mx * 2 ^ s).
  { unfold m'. destruct s as [|ps|ps] eqn:Es; [simpl; lia| |lia].
    rewrite Z.shiftl_mul_pow2 by lia. reflexivity. }
  assert (H2s : 0 < 2 ^ s) by (apply Z.pow_pos_nonneg; unfold s; lia).
  assert (Hm'pos : 0 < m') by (rewrite Hm'; lia).
  clearbody m'.
  pose proof (Z.sqrtrem_spec m' ltac:(lia)) as Hspec.
  pose proof (Z.sqrtrem_sqrt m') as Hsq.
  destruct (Z.sqrtrem m') as [q r]. cbn [fst] in Hsq.
  destruct Hspec as [Hmq Hr].
  assert (Hqpos : 0 < q) by nia.
  destruct q as [|qp|qp]; try lia.
  destruct m' as [|mp|mp]; try lia.
  assert (Hdq : Zpos (digits2_pos qp) = Z.div2 (Zpos (digits2_pos mp) + 1))
    by (apply digits2_pos_sqrt; assumption).
  assert (Hdm : Zpos (digits2_pos mp) = d + s)
    by (apply (digits2_pos_shift mx mp s); unfold s; [lia|assumption]).
  assert (Hde : Zpos (digits2_pos qp) + e' = Z.div2 (d + ex + 1)).
  { rewrite Hdq, Hdm, !Z.div2_div.
    replace (d + ex + 1) with (d + s + 1 + e' * 2) by (unfold s; lia).
    rewrite Z.div_add by lia. reflexivity. }
  assert (Hpre : e' <= SpecFloat.fexp prec emax (Zpos (digits2_pos qp) + e')).
  { rewrite Hde. unfold e'. lia. }
  exists qp, e'. cbv zeta.
  assert (Hv : (inject_Z (Zpos mx) * pow2 ex
                == inject_Z (Zpos mp) * (pow2 e' * pow2 e'))%Q).
  { rewrite Hm', <- pow2_add, pow2_shift by (unfold s; lia).
    replace (s + (e' + e')) with ex by (unfold s; lia). reflexivity. }
  pose proof (pow2_pos e') as Pe.
  assert (Pee : (0 < pow2 e' * pow2 e')%Q) by (apply Qmult_lt_0_compat; assumption).
  repeat split.
  - rewrite Hv.
    setoid_replace (inject_Z (Zpos qp) * pow2 e' * (inject_Z (Zpos qp) * pow2 e'))%Q
      with (inject_Z (Zpos qp * Zpos qp) * (pow2 e' * pow2 e'))%Q
      by (rewrite inject_Z_mult; ring).
    apply Qmult_le_compat_r; [|apply Qlt_le_weak; assumption].
    rewrite <- Zle_Qle. lia.
  - rewrite Hv.
    setoid_replace ((inject_Z (Zpos qp) * pow2 e' + pow2 e')
                    * (inject_Z (Zpos qp) * pow2 e' + pow2 e'))%Q
      with (inject_Z ((Zpos qp + 1) * (Zpos qp + 1)) * (pow2 e' * pow2 e'))%Q
      by (rewrite inject_Z_mult, inject_Z_plus; change (inject_Z 1) with 1%Q; ring).
    apply Qmult_lt_compat_r; [assumption|].
    rewrite <- Zlt_Qlt. lia.
  - exact Hpre.
  - apply binary_round_aux_loc_spec; assumption.
Qed.
End SqrtSpec.

(** ** Values of the binary32 operations of [unpack] *)

Lemma F2Q_finite (s : bool) (m : positive) (e : Z) :
  (F2Q (S754_finite s m e)
   == if s then - (inject_Z (Zpos m) * pow2 e) else inject_Z (Zpos m) * pow2 e)%Q.
Proof.
  cbn [F2Q]. destruct s; cbn [cond_Zopp]; [|reflexivity].
  rewrite inject_Z_opp. ring.
Qed.

(** The float square of a value of [-1, 1]. *)
Lemma f32_square_value (a : float) :
  F32.valid a = true -> is_finite a = true -> (Qabs (F2Q a) <= 1)%Q ->
  let r := F32.mul a a in
  F32.valid r = true /\ is_finite r = true /\ (0 <= F2Q r)%Q /\
  (Qabs (F2Q r - F2Q a * F2Q a) < pow2 (-23))%Q.
Proof.
  intros Va Fa Ha. unfold F32.mul.
  destruct a as [s|s| |s m e]; try discriminate.
  - cbn. repeat split; discriminate.
  - pose proof (f32 SFmul_finite_spec s m e s m e Va Va) as Hmul.
    rewrite xorb_nilpotent in Hmul.
    set (r := SFmul F32.prec F32.emax (S754_finite s m e) (S754_finite s m e)) in *.
    pose proof (finite_mag_pos m e) as Pm.
    assert (Hsq : (F2Q (S754_finite s m e) * F2Q (S754_finite s m e)
                   == inject_Z (Zpos m) * pow2 e * (inject_Z (Zpos m) * pow2 e))%Q)
      by (rewrite F2Q_finite; destruct s; ring).
    assert (Hm1 : (inject_Z (Zpos m) * pow2 e <= 1)%Q).
    { rewrite F2Q_finite in Ha. destruct s.
      - rewrite Qabs_opp, Qabs_pos in Ha by lra. exact Ha.
      - rewrite Qabs_pos in Ha by lra. exact Ha. }
    set (M := (inject_Z (Zpos m) * pow2 e)%Q) in *.
    destruct (f32 rounds_to_elim false (M * M)%Q r 1 0 1 Hmul)
      as (q & Fr & Vr & Sr & Er & [Q0 Q1] & D);
      try (unfold F32.prec, F32.emax, SpecFloat.emin; lia).
    { change (inject_Z 1 * pow2 0)%Q with 1%Q. nra. }
    { change (pow2 1) with 2%Q. nra. }
    change (F2Q r == q)%Q in Er.
    repeat split; try assumption.
    + rewrite Er. assumption.
    + rewrite Er, Hsq. exact D.
Qed.

(** Float addition and subtraction: the exact result, rounded. *)
Lemma f32_add_value (a b : float) (jj : Z) :
  F32.valid a = true -> is_finite a = true ->
  F32.valid b = true -> is_finite b = true ->
  (Qabs (F2Q a + F2Q b) < pow2 jj)%Q -> -125 <= jj <= 104 ->
  let r := F32.add a b in
  F32.valid r = true /\ is_finite r = true /\
  (Qabs (F2Q r - (F2Q a + F2Q b)) < pow2 (jj - 24))%Q.
Proof.
  intros Va Fa Vb Fb Hv Hjj. unfold F32.add.
  pose proof (pow2_pos (jj - 24)) as Pj.
  assert (Z0 : forall x, (Qabs (x - x) < pow2 (jj - 24))%Q).
  { intros x. setoid_replace (x - x)%Q with 0%Q by ring. exact Pj. }
  destruct a as [sa|sa| |sa ma ea]; try discriminate;
    destruct b as [sb|sb| |sb mb eb]; try discriminate.
  - destruct sa, sb; cbn; repeat split; exact Pj.
  - cbn [SFadd]. repeat split; try assumption.
    setoid_replace (F2Q (S754_zero sa) + F2Q (S754_finite sb mb eb))%Q
      with (F2Q (S754_finite sb mb eb)) by (cbn [F2Q]; ring).
    apply Z0.
  - cbn [SFadd]. repeat split; try assumption.
    setoid_replace (F2Q (S754_finite sa ma ea) + F2Q (S754_zero sb))%Q
      with (F2Q (S754_finite sa ma ea)) by (cbn [F2Q]; ring).
    apply Z0.
  - pose proof (f32 SFadd_finite_spec sa ma ea sb mb eb) as Hadd.
    set (r := SFadd F32.prec F32.emax _ _) in *.
    set (v := (F2Q (S754_finite sa ma ea) + F2Q (S754_finite sb mb eb))%Q) in *.
    clearbody v r. apply Qabs_Qlt_condition in Hv.
    destruct Hadd as [[Hz ->]|[[Hpos Hr]|[Hneg Hr]]].
    + cbn [F2Q]. repeat split.
      setoid_replace (0 - v)%Q with 0%Q by (rewrite Hz; ring). exact Pj.
    + destruct (f32 rounds_to_elim false v r 1 jj jj Hr)
        as (q & Fr & Vr & Sr & Er & _ & D);
        try (unfold F32.prec, F32.emax, SpecFloat.emin; lia); try lra;
        try (change (inject_Z 1) with 1%Q; lra).
      change (F2Q r == q)%Q in Er.
      repeat split; try assumption. rewrite Er. exact D.
    + destruct (f32 rounds_to_elim true (- v)%Q r 1 jj jj Hr)
        as (q & Fr & Vr & Sr & Er & _ & D);
        try (unfold F32.prec, F32.emax, SpecFloat.emin; lia); try lra;
        try (change (inject_Z 1) with 1%Q; lra).
      change (F2Q r == - q)%Q in Er.
      repeat split; try assumption. rewrite Er.
      setoid_replace (- q - v)%Q with (- (q - - v))%Q by ring.
      rewrite Qabs_opp. exact D.
Qed.

Lemma f32_sub_value (a b : float) (jj : Z) :
  F32.valid a = true -> is_finite a = true ->
  F32.valid b = true -> is_finite b = true ->
  (Qabs (F2Q a - F2Q b) < pow2 jj)%Q -> -125 <= jj <= 104 ->
  let r := F32.sub a b in
  F32.valid r = true /\ is_finite r = true /\
  (Qabs (F2Q r - (F2Q a - F2Q b)) < pow2 (jj - 24))%Q.
Proof.
  intros Va Fa Vb Fb Hv Hjj. unfold F32.sub.
  pose proof (pow2_pos (jj - 24)) as Pj.
  assert (Z0 : forall x y, (x == y)%Q -> (Qabs (x - y) < pow2 (jj - 24))%Q).
  { intros x y E. setoid_replace (x - y)%Q with 0%Q by (rewrite E; ring). exact Pj. }
  destruct a as [sa|sa| |sa ma ea]; try discriminate;
    destruct b as [sb|sb| |sb mb eb]; try discriminate.
  - destruct sa, sb; cbn; repeat split; exact Pj.
  - cbn [SFsub]. repeat split; try assumption.
    apply Z0. rewrite !F2Q_finite. cbn [F2Q]. destruct sb; cbn [negb]; ring.
  - cbn [SFsub]. repeat split; try assumption.
    apply Z0. cbn [F2Q]. ring.
  - pose proof (f32 SFsub_finite_spec sa ma ea sb mb eb) as Hsub.
    set (r := SFsub F32.prec F32.emax _ _) in *.
    set (v := (F2Q (S754_finite sa ma ea) - F2Q (S754_finite sb mb eb))%Q) in *.
    clearbody v r. apply Qabs_Qlt_condition in Hv.
    destruct Hsub as [[Hz ->]|[[Hpos Hr]|[Hneg Hr]]].
    + cbn [F2Q]. repeat split.
      setoid_replace (0 - v)%Q with 0%Q by (rewrite Hz; ring). exact Pj.
    + destruct (f32 rounds_to_elim false v r 1 jj jj Hr)
        as (q & Fr & Vr & Sr & Er & _ & D);
        try (unfold F32.prec, F32.emax, SpecFloat.emin; lia); try lra;
        try (change (inject_Z 1) with 1%Q; lra).
      change (F2Q r == q)%Q in Er.
      repeat split; try assumption. rewrite Er. exact D.
    + destruct (f32 rounds_to_elim true (- v)%Q r 1 jj jj Hr)
        as (q & Fr & Vr & Sr & Er & _ & D);
        try (unfold F32.prec, F32.emax, SpecFloat.emin; lia); try lra;
        try (change (inject_Z 1) with 1%Q; lra).
      change (F2Q r == - q)%Q in Er.
      repeat split; try assumption. rewrite Er.
      setoid_replace (- q - v)%Q with (- (q - - v))%Q by ring.
      rewrite Qabs_opp. exact D.
Qed.

(** The radicand of [unpack], for decoded x and y in [-1, 1]. *)
Lemma radicand_value (gx gy : float) :
  F32.valid gx = true -> is_finite gx = true -> (Qabs (F2Q gx) <= 1)%Q ->
  F32.valid gy = true -> is_finite gy = true -> (Qabs (F2Q gy) <= 1)%Q ->
  let r := radicand gx gy in
  F32.valid r = true /\ is_finite r = true /\
  (Qabs (F2Q r - (1 - F2Q gx * F2Q gx - F2Q gy * F2Q gy)) < pow2 (-20))%Q.
Proof.
  intros Vx Fx Hx Vy Fy Hy. unfold radicand.
  destruct (f32_square_value gx Vx Fx Hx) as (Vsx & Fsx & Psx & Dsx).
  destruct (f32_square_value gy Vy Fy Hy) as (Vsy & Fsy & Psy & Dsy).
  cbv zeta in *.
  set (sx := F32.mul gx gx) in *. set (sy := F32.mul gy gy) in *.
  set (a := F2Q gx) in *. set (b := F2Q gy) in *.
  change (pow2 (-23)) with (1 # 8388608)%Q in *.
  apply Qabs_Qlt_condition in Dsx. apply Qabs_Qlt_condition in Dsy.
  apply Qabs_Qle_condition in Hx. apply Qabs_Qle_condition in Hy.
  assert (Ha2 : (0 <= a * a <= 1)%Q) by nra.
  assert (Hb2 : (0 <= b * b <= 1)%Q) by nra.
  destruct (f32_add_value sx sy 2 Vsx Fsx Vsy Fsy) as (Vs & Fs & Ds);
    [apply Qabs_Qlt_condition; change (pow2 2) with 4%Q; lra|lia|].
  cbv zeta in *. set (s := F32.add sx sy) in *.
  change (pow2 (2 - 24)) with (1 # 4194304)%Q in Ds.
  apply Qabs_Qlt_condition in Ds.
  assert (E1 : (F2Q f1 == 1)%Q) by reflexivity.
  destruct (f32_sub_value f1 s 1 eq_refl eq_refl Vs Fs) as (Vr & Fr & Dr);
    [apply Qabs_Qlt_condition; rewrite E1; change (pow2 1) with 2%Q; lra|lia|].
  cbv zeta in *. set (r := F32.sub f1 s) in *.
  change (pow2 (1 - 24)) with (1 # 8388608)%Q in Dr.
  rewrite E1 in Dr. apply Qabs_Qlt_condition in Dr.
  repeat split; try assumption.
  apply Qabs_Qlt_condition. change (pow2 (-20)) with (1 # 1048576)%Q. lra.
Qed.

(** The float square root of a positive float of at most 2 is within
    [2^-22] of a rational [sigma] with
    [sigma^2 <= r < (sigma + 2^-22)^2]. *)
Lemma f32_sqrt_value (mx : positive) (ex : Z) :
  (F2Q (S754_finite false mx ex) <= 2)%Q ->
  let m := F32.sqrt (S754_finite false mx ex) in
  is_finite m = true /\ sign_bit m = false /\ (F2Q m <= 3)%Q /\
  exists sigma : Q,
    (0 <= sigma)%Q /\
    (sigma * sigma <= F2Q (S754_finite false mx ex))%Q /\
    (F2Q (S754_finite false mx ex)
     < (sigma + pow2 (-22)) * (sigma + pow2 (-22)))%Q /\
    (Qabs (F2Q m - sigma) <= pow2 (-22))%Q.
Proof.
  intros Hv. cbn [F2Q cond_Zopp] in *. unfold F32.sqrt.
  destruct (f32 SFsqrt_spec mx ex) as (q & e' & Hlo & Hhi & Hpre & Hr).
  cbv zeta in *.
  set (v := (inject_Z (Zpos mx) * pow2 ex)%Q) in *.
  set (sigma := (inject_Z (Zpos q) * pow2 e')%Q) in *.
  set (m := SFsqrt F32.prec F32.emax (S754_finite false mx ex)) in *.
  pose proof (finite_mag_pos q e') as Ps. fold sigma in Ps.
  assert (Hs2 : (sigma < 2)%Q) by nra.
  pose proof (pow2_pos e') as Pe.
  (* the working exponent is small *)
  assert (He' : e' <= -23).
  { pose proof (digits2_pos_bounds q) as [Dl _].
    unfold SpecFloat.fexp, SpecFloat.emin, F32.prec, F32.emax in Hpre.
    destruct (Z.le_gt_cases e' (-23)) as [|Hgt]; [assumption|exfalso].
    assert (Hd : 24 <= Zpos (digits2_pos q)) by lia.
    assert (H23 : 2 ^ 23 <= Zpos q).
    { eapply Z.le_trans; [|exact Dl]. apply Z.pow_le_mono_r; lia. }
    assert (pow2 (23 + e') <= sigma)%Q.
    { unfold sigma. rewrite pow2_add, (pow2_Z 23) by lia.
      apply Qmult_le_compat_r; [|lra]. rewrite <- Zle_Qle. assumption. }
    assert (pow2 (23 + e') < pow2 1)%Q by (change (pow2 1) with 2%Q; lra).
    apply pow2_lt_inv in H0. lia. }
  assert (Pe22 : (pow2 e' <= pow2 (-22))%Q) by (apply pow2_le; lia).
  destruct Hr as (k & e1 & Hk & He1 & Hulp & Hd & Hres).
  assert (He1' : e1 <= -22).
  { destruct Hulp as [-> |Hu]; [unfold SpecFloat.emin, F32.prec, F32.emax; lia|].
    assert (pow2 (e1 + F32.prec - 1) < pow2 1)%Q by (change (pow2 1) with 2%Q; lra).
    apply pow2_lt_inv in H. unfold F32.prec in H. lia. }
  assert (P1 : (pow2 e1 <= pow2 (-22))%Q) by (apply pow2_le; lia).
  pose proof (pow2_pos e1) as P1'.
  set (kq := (inject_Z k * pow2 e1)%Q) in *.
  assert (Hkq : (0 <= kq)%Q).
  { unfold kq. apply Qmult_le_0_compat; [|lra].
    change 0%Q with (inject_Z 0). rewrite <- Zle_Qle. assumption. }
  change (pow2 (-22)) with (1 # 4194304)%Q in *.
  apply Qabs_Qle_condition in Hd.
  assert (Hm : is_finite m = true /\ sign_bit m = false /\ (F2Q m == kq)%Q).
  { clearbody m. destruct m as [s'|s'| |s' m' em]; cbn [round_result] in Hres.
    - destruct Hres as [-> Hz]. repeat split. cbn [F2Q]. symmetry. exact Hz.
    - exfalso. destruct Hres as [_ Hinf].
      assert (pow2 F32.emax <= 3)%Q by lra. revert H. vm_compute. intros H.
      apply H. reflexivity.
    - contradiction.
    - destruct Hres as (-> & _ & Hval). repeat split. exact Hval. }
  destruct Hm as (Fm & Sm & Em). repeat split; try assumption.
  - rewrite Em. lra.
  - exists sigma. repeat split; try lra.
    + eapply Qlt_le_trans; [exact Hhi|]. nra.
    + rewrite Em. apply Qabs_Qle_condition. lra.
Qed.

(** Multiplying a non-negative float of at most 3 by [1.0f] or [-1.0f]:
    the magnitude is kept up to [2^-21], the sign is the multiplier's. *)
Lemma mul_unit_value (m : float) (sa : bool) :
  is_finite m = true -> sign_bit m = false -> (F2Q m <= 3)%Q ->
  let z := F32.mul m (S754_finite sa 8388608 (-23)) in
  F32.valid z = true /\ is_finite z = true /\
  exists q : Q,
    (F2Q z == if sa then - q else q)%Q /\ (0 <= q)%Q /\
    (Qabs (q - F2Q m) < pow2 (-21))%Q.
Proof.
  intros Fm Sm Hm3. unfold F32.mul.
  destruct m as [s|s| |s mm em]; try discriminate; cbn [sign_bit] in Sm; subst s.
  - cbn [SFmul xorb]. repeat split. exists 0%Q. cbn [F2Q].
    repeat split; try (destruct sa; reflexivity); discriminate.
  - cbn [SFmul xorb F2Q cond_Zopp] in *.
    assert (Hd : Zpos (digits2_pos (mm * 8388608)) = Zpos (digits2_pos mm) + 23)
      by (apply digits2_pos_shift; [lia|rewrite Pos2Z.inj_mul; reflexivity]).
    assert (Hpre : em + -23 <= SpecFloat.fexp F32.prec F32.emax
                                 (Zpos (digits2_pos (mm * 8388608)) + (em + -23))).
    { rewrite Hd. unfold SpecFloat.fexp, F32.prec. lia. }
    pose proof (f32 binary_round_aux_spec sa (mm * 8388608)%positive
                  (em + -23) Hpre) as Hr.
    apply rounds_to_ext with (v' := (inject_Z (Zpos mm) * pow2 em)%Q) in Hr.
    2:{ rewrite Pos2Z.inj_mul. change (Zpos 8388608) with (2 ^ 23).
        rewrite pow2_shift by lia. replace (23 + (em + -23)) with em by lia.
        reflexivity. }
    set (v := (inject_Z (Zpos mm) * pow2 em)%Q) in *.
    set (z := binary_round_aux _ _ _ _ _ _) in *.
    destruct (f32 rounds_to_elim sa v z 3 0 3 Hr)
      as (q & Fz & Vz & Sz & Ez & [Q0 Q1] & D);
      try (unfold F32.prec, F32.emax, SpecFloat.emin; lia).
    { change (inject_Z 3 * pow2 0)%Q with 3%Q. assumption. }
    { change (pow2 3) with 8%Q. lra. }
    repeat split; try assumption.
    exists q. repeat split; assumption.
Qed.

(** ** The decoded z of a unit vector away from the equator *)

(** The decoding of a code is close to the component it encodes. *)
Lemma dequant16_dist (x : float) (k : Z) :
  0 <= k <= 65535 ->
  (Qabs (inject_Z k - 65535 * ((F2Q x + 1) * (1 # 2))) <= (1 # 2) + (1 # 50))%Q ->
  let g := dequant16 k in
  F32.valid g = true /\ is_finite g = true /\ (Qabs (F2Q g) <= 1)%Q /\
  (Qabs (F2Q g - F2Q x) <= 1 # 60000)%Q.
Proof.
  intros Hk Hq.
  destruct (dequant_ok_inv _ _ _ (dequant16_ok k ltac:(lia)))
    as (Ig & Vg & Fg & _ & Hg).
  destruct (in_signed_unit_inv _ Vg Ig) as [_ Rg].
  repeat split; try assumption.
  - apply Qabs_Qle_condition. exact Rg.
  - setoid_replace (inject_Z (2 * k - 65535) / inject_Z 65535)%Q
      with ((2 * inject_Z k - 65535) * (1 # 65535))%Q in Hg
      by (unfold Z.sub; rewrite inject_Z_plus, inject_Z_mult; reflexivity).
    change (pow2 (-22)) with (1 # 4194304)%Q in Hg.
    apply Qabs_Qle_condition in Hg. apply Qabs_Qle_condition in Hq.
    apply Qabs_Qle_condition. lra.
Qed.

Lemma dequant15_dist (x : float) (k : Z) :
  0 <= k <= 32767 ->
  (Qabs (inject_Z k - 32767 * ((F2Q x + 1) * (1 # 2))) <= (1 # 2) + (1 # 50))%Q ->
  let g := dequant15 k in
  F32.valid g = true /\ is_finite g = true /\ (Qabs (F2Q g) <= 1)%Q /\
  (Qabs (F2Q g - F2Q x) <= 1 # 30000)%Q.
Proof.
  intros Hk Hq.
  destruct (dequant_ok_inv _ _ _ (dequant15_ok k ltac:(lia)))
    as (Ig & Vg & Fg & _ & Hg).
  destruct (in_signed_unit_inv _ Vg Ig) as [_ Rg].
  repeat split; try assumption.
  - apply Qabs_Qle_condition. exact Rg.
  - setoid_replace (inject_Z (2 * k - 32767) / inject_Z 32767)%Q
      with ((2 * inject_Z k - 32767) * (1 # 32767))%Q in Hg
      by (unfold Z.sub; rewrite inject_Z_plus, inject_Z_mult; reflexivity).
    change (pow2 (-22)) with (1 # 4194304)%Q in Hg.
    apply Qabs_Qle_condition in Hg. apply Qabs_Qle_condition in Hq.
    apply Qabs_Qle_condition. lra.
Qed.

(** A rational whose square is within [D] of [C^2], [C >= 1/32], is
    within [32 D] of [C]. *)
Lemma sqrt_bracket (sigma C D eps : Q) :
  (0 <= sigma)%Q -> (1 # 32 <= C)%Q -> (0 <= D)%Q -> (0 <= eps)%Q ->
  (sigma * sigma <= C * C + D)%Q ->
  (C * C - D < (sigma + eps) * (sigma + eps))%Q ->
  (- (32 * D) - eps <= sigma - C <= 32 * D)%Q.
Proof.
  intros Hs HC HD He Hup Hlo. split.
  - destruct (Qlt_le_dec (sigma + eps) C) as [Hlt|Hge]; [|lra].
    assert ((C - (sigma + eps)) * (1 # 32) <= D)%Q by nra. lra.
  - destruct (Qlt_le_dec C sigma) as [Hlt|Hge]; [|lra].
    assert ((sigma - C) * (1 # 32) <= D)%Q by nra. lra.
Qed.

Lemma positive_float_form (r : float) :
  is_finite r = true -> (0 < F2Q r)%Q ->
  exists m e, r = S754_finite false m e.
Proof.
  intros Fr Hr. destruct r as [s|s| |s m e]; try discriminate.
  destruct s; [|eauto]. exfalso.
  rewrite F2Q_finite in Hr. pose proof (finite_mag_pos m e). lra.
Qed.

(** The z that [unpack] rebuilds from decoded [gx], [gy] close to the x
    and y of a unit vector with [|z| >= 1/32], with the sign of [z]. *)
Lemma rebuilt_z_close (x y z gx gy : float) :
  F32.valid z = true -> is_finite z = true ->
  (Qabs (F2Q x) <= 1)%Q -> (Qabs (F2Q y) <= 1)%Q ->
  unit_length (mkvec3 x y z) -> (1 # 32 <= Qabs (F2Q z))%Q ->
  F32.valid gx = true -> is_finite gx = true -> (Qabs (F2Q gx) <= 1)%Q ->
  F32.valid gy = true -> is_finite gy = true -> (Qabs (F2Q gy) <= 1)%Q ->
  (Qabs (F2Q gx - F2Q x) <= 1 # 60000)%Q ->
  (Qabs (F2Q gy - F2Q y) <= 1 # 30000)%Q ->
  float_eq z (F32.mul (F32.sqrt (radicand gx gy))
                (if SFltb z f0 then fm1 else f1)) = true.
Proof.
  intros Vz Fz Hx Hy Hunit Hz Vgx Fgx Hgx Vgy Fgy Hgy Dx Dy.
  destruct (radicand_value gx gy Vgx Fgx Hgx Vgy Fgy Hgy) as (Vr & Fr & Dr).
  cbv zeta in *. set (r := radicand gx gy) in *.
  unfold unit_length, sq_norm in Hunit. cbn [vx vy vz] in Hunit.
  set (a := F2Q x) in *. set (b := F2Q y) in *. set (c := F2Q z) in *.
  set (ga := F2Q gx) in *. set (gb := F2Q gy) in *. set (rho := F2Q r) in *.
  change (pow2 (-20)) with (1 # 1048576)%Q in *.
  apply Qabs_Qle_condition in Hx. apply Qabs_Qle_condition in Hy.
  apply Qabs_Qle_condition in Hgx. apply Qabs_Qle_condition in Hgy.
  apply Qabs_Qle_condition in Dx. apply Qabs_Qle_condition in Dy.
  apply Qabs_Qle_condition in Hunit. apply Qabs_Qlt_condition in Dr.
  assert (Sa : (- (1 # 30000) <= ga * ga - a * a <= 1 # 30000)%Q) by nra.
  assert (Sb : (- (1 # 15000) <= gb * gb - b * b <= 1 # 15000)%Q) by nra.
  set (C := Qabs c) in *.
  assert (HCC : (C * C == c * c)%Q).
  { unfold C. apply Qabs_case; intros; ring. }
  assert (Hrho : (- (1 # 9700) <= rho - C * C <= 1 # 9700)%Q)
    by (rewrite HCC; lra).
  assert (Hrpos : (0 < rho)%Q) by nra.
  assert (Hr2 : (rho <= 2)%Q) by nra.
  destruct (positive_float_form r Fr Hrpos) as (mx & ex & Er).
  rewrite Er.
  destruct (f32_sqrt_value mx ex) as (Fm & Sm & Hm3 & sigma & S0 & Slo & Shi & Sd).
  { rewrite <- Er. exact Hr2. }
  rewrite <- Er in Slo, Shi. fold rho in Slo, Shi.
  cbv zeta in *. set (m := F32.sqrt (S754_finite false mx ex)) in *.
  change (pow2 (-22)) with (1 # 4194304)%Q in *.
  apply Qabs_Qle_condition in Sd.
  assert (Hbr : (- (32 * (1 # 9700)) - (1 # 4194304) <= sigma - C
                 <= 32 * (1 # 9700))%Q).
  { apply sqrt_bracket; try lra. }
  assert (Hsign : SFltb z f0 = true <-> (c < 0)%Q).
  { rewrite (f32 SFltb_spec z f0 Vz eq_refl Fz eq_refl). reflexivity. }
  assert (Hclose : forall sa : bool,
             (sa = true <-> (c < 0)%Q) ->
             float_eq z (F32.mul m (S754_finite sa 8388608 (-23))) = true).
  { intros sa Hsa.
    destruct (mul_unit_value m sa Fm Sm Hm3) as (Vz' & Fz' & q & Eq & Q0 & Dq).
    cbv zeta in *.
    apply float_eq_close; try assumption.
    fold c. rewrite Eq.
    change (pow2 (-21)) with (1 # 2097152)%Q in Dq.
    change (pow2 (-8)) with (1 # 256)%Q.
    apply Qabs_Qlt_condition in Dq.
    apply Qabs_Qle_condition.
    destruct sa.
    - assert (Hc : (c < 0)%Q) by (apply Hsa; reflexivity).
      assert (HC : (C == - c)%Q) by (unfold C; apply Qabs_neg; lra).
      lra.
    - assert (Hc : (0 <= c)%Q).
      { destruct (Qlt_le_dec c 0) as [Hlt|]; [|assumption].
        apply Hsa in Hlt. discriminate. }
      assert (HC : (C == c)%Q) by (unfold C; apply Qabs_pos; lra).
      lra. }
  destruct (SFltb z f0) eqn:Hlt.
  - apply (Hclose true). split; [intros _; apply Hsign; reflexivity|reflexivity].
  - apply (Hclose false). split; [discriminate|].
    intros Hc. apply Hsign in Hc. discriminate.
Qed.

(** [unpack] of the word [pack] returns on its domain, in terms of the
    two codes. *)
Lemma unpack_of_pack (v : vec3) :
  F32.valid (vx v) = true -> F32.valid (vy v) = true ->
  in_signed_unit (vx v) = true -> in_signed_unit (vy v) = true ->
  exists ux uy p,
    pack v = Some p /\ is_u32 p /\
    0 <= ux <= 65535 /\ 0 <= uy <= 32767 /\
    (Qabs (inject_Z ux - 65535 * ((F2Q (vx v) + 1) * (1 # 2)))
     <= (1 # 2) + (1 # 50))%Q /\
    (Qabs (inject_Z uy - 32767 * ((F2Q (vy v) + 1) * (1 # 2)))
     <= (1 # 2) + (1 # 50))%Q /\
    unpack p
    = mkvec3 (dequant16 ux) (dequant15 uy)
        (F32.mul (F32.sqrt (radicand (dequant16 ux) (dequant15 uy)))
           (if SFltb (vz v) f0 then fm1 else f1)).
Proof.
  intros Vx Vy Ix Iy.
  destruct (pack_in_domain v Vx Vy Ix Iy)
    as (ux & uy & _ & _ & Rx & Ry & Ex & Ey & Hp).
  set (ua := if SFltb (vz v) f0 then 1 else 0) in *.
  assert (Ha : 0 <= ua < 2) by (unfold ua; destruct (SFltb (vz v) f0); lia).
  destruct (fields_of_sum ux uy ua ltac:(lia) ltac:(lia) Ha) as (F1 & _ & F3).
  cbv zeta in F1, F3.
  set (p := ux * 65536 + uy * 2 + ua) in *.
  assert (Hu : is_u32 p) by (unfold is_u32, u32_mod, p; lia).
  assert (F2 : u32_shr (Z.land p 65535) 1 = uy).
  { unfold u32_shr. change 65535 with (Z.ones 16).
    rewrite Z.land_ones, Z.shiftr_div_pow2 by lia.
    change (2 ^ 16) with 65536. change (2 ^ 1) with 2.
    assert (Hm : p mod 65536 = uy * 2 + ua).
    { symmetry. apply (Z.mod_unique p 65536 ux); unfold p; lia. }
    rewrite Hm. symmetry. apply (Z.div_unique _ 2 uy ua); lia. }
  exists ux, uy, p. split; [exact Hp|]. split; [exact Hu|].
  repeat split; try assumption; try lia.
  unfold unpack. cbv zeta. rewrite F1, F2, F3.
  fold (dequant16 ux). fold (dequant15 uy).
  unfold ua. destruct (SFltb (vz v) f0); reflexivity.
Qed.

Lemma is_float32_inv (x : float) :
  is_float32 x = true -> F32.valid x = true /\ is_finite x = true.
Proof. unfold is_float32. apply andb_true_iff. Qed.

Lemma in_signed_unit_of_value (x : float) :
  F32.valid x = true -> is_finite x = true -> (Qabs (F2Q x) <= 1)%Q ->
  in_signed_unit x = true.
Proof.
  intros Vx Fx Hx. apply Qabs_Qle_condition in Hx. unfold in_signed_unit.
  apply andb_true_iff. split.
  - apply (f32 SFleb_spec); try assumption; try reflexivity.
    eapply Qle_trans; [|apply Hx]. vm_compute. discriminate.
  - apply (f32 SFleb_spec); try assumption; try reflexivity.
    eapply Qle_trans; [apply Hx|]. vm_compute. discriminate.
Qed.

(** The x and y of a unit vector with [|z| >= 1/32] lie in [-1, 1]. *)
Lemma unit_xy_bounds (v : vec3) :
  unit_length v -> (1 # 32 <= Qabs (F2Q (vz v)))%Q ->
  (Qabs (F2Q (vx v)) <= 1)%Q /\ (Qabs (F2Q (vy v)) <= 1)%Q.
Proof.
  unfold unit_length, sq_norm. intros Hu Hz.
  change (pow2 (-20)) with (1 # 1048576)%Q in Hu.
  apply Qabs_Qle_condition in Hu.
  set (a := F2Q (vx v)) in *. set (b := F2Q (vy v)) in *.
  set (c := F2Q (vz v)) in *.
  assert (Hc : (1 # 1024 <= c * c)%Q).
  { revert Hz. apply Qabs_case; intros; nra. }
  split; apply Qabs_Qle_condition; split; nra.
Qed.

(** ** Endpoint contracts of the mappers and quantizers *)

(** C5: the integer quantizers meet their endpoint contracts exactly:
    [map_ftou15 0.0f = 0], [map_ftou15 1.0f = 32767], [map_ftou16 0.0f = 0]
    and [map_ftou16 1.0f = 65535] (the four [static_assert]s). *)
Theorem quantizer_endpoints :
  map_ftou15 f0 = Some 0 /\ map_ftou15 f1 = Some 32767 /\
  map_ftou16 f0 = Some 0 /\ map_ftou16 f1 = Some 65535.
Proof. repeat split; vm_compute; reflexivity. Qed.

(** C6: the range mappers meet their endpoint contracts, and do so exactly
    (not only up to the tolerance of [float_eq] the [static_assert]s use):
    [map_ufnorm] sends -1, 0, 1 to 0, 0.5, 1 and [map_sfnorm] sends
    0, 0.5, 1 to -1, 0, 1. *)
Theorem range_mapper_endpoints :
  map_ufnorm fm1 = f0 /\ map_ufnorm f0 = fhalf /\ map_ufnorm f1 = f1 /\
  map_sfnorm f0 = fm1 /\ map_sfnorm fhalf = f0 /\ map_sfnorm f1 = f1.
Proof. repeat split; vm_compute; reflexivity. Qed.

(** ** Dependence on [z] and on the sign of a zero *)

(** [pack] reads [z] only through the test [z < 0.0f]. *)
Lemma pack_z_test (x y z1 z2 : float) :
  SFltb z1 f0 = SFltb z2 f0 ->
  pack (mkvec3 x y z1) = pack (mkvec3 x y z2).
Proof. intros H. unfold pack. cbn [vx vy vz]. rewrite H. reflexivity. Qed.

(** C8: [pack] depends on the z component only through its sign: two
    vectors with the same x and y whose z components are both negative, or
    both not negative, pack to the same word; and the words of (0,0,1) and
    (0,0,-1) differ in bit 0 only. *)
Theorem pack_depends_on_z_sign_only (x y z1 z2 : float) :
  SFltb z1 f0 = SFltb z2 f0 ->
  pack (mkvec3 x y z1) = pack (mkvec3 x y z2) /\
  exists a b, pack (mkvec3 f0 f0 f1) = Some a /\
              pack (mkvec3 f0 f0 fm1) = Some b /\
              Z.lxor a b = 1.
Proof.
  intros H. split; [exact (pack_z_test x y z1 z2 H)|].
  exists 2147516416, 2147516417. repeat split; vm_compute; reflexivity.
Qed.

Lemma pack_depends_on_z_sign_only_witness :
  SFltb f1 f0 = SFltb fhalf f0 /\
  pack (mkvec3 f1 f0 f1) = pack (mkvec3 f1 f0 fhalf).
Proof.
  split; [reflexivity|].
  exact (proj1 (pack_depends_on_z_sign_only f1 f0 f1 fhalf eq_refl)).
Defined.

(** Floats that compare equal with [==] are the same float or two zeros. *)
Lemma SFeqb_eq_or_zeros (x y : float) :
  SFeqb x y = true ->
  x = y \/ exists s t, x = S754_zero s /\ y = S754_zero t.
Proof.
  unfold SFeqb, SFcompare.
  destruct x as [sx|sx| |sx mx ex], y as [sy|sy| |sy my ey];
    try discriminate; try (destruct sx; discriminate);
    try (destruct sy; discriminate).
  - intros _. right. eauto.
  - destruct sx, sy; try discriminate; intros _; left; reflexivity.
  - change (Pos.compare_cont Eq mx my) with (Pos.compare mx my).
    destruct sx, sy; try discriminate;
      destruct (Z.compare_spec ex ey) as [->| |]; try discriminate;
      destruct (Pos.compare_spec mx my) as [->| |]; try discriminate;
      intros _; left; reflexivity.
Qed.

(** [pack] gives the same word for two vectors that are equal in the
    sense of the C++ [==] on floats, which equates [-0.0f] and [0.0f]:
    the sign of a zero component is not stored. *)
Lemma pack_respects_float_equality (v1 v2 : vec3) :
  vec3_eqb v1 v2 = true -> pack v1 = pack v2.
Proof.
  destruct v1 as [x1 y1 z1], v2 as [x2 y2 z2]. unfold vec3_eqb. cbn [vx vy vz].
  rewrite !andb_true_iff. intros [[Hx Hy] Hz].
  assert (U : forall a b, SFeqb a b = true -> map_ufnorm a = map_ufnorm b).
  { intros a b H. destruct (SFeqb_eq_or_zeros a b H) as [->|(s & t & -> & ->)];
      [reflexivity|]. destruct s, t; reflexivity. }
  assert (L : SFltb z1 f0 = SFltb z2 f0).
  { destruct (SFeqb_eq_or_zeros z1 z2 Hz) as [->|(s & t & -> & ->)];
      reflexivity. }
  unfold pack. cbn [vx vy vz].
  rewrite (U x1 x2 Hx), (U y1 y2 Hy), L. reflexivity.
Qed.

(** ** Range of the decoded x and y *)

(** C10: for every 32-bit word [p], the x and y components of [unpack p]
    lie in the closed interval [-1, 1]. *)
Theorem unpack_xy_in_signed_unit (p : Z) :
  is_u32 p ->
  in_signed_unit (vx (unpack p)) = true /\
  in_signed_unit (vy (unpack p)) = true.
Proof.
  intros Hp. destruct (unpack_fields_range p Hp) as [Hx Hy].
  rewrite unpack_x_dequant, unpack_y_dequant.
  pose proof (dequant16_ok _ Hx) as Tx. pose proof (dequant15_ok _ Hy) as Ty.
  unfold dequant_ok in Tx, Ty. rewrite !andb_true_iff in Tx, Ty.
  split; [apply Tx | apply Ty].
Qed.

Lemma unpack_xy_in_signed_unit_witness :
  let p := 3435980388 in
  is_u32 p /\
  in_signed_unit (vx (unpack p)) = true /\
  in_signed_unit (vy (unpack p)) = true.
Proof.
  assert (Hp : is_u32 3435980388) by (unfold is_u32, u32_mod; lia).
  split; [exact Hp|].
  exact (unpack_xy_in_signed_unit 3435980388 Hp).
Defined.

(** ** The bit layout of [pack] *)

(** C3, as stated for every input vector, fails outside the domain: for
    (0, 1.5, 0) the 15-bit quantizer returns 40959, which does not fit 15
    bits (the mask keeps 16), and its top bit lands in bit 16 of the word,
    so bits [31:16] hold 32769 and not the quantized x, 32768. *)
Lemma pack_layout_counterexample :
  let v := mkvec3 f0 f1_5 f0 in
  exists p ux,
    pack v = Some p /\ map_ftou16 (map_ufnorm (vx v)) = Some ux /\
    u32_shr p 16 <> ux.
Proof.
  exists 2147565566, 32768. repeat split; try (vm_compute; reflexivity).
  vm_compute. discriminate.
Qed.

(** The 16-bit path has no mask at all: for (3, 0, 0) the quantized x is
    131070, the shift by 16 drops its bit 16, and bits [31:16] of the
    word hold 65534. *)
Lemma pack_layout_x_overflow_example :
  let v := mkvec3 f3 f0 f0 in
  exists p,
    pack v = Some p /\ map_ftou16 (map_ufnorm (vx v)) = Some 131070 /\
    u32_shr p 16 = 65534.
Proof. exists 4294868992. repeat split; vm_compute; reflexivity. Qed.

(** C3 (amended): for every input vector whose x and y components are
    binary32 values in [-1, 1], [pack] returns a 32-bit word whose bits
    [31:16] are the 16-bit quantization of the unsigned-mapped x, whose
    bits [15:1] are the 15-bit quantization of the unsigned-mapped y, and
    whose bit 0 is 1 if [z < 0] and 0 otherwise. *)
Theorem pack_bit_layout (v : vec3) :
  F32.valid (vx v) = true -> F32.valid (vy v) = true ->
  in_signed_unit (vx v) = true -> in_signed_unit (vy v) = true ->
  exists p ux uy,
    pack v = Some p /\ is_u32 p /\
    map_ftou16 (map_ufnorm (vx v)) = Some ux /\
    map_ftou15 (map_ufnorm (vy v)) = Some uy /\
    u32_shr p 16 = ux /\
    Z.land (u32_shr p 1) 32767 = uy /\
    Z.land p 1 = (if SFltb (vz v) f0 then 1 else 0).
Proof.
  intros Vx Vy Ix Iy.
  destruct (pack_in_domain v Vx Vy Ix Iy)
    as (ux & uy & Hux & Huy & Rx & Ry & _ & _ & Hp).
  set (ua := if SFltb (vz v) f0 then 1 else 0) in *.
  assert (Ha : 0 <= ua < 2) by (unfold ua; destruct (SFltb (vz v) f0); lia).
  destruct (fields_of_sum ux uy ua ltac:(lia) ltac:(lia) Ha) as (F1 & F2 & F3).
  exists (ux * 65536 + uy * 2 + ua), ux, uy.
  repeat split; try assumption; unfold u32_mod; lia.
Qed.

Lemma pack_bit_layout_witness :
  let v := mkvec3 f0_6 f0_8 fm1 in
  (F32.valid (vx v) = true /\ F32.valid (vy v) = true /\
   in_signed_unit (vx v) = true /\ in_signed_unit (vy v) = true) /\
  exists p ux uy,
    pack v = Some p /\ is_u32 p /\
    map_ftou16 (map_ufnorm (vx v)) = Some ux /\
    map_ftou15 (map_ufnorm (vy v)) = Some uy /\
    u32_shr p 16 = ux /\
    Z.land (u32_shr p 1) 32767 = uy /\
    Z.land p 1 = (if SFltb (vz v) f0 then 1 else 0).
Proof.
  split; [repeat split; reflexivity|].
  exact (pack_bit_layout (mkvec3 f0_6 f0_8 fm1)
           eq_refl eq_refl eq_refl eq_refl).
Defined.

(** C7: for every in-domain input in [0, 1], [map_ftou16] is at most
    65535 and [map_ftou15] at most 32767, so the three fields assembled
    as in [pack] do not overlap: each can be read back unchanged. *)
Theorem quantizers_fit_fields (x y : float) :
  F32.valid x = true -> F32.valid y = true ->
  in_unsigned_unit x = true -> in_unsigned_unit y = true ->
  exists ux uy,
    map_ftou16 x = Some ux /\ map_ftou15 y = Some uy /\
    0 <= ux <= 65535 /\ 0 <= uy <= 32767 /\
    forall ua, 0 <= ua <= 1 ->
      let w := Z.lor (Z.lor (u32_shl ux 16) (u32_shl uy 1)) ua in
      is_u32 w /\ u32_shr w 16 = ux /\
      Z.land (u32_shr w 1) 32767 = uy /\ Z.land w 1 = ua.
Proof.
  intros Vx Vy Ix Iy.
  destruct (in_unsigned_unit_inv x Vx Ix) as [Fx Rx].
  destruct (in_unsigned_unit_inv y Vy Iy) as [Fy Ry].
  destruct (map_ftou16_spec x Vx Fx Rx) as (ux & Hux & Bx & _).
  destruct (map_ftou15_spec y Vy Fy Ry) as (uy & Huy & By & _).
  exists ux, uy. repeat split; try assumption; try lia;
    rewrite assemble_sum by lia;
    destruct (fields_of_sum ux uy ua ltac:(lia) ltac:(lia) ltac:(lia))
      as (F1 & F2 & F3); try assumption; unfold u32_mod; lia.
Qed.

Lemma quantizers_fit_fields_witness :
  (F32.valid f1 = true /\ F32.valid fhalf = true /\
   in_unsigned_unit f1 = true /\ in_unsigned_unit fhalf = true) /\
  exists ux uy,
    map_ftou16 f1 = Some ux /\ map_ftou15 fhalf = Some uy /\
    0 <= ux <= 65535 /\ 0 <= uy <= 32767 /\
    forall ua, 0 <= ua <= 1 ->
      let w := Z.lor (Z.lor (u32_shl ux 16) (u32_shl uy 1)) ua in
      is_u32 w /\ u32_shr w 16 = ux /\
      Z.land (u32_shr w 1) 32767 = uy /\ Z.land w 1 = ua.
Proof.
  split; [repeat split; reflexivity|].
  exact (quantizers_fit_fields f1 fhalf eq_refl eq_refl eq_refl eq_refl).
Defined.

(** ** The round trip *)

(** The vector (0.6f, 0.8f, 0) is (3, 4, 0) scaled to unit length in
    binary32, by the float [1.0f / sqrt(25.0f)]. *)
Lemma scaled_3_4_0 :
  let s := F32.div f1 (F32.sqrt (F32.of_Z 25)) in
  mkvec3 (F32.mul (F32.of_Z 3) s) (F32.mul (F32.of_Z 4) s) (F32.mul f0 s)
  = mkvec3 f0_6 f0_8 f0.
Proof. vm_compute. reflexivity. Qed.

(** C1: the code breaks the round trip at the unit vector
    (0.6f, 0.8f, 0).  The vector has unit length (its float dot product
    is exactly 1.0f, its exact squared length is within 2^-20 of 1) and
    [pack] takes it to the word 0xCCCCE664; x and y come back within
    epsilon, but the z rebuilt from the quantized x and y is about
    0.0054, more than 0.005 away from 0, so [vector_equals] is false
    and [test] reports FAIL. *)
Theorem roundtrip_failing_input :
  let v := mkvec3 f0_6 f0_8 f0 in
  unit_length v /\ SFeqb (norm2 v) f1 = true /\
  pack v = Some 3435980388 /\
  float_eq (vx v) (vx (unpack 3435980388)) = true /\
  float_eq (vy v) (vy (unpack 3435980388)) = true /\
  SFltb feps (vz (unpack 3435980388)) = true /\
  float_eq (vz v) (vz (unpack 3435980388)) = false /\
  vector_equals v (unpack 3435980388) = false /\
  test v = Some 1.
Proof.
  split; [vm_compute; discriminate|].
  repeat split; vm_compute; reflexivity.
Qed.

(** A second failing input, by NaN: for the unit vector (0.8f, 0.6f, 0)
    the decoded x and y have [fx*fx + fy*fy > 1], the radicand is
    negative and the decoded z is a NaN. *)
Lemma roundtrip_nan_example :
  let v := mkvec3 f0_8 f0_6 f0 in
  unit_length v /\ SFeqb (norm2 v) f1 = true /\
  pack v = Some 3865496780 /\
  is_nan (vz (unpack 3865496780)) = true /\
  vector_equals v (unpack 3865496780) = false.
Proof.
  split; [vm_compute; discriminate|].
  repeat split; vm_compute; reflexivity.
Qed.

(** Where the round trip is proved to hold: for every vector [v] of
    finite binary32 components, (a) if x and y lie in [-1, 1] then
    [pack] succeeds and the x and y components of [unpack (pack v)] are
    within epsilon = 0.005 of those of [v]; (b) if moreover [v] has unit
    length (squared length within 2^-20 of 1) and [|z| >= 1/32], the
    whole round trip is within epsilon: [vector_equals v (unpack (pack
    v))] holds. *)
Theorem pack_unpack_roundtrip (v : vec3) :
  is_float32 (vx v) = true -> is_float32 (vy v) = true ->
  is_float32 (vz v) = true ->
  (in_signed_unit (vx v) = true -> in_signed_unit (vy v) = true ->
   exists p,
     pack v = Some p /\ is_u32 p /\
     float_eq (vx v) (vx (unpack p)) = true /\
     float_eq (vy v) (vy (unpack p)) = true) /\
  (unit_length v -> (1 # 32 <= Qabs (F2Q (vz v)))%Q ->
   exists p,
     pack v = Some p /\ is_u32 p /\ vector_equals v (unpack p) = true).
Proof.
  intros Nx Ny Nz.
  destruct (is_float32_inv _ Nx) as [Vx Fx].
  destruct (is_float32_inv _ Ny) as [Vy Fy].
  destruct (is_float32_inv _ Nz) as [Vz Fz].
  assert (XY : in_signed_unit (vx v) = true -> in_signed_unit (vy v) = true ->
               exists p,
                 pack v = Some p /\ is_u32 p /\
                 float_eq (vx v) (vx (unpack p)) = true /\
                 float_eq (vy v) (vy (unpack p)) = true /\
                 (unit_length v -> (1 # 32 <= Qabs (F2Q (vz v)))%Q ->
                  float_eq (vz v) (vz (unpack p)) = true)).
  { intros Ix Iy.
    destruct (unpack_of_pack v Vx Vy Ix Iy)
      as (ux & uy & p & Hp & Hu & Rx & Ry & Ex & Ey & Hun).
    destruct (dequant16_dist (vx v) ux Rx Ex) as (Vgx & Fgx & Bgx & Dgx).
    destruct (dequant15_dist (vy v) uy Ry Ey) as (Vgy & Fgy & Bgy & Dgy).
    cbv zeta in *.
    exists p. split; [exact Hp|]. split; [exact Hu|]. rewrite Hun.
    cbn [vx vy vz].
    split; [apply dequant16_close; assumption|].
    split; [apply dequant15_close; assumption|].
    intros Hunit Hz.
    destruct (unit_xy_bounds v Hunit Hz) as [Bx By].
    apply (rebuilt_z_close (vx v) (vy v)); assumption. }
  split.
  - intros Ix Iy. destruct (XY Ix Iy) as (p & Hp & Hu & Hx & Hy & _).
    exists p. split; [exact Hp|]. split; [exact Hu|]. split; assumption.
  - intros Hunit Hz. destruct (unit_xy_bounds v Hunit Hz) as [Bx By].
    destruct (XY (in_signed_unit_of_value _ Vx Fx Bx)
                 (in_signed_unit_of_value _ Vy Fy By))
      as (p & Hp & Hu & Hx & Hy & Hzz).
    exists p. split; [exact Hp|]. split; [exact Hu|].
    unfold vector_equals. rewrite Hx, Hy, (Hzz Hunit Hz). reflexivity.
Qed.

Lemma pack_unpack_roundtrip_witness :
  let v := mkvec3 f0_6 f0 f0_8 in
  (is_float32 (vx v) = true /\ is_float32 (vy v) = true /\
   is_float32 (vz v) = true /\ unit_length v /\
   (1 # 32 <= Qabs (F2Q (vz v)))%Q) /\
  exists p, pack v = Some p /\ is_u32 p /\ vector_equals v (unpack p) = true.
Proof.
  assert (Hu : unit_length (mkvec3 f0_6 f0 f0_8)) by (vm_compute; discriminate).
  assert (Hz : (1 # 32 <= Qabs (F2Q f0_8))%Q) by (vm_compute; discriminate).
  split; [repeat split; try reflexivity; assumption|].
  exact (proj2 (pack_unpack_roundtrip (mkvec3 f0_6 f0 f0_8)
                  eq_refl eq_refl eq_refl) Hu Hz).
Defined.

(** ** NaN and sign of the decoded z *)




(** C4: for every 32-bit word [p], the x component of [unpack p] is
    [map_sfnorm ((p >> 16) / 65535.0f)], the y component is
    [map_sfnorm (((p & 0xFFFF) >> 1) / 32767.0f)], and whenever the
    reconstructed magnitude [sqrt(1 - (fx*fx + fy*fy))] is a finite
    non-zero float, z is negative exactly when bit 0 of [p] is 1, and is
    not negative ([0 <= z]) when that bit is 0. *)
Theorem unpack_components (p : Z) :
  is_u32 p ->
  vx (unpack p) = map_sfnorm (F32.div (F32.of_Z (u32_shr p 16)) f65535) /\
  vy (unpack p)
  = map_sfnorm (F32.div (F32.of_Z (u32_shr (Z.land p 65535) 1)) f32767) /\
  forall s m e,
    F32.sqrt (radicand (vx (unpack p)) (vy (unpack p))) = S754_finite s m e ->
    SFltb (vz (unpack p)) f0 = (Z.land p 1 =? 1) /\
    (Z.land p 1 = 0 -> SFleb f0 (vz (unpack p)) = true).
Proof.
  intros _. split; [reflexivity|]. split; [reflexivity|].
  intros s m e Hmag.
  change (vz (unpack p))
    with (F32.mul (F32.sqrt (radicand (vx (unpack p)) (vy (unpack p))))
            (if Z.land p 1 =? 1 then fm1 else f1)).
  assert (Hse : s = false /\ SpecFloat.emin F32.prec F32.emax <= e).
  { unfold F32.sqrt in Hmag.
    destruct (radicand (vx (unpack p)) (vy (unpack p)))
      as [sr|[|]| |[|] mr er]; try discriminate.
    destruct (SFsqrt_cases F32.prec F32.emax mr er)
      as [Hz|[Hi|(m' & e' & Hf & He)]]; cbv zeta in *; try congruence.
    rewrite Hf in Hmag. inversion Hmag. subst. split; [reflexivity|assumption]. }
  destruct Hse as [-> He]. rewrite Hmag.
  destruct (land_1_cases p) as [Hb|Hb]; rewrite Hb; cbn [Z.eqb].
  - destruct (mul_unit_sign m e false He) as [H1 H2]. split; [exact H1|].
    intros _. exact H2.
  - destruct (mul_unit_sign m e true He) as [H1 H2]. split; [exact H1|].
    intros H0. discriminate.
Qed.

Lemma unpack_components_witness :
  let p := 3435980389 in
  is_u32 p /\
  F32.sqrt (radicand (vx (unpack p)) (vy (unpack p)))
  = S754_finite false 11617446 (-31) /\
  SFltb (vz (unpack p)) f0 = (Z.land p 1 =? 1) /\
  (Z.land p 1 = 0 -> SFleb f0 (vz (unpack p)) = true).
Proof.
  assert (Hp : is_u32 3435980389) by (unfold is_u32, u32_mod; lia).
  split; [exact Hp|]. split; [reflexivity|].
  exact (proj2 (proj2 (unpack_components 3435980389 Hp))
           false 11617446%positive (-31) eq_refl).
Defined.

(** * Further properties of the codec *)

(** ** The approximate comparison [float_eq] *)

(** The sign given to a rounding changes the sign of its result only. *)
Lemma binary_round_aux_abs (prec emax : Z) (s s' : bool) (m e : Z) (l : location) :
  SFabs (binary_round_aux prec emax s m e l)
  = SFabs (binary_round_aux prec emax s' m e l).
Proof.
  rewrite !binary_round_aux_unfold.
  destruct (shr_fexp prec emax m e l) as [mrs e1]. unfold finish_round.
  destruct (shr_fexp prec emax _ e1 loc_Exact) as [mrs' e2].
  destruct (shr_m mrs'); [reflexivity| |reflexivity].
  destruct (e2 <=? emax - prec); reflexivity.
Qed.

Lemma binary_normalize_opp_abs (prec emax : Z) (z e : Z) :
  SFabs (binary_normalize prec emax (- z) e false)
  = SFabs (binary_normalize prec emax z e false).
Proof.
  destruct z as [|p|p]; [reflexivity| |]; cbn [Z.opp binary_normalize];
    unfold binary_round;
    destruct (shl_align p e _) as [mz ez]; apply binary_round_aux_abs.
Qed.

Lemma SFsub_abs_sym (prec emax : Z) (x y : spec_float) :
  SFabs (SFsub prec emax x y) = SFabs (SFsub prec emax y x).
Proof.
  destruct x as [sx|sx| |sx mx ex], y as [sy|sy| |sy my ey];
    try reflexivity; try (destruct sx, sy; reflexivity).
  cbn [SFsub]. rewrite (Z.min_comm ey ex).
  rewrite <- binary_normalize_opp_abs. f_equal. f_equal. lia.
Qed.

(** X1: [float_eq] does not depend on the order of its arguments. *)
Theorem float_eq_sym (x y : float) : float_eq x y = float_eq y x.
Proof.
  unfold float_eq, F32.sub. rewrite SFsub_abs_sym. reflexivity.
Qed.

(** X2: a float is [float_eq] to itself exactly when it is finite: the
    difference of an infinity or a NaN with itself is a NaN, which is
    below no tolerance. *)
Theorem float_eq_self (x : float) : float_eq x x = is_finite x.
Proof.
  destruct x as [s|s| |s m e]; try (destruct s; reflexivity); try reflexivity.
  unfold float_eq, F32.sub. cbn [SFsub]. rewrite Z.sub_diag. reflexivity.
Qed.

(** A difference below the tolerance is one of two finite floats. *)
Lemma sub_below_eps_finite (x y : float) :
  SFltb (SFabs (F32.sub x y)) feps = true ->
  is_finite x = true /\ is_finite y = true.
Proof.
  destruct x as [sx|sx| |sx mx ex], y as [sy|sy| |sy my ey];
    try (intros _; split; reflexivity);
    try (destruct sx, sy; discriminate); try discriminate;
    destruct sx; discriminate.
Qed.

(** X3: [float_eq] holds between finite floats only: it rejects every NaN
    and every infinity. *)
Theorem float_eq_finite (x y : float) :
  float_eq x y = true -> is_finite x = true /\ is_finite y = true.
Proof. unfold float_eq. apply sub_below_eps_finite. Qed.

Lemma float_eq_finite_witness :
  float_eq f1 f1 = true /\ is_finite f1 = true /\ is_finite f1 = true.
Proof.
  split; [reflexivity|]. exact (float_eq_finite f1 f1 eq_refl).
Defined.

(** The value of the tolerance [0.005f]. *)
Lemma feps_value : (F2Q feps == 10737418 # 2147483648)%Q.
Proof. vm_compute. reflexivity. Qed.

(** A rounded magnitude below the tolerance comes from an exact
    magnitude less than one unit in the last place above it. *)
Lemma rounds_to_below_eps (s : bool) (v : Q) (d : float) :
  rounds_to F32.prec F32.emax s v d ->
  SFltb (SFabs d) feps = true -> (v < F2Q feps + pow2 (-31))%Q.
Proof.
  intros (k & e1 & Hk & He1 & Hulp & Hdist & Hres) Hlt.
  assert (Hq : (inject_Z k * pow2 e1 < F2Q feps)%Q).
  { destruct d as [s'|s'| |s' m e]; cbn [round_result] in Hres.
    - destruct Hres as [_ ->]. vm_compute. reflexivity.
    - discriminate Hlt.
    - contradiction.
    - destruct Hres as (_ & Hb & Hval). rewrite <- Hval.
      apply (f32 SFltb_spec (S754_finite false m e) feps) in Hlt;
        [exact Hlt|exact Hb|reflexivity|reflexivity|reflexivity]. }
  rewrite feps_value in *.
  apply Qabs_Qlt_condition in Hdist.
  assert (He : e1 <= -31).
  { destruct Hulp as [->|Hulp]; [vm_compute; discriminate|].
    destruct (Z_le_gt_dec e1 (-31)) as [L|G]; [exact L|exfalso].
    assert (P : (pow2 (-30) <= pow2 e1)%Q) by (apply pow2_le; lia).
    replace (e1 + F32.prec - 1) with (e1 + 23) in Hulp
      by (unfold F32.prec; lia).
    rewrite pow2_add in Hulp.
    change (pow2 23) with (8388608 # 1)%Q in Hulp.
    change (pow2 (-30)) with (1 # 1073741824)%Q in P. lra. }
  assert (P : (pow2 e1 <= pow2 (-31))%Q) by (apply pow2_le; lia). lra.
Qed.

(** A magnitude at least one unit in the last place below the tolerance
    rounds below the tolerance. *)
Lemma rounds_to_accept (s : bool) (v : Q) (d : float) :
  rounds_to F32.prec F32.emax s v d ->
  (v <= F2Q feps - pow2 (-31))%Q ->
  SFltb (SFabs d) feps = true.
Proof.
  intros Hr Hv. rewrite feps_value in Hv.
  change (pow2 (-31)) with (1 # 2147483648)%Q in Hv.
  destruct (f32 rounds_to_elim s v d 10737417 (-31) (-7) Hr)
    as (q & Fd & Vd & Sd & Ed & [D0 D1] & _);
    try (unfold F32.prec, F32.emax, SpecFloat.emin; lia).
  { change (inject_Z 10737417 * pow2 (-31))%Q with (10737417 # 2147483648)%Q.
    lra. }
  { change (pow2 (-7)) with (1 # 128)%Q. lra. }
  destruct (SFabs_valid _ Vd Fd) as [Va Fa].
  apply (f32 SFltb_spec); try assumption; try reflexivity.
  rewrite SFabs_value, feps_value.
  change (inject_Z 10737417 * pow2 (-31))%Q
    with (10737417 # 2147483648)%Q in D1.
  assert (Habs : (Qabs (F2Q d) == q)%Q).
  { rewrite Ed. destruct s; [rewrite Qabs_opp|]; apply Qabs_pos; exact D0. }
  rewrite Habs. lra.
Qed.

(** The float difference of two finite binary32 numbers is their exact
    difference or a rounding of it. *)
Lemma sub_cases (x y : float) :
  F32.valid x = true -> F32.valid y = true ->
  is_finite x = true -> is_finite y = true ->
  let v := (F2Q x - F2Q y)%Q in
  let d := F32.sub x y in
  (F32.valid d = true /\ is_finite d = true /\ (F2Q d == v)%Q) \/
  ((0 < v)%Q /\ rounds_to F32.prec F32.emax false v d) \/
  ((v < 0)%Q /\ rounds_to F32.prec F32.emax true (- v)%Q d).
Proof.
  intros Vx Vy Fx Fy. unfold F32.sub.
  destruct x as [sx|sx| |sx mx ex]; try discriminate;
    destruct y as [sy|sy| |sy my ey]; try discriminate; cbv zeta.
  - left. destruct sx, sy; cbn; repeat split; reflexivity.
  - left. cbn [SFsub]. split; [exact Vy|]. split; [reflexivity|].
    cbn [F2Q]. destruct sy; cbn [negb cond_Zopp];
      rewrite ?inject_Z_opp; ring.
  - left. cbn [SFsub]. split; [exact Vx|]. split; [reflexivity|].
    cbn [F2Q]. ring.
  - destruct (f32 SFsub_finite_spec sx mx ex sy my ey)
      as [[Hz Hd]|[H|H]]; [left|right; left; exact H|right; right; exact H].
    rewrite Hd. repeat split; try reflexivity.
    rewrite Hz. reflexivity.
Qed.

(** X4: [float_eq] is an absolute-tolerance test at [0.005f], exact up to one
    unit in the last place ([2^-31]) of the tolerance: it accepts two
    finite binary32 numbers whose distance is at most [0.005f - 2^-31],
    and the distance of two numbers it accepts is less than
    [0.005f + 2^-31]. *)
Theorem float_eq_tolerance (x y : float) :
  is_float32 x = true -> is_float32 y = true ->
  ((Qabs (F2Q x - F2Q y) <= F2Q feps - pow2 (-31))%Q -> float_eq x y = true) /\
  (float_eq x y = true -> (Qabs (F2Q x - F2Q y) < F2Q feps + pow2 (-31))%Q).
Proof.
  intros Nx Ny.
  destruct (is_float32_inv _ Nx) as [Vx Fx].
  destruct (is_float32_inv _ Ny) as [Vy Fy].
  pose proof (pow2_pos (-31)) as P31.
  unfold float_eq.
  destruct (sub_cases x y Vx Vy Fx Fy) as [(Vd & Fd & Ed)|[[Hv Hr]|[Hv Hr]]];
    cbv zeta in *.
  - destruct (SFabs_valid _ Vd Fd) as [Va Fa].
    pose proof (f32 SFltb_spec (SFabs (F32.sub x y)) feps Va eq_refl Fa eq_refl)
      as Hlt.
    rewrite SFabs_value, Ed in Hlt.
    split; intros H.
    + apply Hlt. lra.
    + apply Hlt in H. lra.
  - rewrite (Qabs_pos (F2Q x - F2Q y)) by lra. split; intros H.
    + exact (rounds_to_accept _ _ _ Hr H).
    + exact (rounds_to_below_eps _ _ _ Hr H).
  - rewrite (Qabs_neg (F2Q x - F2Q y)) by lra. split; intros H.
    + exact (rounds_to_accept _ _ _ Hr H).
    + exact (rounds_to_below_eps _ _ _ Hr H).
Qed.

Lemma float_eq_tolerance_witness :
  (is_float32 f0_6 = true /\ is_float32 f0_6 = true /\
   (Qabs (F2Q f0_6 - F2Q f0_6) <= F2Q feps - pow2 (-31))%Q) /\
  float_eq f0_6 f0_6 = true.
Proof.
  assert (H : (Qabs (F2Q f0_6 - F2Q f0_6) <= F2Q feps - pow2 (-31))%Q)
    by (vm_compute; discriminate).
  split; [repeat split; try reflexivity; exact H|].
  exact (proj1 (float_eq_tolerance f0_6 f0_6 eq_refl eq_refl) H).
Defined.

(** ** [vector_equals] and the test driver *)

(** X5: [vector_equals] does not depend on the order of its arguments, and
    it holds between vectors of finite components only. *)
Theorem vector_equals_sym_finite (v1 v2 : vec3) :
  vector_equals v1 v2 = vector_equals v2 v1 /\
  (vector_equals v1 v2 = true ->
   (is_finite (vx v1) && is_finite (vy v1) && is_finite (vz v1)
    && is_finite (vx v2) && is_finite (vy v2) && is_finite (vz v2)) = true).
Proof.
  unfold vector_equals, float_eq, F32.sub. split.
  - rewrite (SFsub_abs_sym _ _ (vx v1)), (SFsub_abs_sym _ _ (vy v1)),
      (SFsub_abs_sym _ _ (vz v1)). reflexivity.
  - intros H. apply andb_true_iff in H. destruct H as [H Hz].
    apply andb_true_iff in H. destruct H as [Hx Hy].
    destruct (sub_below_eps_finite _ _ Hx) as [-> ->].
    destruct (sub_below_eps_finite _ _ Hy) as [-> ->].
    destruct (sub_below_eps_finite _ _ Hz) as [-> ->]. reflexivity.
Qed.

Lemma vector_equals_sym_finite_witness :
  let v := mkvec3 f0_6 f0_8 f0 in
  vector_equals v v = true /\
  (is_finite (vx v) && is_finite (vy v) && is_finite (vz v)
   && is_finite (vx v) && is_finite (vy v) && is_finite (vz v)) = true.
Proof.
  split; [reflexivity|].
  exact (proj2 (vector_equals_sym_finite (mkvec3 f0_6 f0_8 f0)
                  (mkvec3 f0_6 f0_8 f0)) eq_refl).
Defined.



(** X7: [test] reports SUCCESS for every vector of finite binary32
    components that has unit length (squared length within [2^-20] of
    1) and a z component of magnitude at least [1/32]. *)
Theorem test_passes_unit_vectors (n : vec3) :
  is_float32 (vx n) = true -> is_float32 (vy n) = true ->
  is_float32 (vz n) = true ->
  unit_length n -> (1 # 32 <= Qabs (F2Q (vz n)))%Q ->
  test n = Some 0.
Proof.
  intros Nx Ny Nz Hunit Hz.
  destruct (is_float32_inv _ Nx) as [Vx Fx].
  destruct (is_float32_inv _ Ny) as [Vy Fy].
  destruct (is_float32_inv _ Nz) as [Vz Fz].
  destruct (unit_xy_bounds n Hunit Hz) as [Bx By].
  destruct (unpack_of_pack n Vx Vy
              (in_signed_unit_of_value _ Vx Fx Bx)
              (in_signed_unit_of_value _ Vy Fy By))
    as (ux & uy & p & Hp & _ & Rx & Ry & Ex & Ey & Hun).
  destruct (dequant16_dist (vx n) ux Rx Ex) as (Vgx & Fgx & Bgx & Dgx).
  destruct (dequant15_dist (vy n) uy Ry Ey) as (Vgy & Fgy & Bgy & Dgy).
  cbv zeta in *.
  unfold test. rewrite Hp. cbv zeta. rewrite Hun.
  unfold vector_equals. cbn [vx vy vz].
  rewrite (dequant16_close (vx n) ux Vx Fx Rx Ex).
  rewrite (dequant15_close (vy n) uy Vy Fy Ry Ey).
  rewrite (rebuilt_z_close (vx n) (vy n) (vz n) _ _ Vz Fz Bx By);
    try assumption.
  reflexivity.
Qed.

Lemma test_passes_unit_vectors_witness :
  let n := mkvec3 f0_6 f0 f0_8 in
  (is_float32 (vx n) = true /\ is_float32 (vy n) = true /\
   is_float32 (vz n) = true /\ unit_length n /\
   (1 # 32 <= Qabs (F2Q (vz n)))%Q) /\
  test n = Some 0.
Proof.
  assert (Hu : unit_length (mkvec3 f0_6 f0 f0_8)) by (vm_compute; discriminate).
  assert (Hz : (1 # 32 <= Qabs (F2Q f0_8))%Q) by (vm_compute; discriminate).
  split; [repeat split; try reflexivity; assumption|].
  exact (test_passes_unit_vectors (mkvec3 f0_6 f0 f0_8)
           eq_refl eq_refl eq_refl Hu Hz).
Defined.

(** X8: the six axis-vector tests that open [main] all report SUCCESS, so
    the error count after them is still 0. *)
Theorem main_axis_tests_pass :
  Forall (fun n => test n = Some 0) axis_vectors /\
  main_axis_errors = Some 0.
Proof.
  split; [|vm_compute; reflexivity].
  repeat constructor; vm_compute; reflexivity.
Qed.

(** ** Edge behaviour of [pack] and the sign bit of [unpack] *)

Lemma lor_range (a b n : Z) :
  0 <= n -> 0 <= a < 2 ^ n -> 0 <= b < 2 ^ n -> 0 <= Z.lor a b < 2 ^ n.
Proof.
  intros Hn Ha Hb. split; [apply Z.lor_nonneg; lia|].
  rewrite <- (Z.mod_small a (2 ^ n)), <- (Z.mod_small b (2 ^ n)) by lia.
  rewrite <- !Z.land_ones, <- Z.land_lor_distr_l, Z.land_ones by lia.
  apply Z.mod_pos_bound. lia.
Qed.

(** A NaN or an infinity stays one through [map_ufnorm], the scaling and
    [glm::round], and its conversion to [uint32_t] is undefined. *)
Lemma quantizers_nonfinite (x : float) :
  is_finite x = false ->
  map_ftou16 (map_ufnorm x) = None /\ map_ftou15 (map_ufnorm x) = None.
Proof.
  destruct x as [s|s| |s m e]; try discriminate; intros _;
    try destruct s; split; reflexivity.
Qed.

(** X9: [pack] has a defined result only for finite x and y: the conversion
    of a NaN or an infinity to [uint32_t] is undefined.  Whenever it
    has a result, for any z (a NaN included), it is a 32-bit word. *)
Theorem pack_defined_finite (v : vec3) (p : Z) :
  pack v = Some p ->
  is_finite (vx v) = true /\ is_finite (vy v) = true /\ is_u32 p.
Proof.
  unfold pack. cbv zeta. intros H.
  destruct (is_finite (vx v)) eqn:Fx.
  2:{ rewrite (proj1 (quantizers_nonfinite _ Fx)) in H. discriminate. }
  destruct (is_finite (vy v)) eqn:Fy.
  2:{ rewrite (proj2 (quantizers_nonfinite _ Fy)) in H.
      destruct (map_ftou16 _); discriminate. }
  split; [reflexivity|]. split; [reflexivity|].
  destruct (map_ftou16 _) as [ux|]; [|discriminate].
  destruct (map_ftou15 _) as [uy|]; [|discriminate].
  injection H as <-. unfold is_u32, u32_mod.
  apply lor_range; [lia| |destruct (SFltb (vz v) f0); lia].
  apply lor_range; [lia| |]; unfold u32_shl, u32_mod;
    apply Z.mod_pos_bound; lia.
Qed.

Lemma pack_defined_finite_witness :
  let v := mkvec3 f3 f1_5 S754_nan in
  pack v = Some 4294918142 /\
  is_finite (vx v) = true /\ is_finite (vy v) = true /\ is_u32 4294918142.
Proof.
  split; [reflexivity|].
  exact (pack_defined_finite (mkvec3 f3 f1_5 S754_nan) 4294918142 eq_refl).
Defined.

(** The sign given to a rounding is the sign of its result. *)
Lemma binary_round_aux_opp (prec emax : Z) (s : bool) (m e : Z) (l : location) :
  binary_round_aux prec emax (negb s) m e l
  = SFopp (binary_round_aux prec emax s m e l).
Proof.
  rewrite !binary_round_aux_unfold.
  destruct (shr_fexp prec emax m e l) as [mrs e1]. unfold finish_round.
  destruct (shr_fexp prec emax _ e1 loc_Exact) as [mrs' e2].
  destruct (shr_m mrs'); [reflexivity| |reflexivity].
  destruct (e2 <=? emax - prec); reflexivity.
Qed.

(** Multiplying by [-1.0f] is multiplying by [1.0f] and negating. *)
Lemma mul_fm1_opp (r : float) : F32.mul r fm1 = SFopp (F32.mul r f1).
Proof.
  destruct r as [s|s| |s m e]; try (destruct s; reflexivity);
    try reflexivity.
  unfold F32.mul, fm1, f1. cbn [SFmul].
  rewrite <- binary_round_aux_opp. destruct s; reflexivity.
Qed.

Lemma SFopp_involutive (r : float) : SFopp (SFopp r) = r.
Proof. destruct r as [s|s| |s m e]; try destruct s; reflexivity. Qed.

Lemma land_lxor_distr (a b c : Z) :
  Z.land (Z.lxor a b) c = Z.lxor (Z.land a c) (Z.land b c).
Proof.
  apply Z.bits_inj'. intros n Hn.
  rewrite Z.land_spec, !Z.lxor_spec, !Z.land_spec.
  destruct (Z.testbit a n), (Z.testbit b n), (Z.testbit c n); reflexivity.
Qed.

Lemma fields_flip_bit0 (p : Z) :
  u32_shr (Z.lxor p 1) 16 = u32_shr p 16 /\
  u32_shr (Z.land (Z.lxor p 1) 65535) 1 = u32_shr (Z.land p 65535) 1 /\
  Z.land (Z.lxor p 1) 1 = 1 - Z.land p 1.
Proof.
  unfold u32_shr. repeat split.
  - rewrite Z.shiftr_lxor. change (Z.shiftr 1 16) with 0.
    apply Z.lxor_0_r.
  - rewrite land_lxor_distr, Z.shiftr_lxor.
    change (Z.shiftr (Z.land 1 65535) 1) with 0. apply Z.lxor_0_r.
  - rewrite land_lxor_distr. change (Z.land 1 1) with 1.
    destruct (land_1_cases p) as [->| ->]; reflexivity.
Qed.

(** X10: bit 0 of the word is the sign of z and nothing else: flipping it
    leaves the decoded x and y unchanged and negates the decoded z. *)
Theorem unpack_flip_sign_bit (p : Z) :
  unpack (Z.lxor p 1)
  = mkvec3 (vx (unpack p)) (vy (unpack p)) (SFopp (vz (unpack p))).
Proof.
  destruct (fields_flip_bit0 p) as (Hx & Hy & Ha).
  unfold unpack. cbv zeta. cbn [vx vy vz]. rewrite Hx, Hy, Ha.
  f_equal.
  destruct (land_1_cases p) as [-> | ->]; cbn [Z.sub Z.eqb Z.opp Z.add Z.pos_sub].
  - apply mul_fm1_opp.
  - rewrite mul_fm1_opp, SFopp_involutive. reflexivity.
Qed.

(** ** Re-encoding decoded words *)

Lemma recode16_table :
  all_below 65536 (recode_ok map_ftou16 dequant16 65535) = true.
Proof. vm_cast_no_check (eq_refl true). Qed.

Lemma recode15_table :
  all_below 32768 (recode_ok map_ftou15 dequant15 32767) = true.
Proof. vm_cast_no_check (eq_refl true). Qed.

Lemma recode_ok_inv (quant : float -> option Z) (dequant : Z -> float)
                    (top k : Z) :
  recode_ok quant dequant top k = true ->
  (exists s m e, dequant k = S754_finite s m e) /\
  quant (map_ufnorm (dequant k)) = Some k /\
  (k <> top -> SFltb (dequant k) (dequant (k + 1)) = true).
Proof.
  unfold recode_ok. cbv zeta. rewrite !andb_true_iff.
  intros [[H1 H2] H3]. repeat split.
  - destruct (dequant k) as [s|s| |s m e]; try discriminate. eauto.
  - destruct (quant (map_ufnorm (dequant k))) as [j|]; [|discriminate].
    apply Z.eqb_eq in H2. congruence.
  - intros Hk. apply orb_true_iff in H3. destruct H3 as [H3|H3]; [|exact H3].
    apply Z.eqb_eq in H3. contradiction.
Qed.

Lemma recode16 (k : Z) :
  0 <= k < 65536 -> recode_ok map_ftou16 dequant16 65535 k = true.
Proof. apply (all_below_spec _ _ recode16_table). Qed.

Lemma recode15 (k : Z) :
  0 <= k < 32768 -> recode_ok map_ftou15 dequant15 32767 k = true.
Proof. apply (all_below_spec _ _ recode15_table). Qed.

(** A 32-bit word is the sum of its three fields. *)
Lemma word_fields (p : Z) :
  p = u32_shr p 16 * 65536 + u32_shr (Z.land p 65535) 1 * 2 + Z.land p 1.
Proof.
  unfold u32_shr. rewrite land_1_mod2.
  change 65535 with (Z.ones 16). rewrite Z.land_ones by lia.
  rewrite !Z.shiftr_div_pow2 by lia.
  change (2 ^ 16) with 65536. change (2 ^ 1) with 2.
  pose proof (Z.div_mod p 65536 ltac:(lia)).
  pose proof (Z.div_mod (p mod 65536) 2 ltac:(lia)).
  assert ((p mod 65536) mod 2 = p mod 2).
  { apply Z.mod_mod_divide. exists 32768. reflexivity. }
  lia.
Qed.

(** The square root of a positive binary32 number is not a zero. *)
Lemma f32_sqrt_not_zero (mx : positive) (ex : Z) (s : bool) :
  bounded F32.prec F32.emax mx ex = true ->
  F32.sqrt (S754_finite false mx ex) <> S754_zero s.
Proof.
  intros Hb Hz. unfold F32.sqrt in Hz.
  destruct (f32 SFsqrt_spec mx ex) as (q & e' & Hlo & Hhi & _ & Hr).
  cbv zeta in *. rewrite Hz in Hr.
  destruct Hr as (k & e1 & Hk & He1 & Hulp & Hd & Hres).
  cbn [round_result] in Hres. destruct Hres as [_ Hq0].
  set (sigma := (inject_Z (Zpos q) * pow2 e')%Q) in *.
  set (v := (inject_Z (Zpos mx) * pow2 ex)%Q) in *.
  pose proof (finite_mag_pos q e') as Ps. fold sigma in Ps.
  pose proof (pow2_pos e') as Pe. pose proof (pow2_pos e1) as P1.
  pose proof (pow2_pos ex) as Px.
  rewrite Hq0 in Hd. apply Qabs_Qle_condition in Hd.
  assert (Hs1 : (sigma <= pow2 e1)%Q) by lra.
  destruct Hulp as [E|Hu].
  2:{ assert (pow2 e1 < pow2 (e1 + F32.prec - 1))%Q
        by (apply pow2_lt; unfold F32.prec; lia). lra. }
  subst e1.
  assert (He' : (pow2 e' <= sigma)%Q).
  { unfold sigma. rewrite <- (Qmult_1_l (pow2 e')) at 1.
    apply Qmult_le_compat_r; [|lra].
    change 1%Q with (inject_Z 1). rewrite <- Zle_Qle. lia. }
  assert (Hv : (pow2 ex <= v)%Q).
  { unfold v. rewrite <- (Qmult_1_l (pow2 ex)) at 1.
    apply Qmult_le_compat_r; [|lra].
    change 1%Q with (inject_Z 1). rewrite <- Zle_Qle. lia. }
  destruct (f32 bounded_inv mx ex Hb) as (_ & [Hex _] & _).
  assert (Hc : (pow2 (SpecFloat.emin F32.prec F32.emax) <= pow2 ex)%Q)
    by (apply pow2_le; lia).
  assert (Hc4 : (pow2 (SpecFloat.emin F32.prec F32.emax) < pow2 (-2))%Q)
    by (apply pow2_lt; vm_compute; reflexivity).
  change (pow2 (-2)) with (1 # 4)%Q in Hc4.
  set (c := pow2 (SpecFloat.emin F32.prec F32.emax)) in *.
  clearbody c sigma v. nra.
Qed.

(** The sign test of a rebuilt z: [sqrt(r) * fa] is negative exactly
    when the sign bit is set and the radicand is positive. *)
Lemma rebuilt_z_negative (r : float) (sa : bool) :
  F32.valid r = true -> is_finite r = true -> (F2Q r <= 2)%Q ->
  SFltb (F32.mul (F32.sqrt r) (S754_finite sa 8388608 (-23))) f0
  = sa && SFltb f0 r.
Proof.
  intros Vr Fr Hr.
  destruct r as [s|s| |s m e]; try discriminate.
  - destruct s, sa; reflexivity.
  - destruct s.
    + destruct sa; reflexivity.
    + change (SFltb f0 (S754_finite false m e)) with true.
      rewrite andb_true_r.
      destruct (f32_sqrt_value m e Hr) as (Fm & _).
      pose proof (f32_sqrt_not_zero m e) as Nz.
      destruct (SFsqrt_cases F32.prec F32.emax m e)
        as [Hz|[Hi|(m' & e' & Hf & He)]]; cbv zeta in *.
      * exfalso. exact (Nz false Vr Hz).
      * unfold F32.sqrt in Fm. rewrite Hi in Fm. discriminate.
      * unfold F32.sqrt. rewrite Hf.
        exact (proj1 (mul_unit_sign m' e' sa He)).
Qed.

(** The radicand of a decoded word is a finite binary32 number, at
    most 2. *)
Lemma unpack_radicand (p : Z) :
  is_u32 p ->
  let r := radicand (vx (unpack p)) (vy (unpack p)) in
  F32.valid r = true /\ is_finite r = true /\ (F2Q r <= 2)%Q /\
  (Qabs (F2Q r - (1 - F2Q (vx (unpack p)) * F2Q (vx (unpack p))
                    - F2Q (vy (unpack p)) * F2Q (vy (unpack p))))
   < pow2 (-20))%Q.
Proof.
  intros Hp. destruct (unpack_fields_range p Hp) as [Hx Hy].
  destruct (dequant_ok_inv _ _ _ (dequant16_ok _ Hx))
    as (Ix & Vx & Fx & _ & _).
  destruct (dequant_ok_inv _ _ _ (dequant15_ok _ Hy))
    as (Iy & Vy & Fy & _ & _).
  rewrite <- unpack_x_dequant in Ix, Vx, Fx.
  rewrite <- unpack_y_dequant in Iy, Vy, Fy.
  destruct (in_signed_unit_inv _ Vx Ix) as [_ Bx].
  destruct (in_signed_unit_inv _ Vy Iy) as [_ By].
  assert (Ax : (Qabs (F2Q (vx (unpack p))) <= 1)%Q)
    by (apply Qabs_Qle_condition; lra).
  assert (Ay : (Qabs (F2Q (vy (unpack p))) <= 1)%Q)
    by (apply Qabs_Qle_condition; lra).
  destruct (radicand_value _ _ Vx Fx Ax Vy Fy Ay) as (Vr & Fr & Hr).
  cbv zeta in *. repeat split; try assumption.
  change (pow2 (-20)) with (1 # 1048576)%Q in Hr.
  apply Qabs_Qlt_condition in Hr.
  set (gx := F2Q (vx (unpack p))) in *. set (gy := F2Q (vy (unpack p))) in *.
  clearbody gx gy. nra.
Qed.

(** X11: re-encoding a decoded word gives the word back, with one exception:
    a set sign bit is cleared when the radicand is not positive, that
    is, when the rebuilt z is a zero or a NaN. *)
Theorem pack_unpack_word (p : Z) :
  is_u32 p ->
  pack (unpack p)
  = Some (if (Z.land p 1 =? 1)
             && negb (SFltb f0 (radicand (vx (unpack p)) (vy (unpack p))))
          then p - 1 else p).
Proof.
  intros Hp. destruct (unpack_fields_range p Hp) as [Hx Hy].
  destruct (recode_ok_inv _ _ _ _ (recode16 _ Hx)) as (_ & Qx & _).
  destruct (recode_ok_inv _ _ _ _ (recode15 _ Hy)) as (_ & Qy & _).
  destruct (unpack_radicand p Hp) as (Vr & Fr & Hr & _). cbv zeta in Vr, Fr, Hr.
  pose proof (word_fields p) as Hw.
  unfold pack. cbv zeta.
  rewrite <- unpack_x_dequant in Qx. rewrite <- unpack_y_dequant in Qy.
  rewrite Qx, Qy.
  f_equal.
  set (ua := if SFltb (vz (unpack p)) f0 then 1 else 0).
  assert (Hz : SFltb (vz (unpack p)) f0
               = (Z.land p 1 =? 1)
                 && SFltb f0 (radicand (vx (unpack p)) (vy (unpack p)))).
  { change (vz (unpack p))
      with (F32.mul (F32.sqrt (radicand (vx (unpack p)) (vy (unpack p))))
              (if Z.land p 1 =? 1 then fm1 else f1)).
    destruct (Z.land p 1 =? 1);
      exact (rebuilt_z_negative _ _ Vr Fr Hr). }
  assert (Ha : 0 <= ua < 2) by (unfold ua; destruct (SFltb _ f0); lia).
  rewrite assemble_sum by lia.
  unfold ua. rewrite Hz.
  destruct (land_1_cases p) as [E|E]; rewrite E in *;
    cbn [Z.eqb Pos.eqb andb]; [clear - Hw; lia|].
  destruct (SFltb f0 _); cbn [negb]; clear - Hw; lia.
Qed.

Lemma pack_unpack_word_witness :
  let p := 3435980389 in
  is_u32 p /\ pack (unpack p) = Some p.
Proof.
  assert (Hp : is_u32 3435980389) by (unfold is_u32, u32_mod; lia).
  split; [exact Hp|].
  exact (pack_unpack_word 3435980389 Hp).
Defined.

(** ** The decoded values *)

(** A table of canonical finite floats in which every entry is below the
    next is ordered as its indices are. *)
Lemma dequant_order (dequant : Z -> float) (top : Z) :
  (forall k, 0 <= k <= top ->
     F32.valid (dequant k) = true /\ is_finite (dequant k) = true) ->
  (forall k, 0 <= k < top -> SFltb (dequant k) (dequant (k + 1)) = true) ->
  forall j k, 0 <= j <= top -> 0 <= k <= top ->
    SFltb (dequant j) (dequant k) = (j <? k).
Proof.
  intros Hv Hs.
  assert (Hspec : forall j k, 0 <= j <= top -> 0 <= k <= top ->
            (SFltb (dequant j) (dequant k) = true
             <-> (F2Q (dequant j) < F2Q (dequant k))%Q)).
  { intros j k Hj Hk. destruct (Hv j Hj) as [Vj Fj].
    destruct (Hv k Hk) as [Vk Fk]. apply (f32 SFltb_spec); assumption. }
  assert (Hup : forall (j : Z) (n : nat),
            (0 <= j)%Z -> (j + 1 + Z.of_nat n <= top)%Z ->
            (F2Q (dequant j) < F2Q (dequant (j + 1 + Z.of_nat n)%Z))%Q).
  { intros j n Hj. induction n as [|n IH]; intros Hn.
    - replace (j + 1 + Z.of_nat 0) with (j + 1) by lia.
      apply Hspec; [lia|lia|]. apply Hs. lia.
    - replace (j + 1 + Z.of_nat (S n)) with (j + 1 + Z.of_nat n + 1) by lia.
      eapply Qlt_trans; [apply IH; lia|].
      apply Hspec; [lia|lia|]. apply Hs. lia. }
  assert (Hlt : forall j k : Z, (0 <= j)%Z -> (j < k)%Z -> (k <= top)%Z ->
            (F2Q (dequant j) < F2Q (dequant k))%Q).
  { intros j k Hj Hjk Hk.
    replace k with (j + 1 + Z.of_nat (Z.to_nat (k - j - 1))) by lia.
    apply Hup; lia. }
  intros j k Hj Hk. destruct (Z.ltb_spec j k) as [L|G].
  - apply Hspec; [lia|lia|]. apply Hlt; lia.
  - destruct (SFltb (dequant j) (dequant k)) eqn:E; [exfalso|reflexivity].
    apply Hspec in E; [|lia|lia].
    destruct (Z.eq_dec j k) as [->|N]; [lra|].
    pose proof (Hlt k j ltac:(lia) ltac:(lia) ltac:(lia)). lra.
Qed.

Lemma dequant16_valid (k : Z) :
  0 <= k <= 65535 ->
  F32.valid (dequant16 k) = true /\ is_finite (dequant16 k) = true.
Proof.
  intros Hk.
  destruct (dequant_ok_inv _ _ _ (dequant16_ok k ltac:(lia)))
    as (_ & V & F & _). split; assumption.
Qed.

Lemma dequant15_valid (k : Z) :
  0 <= k <= 32767 ->
  F32.valid (dequant15 k) = true /\ is_finite (dequant15 k) = true.
Proof.
  intros Hk.
  destruct (dequant_ok_inv _ _ _ (dequant15_ok k ltac:(lia)))
    as (_ & V & F & _). split; assumption.
Qed.

(** X12: decoding keeps the order of the fields: the decoded x of one word is
    below that of another exactly when its 16-bit field is smaller, and
    likewise for y and the 15-bit field.  So distinct fields decode to
    distinct values. *)
Theorem unpack_order (p q : Z) :
  is_u32 p -> is_u32 q ->
  SFltb (vx (unpack p)) (vx (unpack q)) = (u32_shr p 16 <? u32_shr q 16) /\
  SFltb (vy (unpack p)) (vy (unpack q))
  = (u32_shr (Z.land p 65535) 1 <? u32_shr (Z.land q 65535) 1).
Proof.
  intros Hp Hq.
  destruct (unpack_fields_range p Hp) as [Hpx Hpy].
  destruct (unpack_fields_range q Hq) as [Hqx Hqy].
  rewrite !unpack_x_dequant, !unpack_y_dequant. split.
  - apply (dequant_order dequant16 65535); try lia.
    + exact dequant16_valid.
    + intros k Hk.
      apply (recode_ok_inv _ _ _ _ (recode16 k ltac:(lia))). lia.
  - apply (dequant_order dequant15 32767); try lia.
    + exact dequant15_valid.
    + intros k Hk.
      apply (recode_ok_inv _ _ _ _ (recode15 k ltac:(lia))). lia.
Qed.

Lemma unpack_order_witness :
  let p := 3435980389 in
  let q := 4294967295 in
  (is_u32 p /\ is_u32 q) /\
  SFltb (vx (unpack p)) (vx (unpack q)) = (u32_shr p 16 <? u32_shr q 16) /\
  SFltb (vy (unpack p)) (vy (unpack q))
  = (u32_shr (Z.land p 65535) 1 <? u32_shr (Z.land q 65535) 1).
Proof.
  assert (Hp : is_u32 3435980389) by (unfold is_u32, u32_mod; lia).
  assert (Hq : is_u32 4294967295) by (unfold is_u32, u32_mod; lia).
  split; [split; assumption|].
  exact (unpack_order 3435980389 4294967295 Hp Hq).
Defined.

(** X13: no word decodes to an x or a y that is zero: each field has an even
    number of levels over [-1, 1], and 0 falls between the two middle
    ones. *)
Theorem unpack_xy_never_zero (p : Z) :
  is_u32 p ->
  SFeqb (vx (unpack p)) f0 = false /\ SFeqb (vy (unpack p)) f0 = false.
Proof.
  intros Hp. destruct (unpack_fields_range p Hp) as [Hx Hy].
  destruct (recode_ok_inv _ _ _ _ (recode16 _ Hx)) as ((sx & mx & ex & Ex) & _).
  destruct (recode_ok_inv _ _ _ _ (recode15 _ Hy)) as ((sy & my & ey & Ey) & _).
  rewrite unpack_x_dequant, unpack_y_dequant, Ex, Ey.
  destruct sx, sy; split; reflexivity.
Qed.

Lemma unpack_xy_never_zero_witness :
  let p := 2147516416 in
  is_u32 p /\
  SFeqb (vx (unpack p)) f0 = false /\ SFeqb (vy (unpack p)) f0 = false.
Proof.
  assert (Hp : is_u32 2147516416) by (unfold is_u32, u32_mod; lia).
  split; [exact Hp|].
  exact (unpack_xy_never_zero 2147516416 Hp).
Defined.

(** A non-negative [q] close to [sigma], the truncated square root of
    [R], has a square close to [R]. *)
Lemma square_close (sigma q R : Q) :
  (0 <= sigma)%Q -> (0 <= q)%Q -> (R <= 1 + (1 # 1048576))%Q ->
  (sigma * sigma <= R)%Q ->
  (R < (sigma + (1 # 4194304)) * (sigma + (1 # 4194304)))%Q ->
  (- (3 # 4194304) <= q - sigma <= 3 # 4194304)%Q ->
  (- (5 # 2097152) <= q * q - R <= 5 # 2097152)%Q.
Proof.
  intros Hs Hq HR Hlo Hhi Hd.
  assert (Hs1 : (sigma <= 1 + (1 # 1048576))%Q) by nra.
  split; nra.
Qed.

(** X14: whenever the rebuilt z is not a NaN, the decoded vector has unit
    length up to rounding: its three components are finite binary32
    numbers and its exact squared length is within [2^-18] of 1. *)
Theorem unpack_unit_length (p : Z) :
  is_u32 p -> is_nan (vz (unpack p)) = false ->
  is_float32 (vx (unpack p)) = true /\ is_float32 (vy (unpack p)) = true /\
  is_float32 (vz (unpack p)) = true /\
  (Qabs (sq_norm (unpack p) - 1) <= pow2 (-18))%Q.
Proof.
  intros Hp Hnan.
  destruct (unpack_fields_range p Hp) as [Hx Hy].
  destruct (dequant16_valid (u32_shr p 16) ltac:(lia)) as [Vx Fx].
  destruct (dequant15_valid (u32_shr (Z.land p 65535) 1) ltac:(lia))
    as [Vy Fy].
  rewrite <- unpack_x_dequant in Vx, Fx. rewrite <- unpack_y_dequant in Vy, Fy.
  destruct (unpack_radicand p Hp) as (Vr & Fr & Hr & Hval). cbv zeta in *.
  unfold sq_norm, is_float32.
  set (gx := vx (unpack p)) in *. set (gy := vy (unpack p)) in *.
  assert (Hz : vz (unpack p)
               = F32.mul (F32.sqrt (radicand gx gy))
                   (S754_finite (Z.land p 1 =? 1) 8388608 (-23))).
  { change (vz (unpack p))
      with (F32.mul (F32.sqrt (radicand gx gy))
              (if Z.land p 1 =? 1 then fm1 else f1)).
    destruct (Z.land p 1 =? 1); reflexivity. }
  rewrite Hz in *. set (sa := Z.land p 1 =? 1) in *. clearbody sa.
  rewrite Vx, Fx, Vy, Fy.
  change (pow2 (-18)) with (1 # 262144)%Q.
  change (pow2 (-20)) with (1 # 1048576)%Q in Hval.
  apply Qabs_Qlt_condition in Hval.
  set (X := (F2Q gx * F2Q gx)%Q) in *. set (Y := (F2Q gy * F2Q gy)%Q) in *.
  assert (HX : (0 <= X)%Q) by (unfold X; nra).
  assert (HY : (0 <= Y)%Q) by (unfold Y; nra).
  clearbody X Y.
  destruct (radicand gx gy) as [s|s| |s m e]; try discriminate.
  - change (F2Q (S754_zero s)) with 0%Q in Hval.
    split; [reflexivity|]. split; [reflexivity|].
    split; [destruct s, sa; reflexivity|].
    change (F2Q (F32.mul (F32.sqrt (S754_zero s))
                   (S754_finite sa 8388608 (-23)))) with 0%Q.
    apply Qabs_Qle_condition. lra.
  - destruct s; [discriminate Hnan|].
    destruct (f32_sqrt_value m e Hr) as (Fm & Sm & Bm & sigma & S0 & Slo & Shi & Sd).
    destruct (mul_unit_value _ sa Fm Sm Bm) as (Vz & Fz & q & Eq & Q0 & Qd).
    cbv zeta in *.
    rewrite Vz, Fz.
    split; [reflexivity|]. split; [reflexivity|]. split; [reflexivity|].
    set (R := F2Q (S754_finite false m e)) in *.
    set (w := F2Q (F32.sqrt (S754_finite false m e))) in *.
    set (z := F2Q (F32.mul (F32.sqrt (S754_finite false m e))
                     (S754_finite sa 8388608 (-23)))) in *.
    change (pow2 (-22)) with (1 # 4194304)%Q in *.
    change (pow2 (-21)) with (1 # 2097152)%Q in *.
    apply Qabs_Qle_condition in Sd. apply Qabs_Qlt_condition in Qd.
    assert (Hzz : (z * z == q * q)%Q).
    { rewrite Eq. destruct sa; ring. }
    assert (HR : (R <= 1 + (1 # 1048576))%Q) by lra.
    pose proof (square_close sigma q R S0 Q0 HR Slo Shi ltac:(lra)) as Hsq.
    rewrite Hzz. clearbody R w z. apply Qabs_Qle_condition. lra.
Qed.

Lemma unpack_unit_length_witness :
  let p := 3435980389 in
  (is_u32 p /\ is_nan (vz (unpack p)) = false) /\
  is_float32 (vx (unpack p)) = true /\ is_float32 (vy (unpack p)) = true /\
  is_float32 (vz (unpack p)) = true /\
  (Qabs (sq_norm (unpack p) - 1) <= pow2 (-18))%Q.
Proof.
  assert (Hp : is_u32 3435980389) by (unfold is_u32, u32_mod; lia).
  split; [split; [exact Hp|reflexivity]|].
  exact (unpack_unit_length 3435980389 Hp eq_refl).
Defined.

(** ** Accuracy of the mappers, the quantizers and the round trip *)

(** X15: [map_ufnorm] maps a binary32 number of [-1, 1] into [0, 1]: the
    result is a finite binary32 number, not negative, at most 1, and
    within [2^-22] of the exact [(x + 1) / 2]. *)
Theorem map_ufnorm_range (x : float) :
  F32.valid x = true -> in_signed_unit x = true ->
  is_float32 (map_ufnorm x) = true /\
  in_unsigned_unit (map_ufnorm x) = true /\
  (Qabs (F2Q (map_ufnorm x) - (F2Q x + 1) * (1 # 2)) <= pow2 (-22))%Q.
Proof.
  intros Vx Ix.
  destruct (map_ufnorm_spec x Vx Ix) as (Vu & Fu & Su & Bu & Du).
  cbv zeta in *. unfold is_float32. rewrite Vu, Fu.
  split; [reflexivity|]. split; [|exact Du].
  unfold in_unsigned_unit.
  apply andb_true_iff. split; apply (f32 SFleb_spec);
    try assumption; try reflexivity.
  - change (F2Q f0) with 0%Q. lra.
  - assert (E1 : (F2Q f1 == 1)%Q) by (vm_compute; reflexivity).
    rewrite E1. lra.
Qed.

Lemma map_ufnorm_range_witness :
  (F32.valid f0_6 = true /\ in_signed_unit f0_6 = true) /\
  is_float32 (map_ufnorm f0_6) = true /\
  in_unsigned_unit (map_ufnorm f0_6) = true /\
  (Qabs (F2Q (map_ufnorm f0_6) - (F2Q f0_6 + 1) * (1 # 2)) <= pow2 (-22))%Q.
Proof.
  split; [split; reflexivity|].
  exact (map_ufnorm_range f0_6 eq_refl eq_refl).
Defined.

(** X16: on [0, 1] both quantizers round to the nearest level: the result
    differs from the exact [65535 x] (or [32767 x]) by at most a half,
    plus the rounding of the binary32 product. *)
Theorem quantizers_nearest (x : float) :
  F32.valid x = true -> in_unsigned_unit x = true ->
  exists k16 k15,
    map_ftou16 x = Some k16 /\ map_ftou15 x = Some k15 /\
    (Qabs (inject_Z k16 - 65535 * F2Q x) <= (1 # 2) + (1 # 256))%Q /\
    (Qabs (inject_Z k15 - 32767 * F2Q x) <= (1 # 2) + (1 # 512))%Q.
Proof.
  intros Vx Ix. destruct (in_unsigned_unit_inv x Vx Ix) as [Fx Bx].
  destruct (map_ftou16_spec x Vx Fx Bx) as (k16 & H16 & _ & D16).
  destruct (map_ftou15_spec x Vx Fx Bx) as (k15 & H15 & _ & D15).
  exists k16, k15. repeat split; assumption.
Qed.

Lemma quantizers_nearest_witness :
  (F32.valid fhalf = true /\ in_unsigned_unit fhalf = true) /\
  exists k16 k15,
    map_ftou16 fhalf = Some k16 /\ map_ftou15 fhalf = Some k15 /\
    (Qabs (inject_Z k16 - 65535 * F2Q fhalf) <= (1 # 2) + (1 # 256))%Q /\
    (Qabs (inject_Z k15 - 32767 * F2Q fhalf) <= (1 # 2) + (1 # 512))%Q.
Proof.
  split; [split; reflexivity|].
  exact (quantizers_nearest fhalf eq_refl eq_refl).
Defined.

(** X17: the accuracy of the round trip in x and y: for finite binary32 x and
    y in [-1, 1], the decoded x is within [1/60000] of x and the decoded
    y within [1/30000] of y (the quantization steps are [2/65535] and
    [2/32767]). *)
Theorem roundtrip_xy_error (v : vec3) :
  F32.valid (vx v) = true -> F32.valid (vy v) = true ->
  in_signed_unit (vx v) = true -> in_signed_unit (vy v) = true ->
  exists p,
    pack v = Some p /\
    (Qabs (F2Q (vx (unpack p)) - F2Q (vx v)) <= 1 # 60000)%Q /\
    (Qabs (F2Q (vy (unpack p)) - F2Q (vy v)) <= 1 # 30000)%Q.
Proof.
  intros Vx Vy Ix Iy.
  destruct (unpack_of_pack v Vx Vy Ix Iy)
    as (ux & uy & p & Hp & _ & Rx & Ry & Ex & Ey & Hun).
  destruct (dequant16_dist (vx v) ux Rx Ex) as (_ & _ & _ & Dx).
  destruct (dequant15_dist (vy v) uy Ry Ey) as (_ & _ & _ & Dy).
  cbv zeta in *. exists p. rewrite Hun. cbn [vx vy].
  repeat split; assumption.
Qed.

Lemma roundtrip_xy_error_witness :
  let v := mkvec3 f0_6 f0_8 f0 in
  (F32.valid (vx v) = true /\ F32.valid (vy v) = true /\
   in_signed_unit (vx v) = true /\ in_signed_unit (vy v) = true) /\
  exists p,
    pack v = Some p /\
    (Qabs (F2Q (vx (unpack p)) - F2Q (vx v)) <= 1 # 60000)%Q /\
    (Qabs (F2Q (vy (unpack p)) - F2Q (vy v)) <= 1 # 30000)%Q.
Proof.
  split; [repeat split; reflexivity|].
  exact (roundtrip_xy_error (mkvec3 f0_6 f0_8 f0)
           eq_refl eq_refl eq_refl eq_refl).
Defined.

(** X18: vectors that [pack] sends to the same word are close: two vectors
    of binary32 x and y in [-1, 1] with the same packed word differ by
    at most [1/30000] in x and [1/15000] in y, and their z components
    are on the same side of the test [z < 0.0f]. *)
Theorem pack_collisions_close (v w : vec3) (p : Z) :
  F32.valid (vx v) = true -> F32.valid (vy v) = true ->
  in_signed_unit (vx v) = true -> in_signed_unit (vy v) = true ->
  F32.valid (vx w) = true -> F32.valid (vy w) = true ->
  in_signed_unit (vx w) = true -> in_signed_unit (vy w) = true ->
  pack v = Some p -> pack w = Some p ->
  (Qabs (F2Q (vx v) - F2Q (vx w)) <= 1 # 30000)%Q /\
  (Qabs (F2Q (vy v) - F2Q (vy w)) <= 1 # 15000)%Q /\
  SFltb (vz v) f0 = SFltb (vz w) f0.
Proof.
  intros Vx Vy Ix Iy Wx Wy Jx Jy Hv Hw.
  destruct (pack_in_domain v Vx Vy Ix Iy)
    as (ux & uy & _ & _ & Rx & Ry & Dx & Dy & Pv).
  destruct (pack_in_domain w Wx Wy Jx Jy)
    as (ux' & uy' & _ & _ & Rx' & Ry' & Dx' & Dy' & Pw).
  rewrite Hv in Pv. rewrite Hw in Pw. injection Pv as Pv. injection Pw as Pw.
  set (a := if SFltb (vz v) f0 then 1 else 0) in *.
  set (a' := if SFltb (vz w) f0 then 1 else 0) in *.
  assert (Ha : 0 <= a < 2) by (unfold a; destruct (SFltb (vz v) f0); lia).
  assert (Ha' : 0 <= a' < 2) by (unfold a'; destruct (SFltb (vz w) f0); lia).
  assert (E : ux = ux' /\ uy = uy' /\ a = a') by lia.
  destruct E as (<- & <- & Ea).
  apply Qabs_Qle_condition in Dx, Dy, Dx', Dy'.
  repeat split.
  - apply Qabs_Qle_condition. lra.
  - apply Qabs_Qle_condition. lra.
  - unfold a, a' in Ea.
    destruct (SFltb (vz v) f0), (SFltb (vz w) f0);
      try reflexivity; discriminate.
Qed.

Lemma pack_collisions_close_witness :
  let v := mkvec3 f0_6 f0_8 f1 in
  let w := mkvec3 (S754_finite false 10066331 (-24)) f0_8 f0 in
  (F32.valid (vx w) = true /\ in_signed_unit (vx w) = true /\
   pack v = Some 3435980388 /\ pack w = Some 3435980388) /\
  (Qabs (F2Q (vx v) - F2Q (vx w)) <= 1 # 30000)%Q /\
  (Qabs (F2Q (vy v) - F2Q (vy w)) <= 1 # 15000)%Q /\
  SFltb (vz v) f0 = SFltb (vz w) f0.
Proof.
  split; [repeat split; reflexivity|].
  exact (pack_collisions_close (mkvec3 f0_6 f0_8 f1)
           (mkvec3 (S754_finite false 10066331 (-24)) f0_8 f0)
           3435980388 eq_refl eq_refl eq_refl eq_refl
           eq_refl eq_refl eq_refl eq_refl eq_refl eq_refl).
Defined.

(** ** The binary64 arithmetic of [map_sfnorm] *)

Section Exact.
Variables prec emax : Z.
Hypothesis prec_gt_0 : 0 < prec.
Hypothesis prec_lt_emax : prec < emax.
Local Set Default Proof Using "prec_gt_0 prec_lt_emax".

(** A number [z * 2^e] with [z] of at most [prec] bits, above the
    smallest exponent and below the overflow threshold, is a float:
    rounding it is exact. *)
Lemma rounds_to_exact (s : bool) (z e : Z) (r : spec_float) :
  rounds_to prec emax s (inject_Z z * pow2 e)%Q r ->
  0 < z < 2 ^ prec -> SpecFloat.emin prec emax <= e ->
  (inject_Z z * pow2 e < pow2 emax)%Q ->
  exists m e', r = S754_finite s m e' /\ bounded prec emax m e' = true /\
               (inject_Z (Zpos m) * pow2 e' == inject_Z z * pow2 e)%Q.
Proof.
  intros (k & e1 & Hk & He1 & Hulp & Hd & Hr) Hz He Hmax.
  pose proof (pow2_pos e) as Pe. pose proof (pow2_pos e1) as P1.
  assert (Hzq : (inject_Z z * pow2 e < pow2 (prec + e))%Q).
  { rewrite pow2_add, (pow2_Z prec) by lia.
    apply Qmult_lt_compat_r; [assumption|]. rewrite <- Zlt_Qlt. lia. }
  assert (He0 : e1 <= e).
  { destruct Hulp as [->|Hu]; [lia|].
    assert (pow2 (e1 + prec - 1) < pow2 (prec + e))%Q
      by (eapply Qle_lt_trans; eassumption).
    apply pow2_lt_inv in H. lia. }
  assert (Hgrid : (inject_Z z * pow2 e
                   == inject_Z (z * 2 ^ (e - e1)) * pow2 e1)%Q).
  { rewrite pow2_shift by lia. replace (e - e1 + e1) with e by lia.
    reflexivity. }
  assert (Hkz : k = z * 2 ^ (e - e1)).
  { apply Qabs_Qlt_condition in Hd. destruct Hd as [Hd1 Hd2].
    rewrite Hgrid in Hd1, Hd2.
    assert (L1 : (inject_Z (z * 2 ^ (e - e1) - 1) * pow2 e1
                  < inject_Z k * pow2 e1)%Q).
    { unfold Z.sub at 1. rewrite inject_Z_plus, inject_Z_opp.
      change (inject_Z 1) with 1%Q. lra. }
    assert (L2 : (inject_Z k * pow2 e1
                  < inject_Z (z * 2 ^ (e - e1) + 1) * pow2 e1)%Q).
    { rewrite inject_Z_plus. change (inject_Z 1) with 1%Q. lra. }
    apply Qmult_lt_r in L1; [|assumption].
    apply Qmult_lt_r in L2; [|assumption].
    rewrite <- Zlt_Qlt in L1, L2. lia. }
  assert (Hq : (inject_Z k * pow2 e1 == inject_Z z * pow2 e)%Q)
    by (rewrite Hkz; symmetry; exact Hgrid).
  assert (Hpos : (0 < inject_Z z * pow2 e)%Q).
  { apply Qmult_lt_0_compat; [|assumption].
    change 0%Q with (inject_Z 0). rewrite <- Zlt_Qlt. lia. }
  destruct r as [s'|s'| |s' m e']; cbn [round_result] in Hr.
  - exfalso. destruct Hr as [_ Hr]. rewrite Hq in Hr. lra.
  - exfalso. destruct Hr as [_ Hr]. rewrite Hq in Hr. lra.
  - contradiction.
  - destruct Hr as (-> & Hb & Hv). exists m, e'. repeat split; try assumption.
    rewrite Hv. exact Hq.
Qed.
End Exact.

(** [x * 2.0] in binary64, for a binary32 number [x]: the conversion and
    the product are exact. *)
Lemma double_twice (s : bool) (m : positive) (e : Z) :
  bounded F32.prec F32.emax m e = true ->
  exists mt et,
    F64.mul (F64.of_f32 (S754_finite s m e)) d2 = S754_finite s mt et /\
    bounded F64.prec F64.emax mt et = true /\
    (inject_Z (Zpos mt) * pow2 et == 2 * (inject_Z (Zpos m) * pow2 e))%Q.
Proof.
  intros Hb.
  destruct (f32 bounded_mantissa m e Hb) as [Hm _].
  destruct (f32 bounded_inv m e Hb) as (_ & [He1 He2] & _).
  unfold F32.prec, F32.emax, SpecFloat.emin in Hm, He1, He2.
  pose proof (pow2_pos e) as Pe.
  assert (Hv : (inject_Z (Zpos m) * pow2 e < pow2 (24 + e))%Q).
  { rewrite pow2_add, (pow2_Z 24) by lia.
    apply Qmult_lt_compat_r; [assumption|]. rewrite <- Zlt_Qlt. lia. }
  assert (Hv' : (pow2 (24 + e) <= pow2 1000)%Q) by (apply pow2_le; lia).
  pose proof (pow2_pos 1000) as P1000.
  assert (H1000 : (2 * pow2 1000 < pow2 F64.emax)%Q).
  { change 2%Q with (pow2 1). rewrite <- pow2_add. apply pow2_lt.
    unfold F64.emax. lia. }
  assert (Hm53 : 0 < Zpos m < 2 ^ F64.prec).
  { split; [lia|]. eapply Z.lt_le_trans; [exact Hm|].
    apply Z.pow_le_mono_r; unfold F64.prec; lia. }
  assert (Hemin : SpecFloat.emin F64.prec F64.emax <= e)
    by (unfold SpecFloat.emin, F64.prec, F64.emax; lia).
  cbn [F64.of_f32].
  destruct (f64 rounds_to_exact s (Zpos m) e _ (f64 binary_round_spec s m e))
    as (m1 & e1 & E1 & B1 & V1); [exact Hm53|exact Hemin|lra|].
  rewrite E1. unfold F64.mul, d2.
  pose proof (f64 SFmul_finite_spec s m1 e1 false 4503599627370496 (-51)
                B1 eq_refl) as Hmul.
  apply (rounds_to_ext _ _ _ _ (inject_Z (Zpos m) * pow2 (e + 1))%Q) in Hmul.
  2:{ assert (E2 : (inject_Z 4503599627370496 * pow2 (-51) == 2)%Q)
        by (vm_compute; reflexivity).
      rewrite V1, E2, pow2_add. change (pow2 1) with 2%Q. ring. }
  assert (Hv2 : (inject_Z (Zpos m) * pow2 (e + 1)
                 == 2 * (inject_Z (Zpos m) * pow2 e))%Q).
  { rewrite pow2_add. change (pow2 1) with 2%Q. ring. }
  rewrite xorb_false_r in Hmul.
  destruct (f64 rounds_to_exact s (Zpos m) (e + 1) _ Hmul)
    as (mt & et & Et & Bt & Vt); [exact Hm53|lia|rewrite Hv2; lra|].
  exists mt, et. repeat split; try assumption.
  rewrite Vt. exact Hv2.
Qed.

(** The binary64 part of [map_sfnorm] on a binary32 number of [0, 1]:
    [x * 2.0 - 1.0] is a finite binary64 number of [-1, 1], within
    [2^-52] of the exact [2x - 1]. *)
Lemma map_sfnorm_double (x : float) :
  F32.valid x = true -> is_finite x = true -> (0 <= F2Q x <= 1)%Q ->
  let w := F64.sub (F64.mul (F64.of_f32 x) d2) (F64.of_f32 f1) in
  is_finite w = true /\ (Qabs (F2Q w) <= 1)%Q /\
  (Qabs (F2Q w - (2 * F2Q x - 1)) < pow2 (-52))%Q.
Proof.
  intros Vx Fx Bx. cbv zeta.
  destruct x as [s|s| |s m e]; try discriminate.
  - destruct s; repeat split; vm_compute; try reflexivity; discriminate.
  - pose proof (finite_mag_pos m e) as Pm.
    destruct s.
    { exfalso. cbn [F2Q cond_Zopp] in Bx. rewrite inject_Z_opp in Bx. lra. }
    cbn [F2Q cond_Zopp] in Bx |- *.
    destruct (double_twice false m e Vx) as (mt & et & Et & Bt & Vt).
    rewrite Et. change (F64.of_f32 f1) with (S754_finite false 4503599627370496 (-52)).
    pose proof (f64 SFsub_finite_spec false mt et false 4503599627370496 (-52))
      as Hsub.
    unfold F64.sub.
    set (w := SFsub F64.prec F64.emax (S754_finite false mt et)
                (S754_finite false 4503599627370496 (-52))) in *.
    apply (signed_rounding_ext _ _ _ (2 * (inject_Z (Zpos m) * pow2 e) - 1)%Q)
      in Hsub.
    2:{ assert (E1 : (inject_Z 4503599627370496 * pow2 (-52) == 1)%Q)
          by (vm_compute; reflexivity).
        cbn [F2Q cond_Zopp]. rewrite Vt, E1. ring. }
    set (v := (2 * (inject_Z (Zpos m) * pow2 e) - 1)%Q) in *.
    assert (Hv : (- (1) <= v <= 1)%Q) by (unfold v; lra).
    clearbody v w.
    change (pow2 (-52)) with (1 # 4503599627370496)%Q.
    destruct Hsub as [[Hz ->]|[[Hpos Hr]|[Hneg Hr]]].
    + repeat split; [discriminate|].
      change (F2Q (S754_zero false)) with 0%Q.
      apply Qabs_Qlt_condition. lra.
    + destruct (f64 rounds_to_elim false v w 1 0 1 Hr)
        as (q & Fw & _ & _ & Ew & [Q0 Q1] & Dq);
        try (unfold F64.prec, F64.emax, SpecFloat.emin; lia);
        try (change (inject_Z 1 * pow2 0)%Q with 1%Q;
             change (pow2 1) with 2%Q; lra).
      change (F2Q w == q)%Q in Ew.
      change (inject_Z 1 * pow2 0)%Q with 1%Q in Q1.
      change (pow2 (1 - F64.prec)) with (1 # 4503599627370496)%Q in Dq.
      apply Qabs_Qlt_condition in Dq.
      split; [exact Fw|]. rewrite Ew.
      split; [apply Qabs_Qle_condition|apply Qabs_Qlt_condition]; lra.
    + destruct (f64 rounds_to_elim true (- v)%Q w 1 0 1 Hr)
        as (q & Fw & _ & _ & Ew & [Q0 Q1] & Dq);
        try (unfold F64.prec, F64.emax, SpecFloat.emin; lia);
        try (change (inject_Z 1 * pow2 0)%Q with 1%Q;
             change (pow2 1) with 2%Q; lra).
      change (F2Q w == - q)%Q in Ew.
      change (inject_Z 1 * pow2 0)%Q with 1%Q in Q1.
      change (pow2 (1 - F64.prec)) with (1 # 4503599627370496)%Q in Dq.
      apply Qabs_Qlt_condition in Dq.
      split; [exact Fw|]. rewrite Ew.
      split; [apply Qabs_Qle_condition|apply Qabs_Qlt_condition]; lra.
Qed.

(** The conversion to [float] of a binary64 number of [-1, 1]: a finite
    binary32 number of [-1, 1], within [2^-23] of it. *)
Lemma to_f32_unit (w : float) :
  is_finite w = true -> (Qabs (F2Q w) <= 1)%Q ->
  let r := F64.to_f32 w in
  F32.valid r = true /\ is_finite r = true /\ (Qabs (F2Q r) <= 1)%Q /\
  (Qabs (F2Q r - F2Q w) < pow2 (-23))%Q.
Proof.
  intros Fw Bw. cbv zeta.
  change (pow2 (-23)) with (1 # 8388608)%Q.
  destruct w as [s|s| |s m e]; try discriminate.
  - repeat split; try reflexivity; vm_compute; try reflexivity; discriminate.
  - cbn [F64.to_f32]. unfold F32.of_finite.
    pose proof (f32 binary_round_spec s m e) as Hr.
    set (r := binary_round F32.prec F32.emax s m e) in *. clearbody r.
    pose proof (finite_mag_pos m e) as Pm.
    rewrite F2Q_finite in Bw |- *.
    set (v := (inject_Z (Zpos m) * pow2 e)%Q) in *. clearbody v.
    assert (Hv : (v <= 1)%Q).
    { apply Qabs_Qle_condition in Bw. destruct s; lra. }
    destruct (f32 rounds_to_elim s v r 1 0 1 Hr)
      as (q & Fr & Vr & _ & Er & [Q0 Q1] & Dq);
      try (unfold F32.prec, F32.emax, SpecFloat.emin; lia);
      try (change (inject_Z 1 * pow2 0)%Q with 1%Q;
           change (pow2 1) with 2%Q; lra).
    change (inject_Z 1 * pow2 0)%Q with 1%Q in Q1.
    change (pow2 (1 - F32.prec)) with (1 # 8388608)%Q in Dq.
    apply Qabs_Qlt_condition in Dq.
    split; [exact Vr|]. split; [exact Fr|]. rewrite Er.
    destruct s; split;
      try apply Qabs_Qle_condition; try apply Qabs_Qlt_condition; lra.
Qed.

Lemma map_sfnorm_value (x : float) :
  F32.valid x = true -> is_finite x = true -> (0 <= F2Q x <= 1)%Q ->
  let r := map_sfnorm x in
  F32.valid r = true /\ is_finite r = true /\ (Qabs (F2Q r) <= 1)%Q /\
  (Qabs (F2Q r - (2 * F2Q x - 1)) <= pow2 (-22))%Q.
Proof.
  intros Vx Fx Bx.
  destruct (map_sfnorm_double x Vx Fx Bx) as (Fw & Bw & Dw).
  cbv zeta in *.
  destruct (to_f32_unit _ Fw Bw) as (Vr & Fr & Br & Dr). cbv zeta in *.
  fold (map_sfnorm x) in Vr, Fr, Br, Dr.
  repeat split; try assumption.
  change (pow2 (-52)) with (1 # 4503599627370496)%Q in Dw.
  change (pow2 (-23)) with (1 # 8388608)%Q in Dr.
  change (pow2 (-22)) with (1 # 4194304)%Q.
  apply Qabs_Qlt_condition in Dw, Dr. apply Qabs_Qle_condition. lra.
Qed.

Lemma in_unsigned_unit_of_value (x : float) :
  F32.valid x = true -> is_finite x = true -> (0 <= F2Q x <= 1)%Q ->
  in_unsigned_unit x = true.
Proof.
  intros Vx Fx Bx. unfold in_unsigned_unit.
  assert (E1 : (F2Q f1 == 1)%Q) by (vm_compute; reflexivity).
  apply andb_true_iff. split; apply (f32 SFleb_spec);
    try assumption; try reflexivity.
  - change (F2Q f0) with 0%Q. lra.
  - rewrite E1. lra.
Qed.

(** X19: [map_sfnorm] maps a binary32 number of [0, 1] into [-1, 1]: the
    result is a finite binary32 number of [-1, 1], within [2^-22] of the
    exact [2x - 1]. *)
Theorem map_sfnorm_range (x : float) :
  F32.valid x = true -> in_unsigned_unit x = true ->
  is_float32 (map_sfnorm x) = true /\
  in_signed_unit (map_sfnorm x) = true /\
  (Qabs (F2Q (map_sfnorm x) - (2 * F2Q x - 1)) <= pow2 (-22))%Q.
Proof.
  intros Vx Ix. destruct (in_unsigned_unit_inv x Vx Ix) as [Fx Bx].
  destruct (map_sfnorm_value x Vx Fx Bx) as (Vr & Fr & Br & Dr).
  cbv zeta in *. unfold is_float32. rewrite Vr, Fr.
  split; [reflexivity|].
  split; [apply in_signed_unit_of_value; assumption|exact Dr].
Qed.

Lemma map_sfnorm_range_witness :
  (F32.valid f0_6 = true /\ in_unsigned_unit f0_6 = true) /\
  is_float32 (map_sfnorm f0_6) = true /\
  in_signed_unit (map_sfnorm f0_6) = true /\
  (Qabs (F2Q (map_sfnorm f0_6) - (2 * F2Q f0_6 - 1)) <= pow2 (-22))%Q.
Proof.
  split; [split; reflexivity|].
  exact (map_sfnorm_range f0_6 eq_refl eq_refl).
Defined.

(** X20: the two mappers undo each other up to rounding: on [-1, 1],
    [map_sfnorm (map_ufnorm x)] is within [2^-20] of [x], and on [0, 1],
    [map_ufnorm (map_sfnorm x)] is within [2^-21] of [x]. *)
Theorem mappers_inverse (x : float) :
  F32.valid x = true ->
  (in_signed_unit x = true ->
   (Qabs (F2Q (map_sfnorm (map_ufnorm x)) - F2Q x) <= pow2 (-20))%Q) /\
  (in_unsigned_unit x = true ->
   (Qabs (F2Q (map_ufnorm (map_sfnorm x)) - F2Q x) <= pow2 (-21))%Q).
Proof.
  intros Vx.
  change (pow2 (-20)) with (1 # 1048576)%Q.
  change (pow2 (-21)) with (1 # 2097152)%Q.
  split; intros Ix.
  - destruct (map_ufnorm_spec x Vx Ix) as (Vu & Fu & _ & Bu & Du).
    cbv zeta in *.
    destruct (map_sfnorm_value _ Vu Fu Bu) as (_ & _ & _ & Dr).
    cbv zeta in *.
    change (pow2 (-22)) with (1 # 4194304)%Q in *.
    apply Qabs_Qle_condition in Du, Dr. apply Qabs_Qle_condition. lra.
  - destruct (in_unsigned_unit_inv x Vx Ix) as [Fx Bx].
    destruct (map_sfnorm_value x Vx Fx Bx) as (Vr & Fr & Br & Dr).
    cbv zeta in *.
    pose proof (in_signed_unit_of_value _ Vr Fr Br) as Ir.
    destruct (map_ufnorm_spec _ Vr Ir) as (_ & _ & _ & _ & Du).
    cbv zeta in *.
    change (pow2 (-22)) with (1 # 4194304)%Q in *.
    apply Qabs_Qle_condition in Du, Dr. apply Qabs_Qle_condition. lra.
Qed.

Lemma mappers_inverse_witness :
  (F32.valid f0_6 = true /\ in_signed_unit f0_6 = true /\
   in_unsigned_unit f0_6 = true) /\
  (Qabs (F2Q (map_sfnorm (map_ufnorm f0_6)) - F2Q f0_6) <= pow2 (-20))%Q /\
  (Qabs (F2Q (map_ufnorm (map_sfnorm f0_6)) - F2Q f0_6) <= pow2 (-21))%Q.
Proof.
  split; [repeat split; reflexivity|].
  split.
  - exact (proj1 (mappers_inverse f0_6 eq_refl) eq_refl).
  - exact (proj2 (mappers_inverse f0_6 eq_refl) eq_refl).
Defined.

(** ** Levels, sign and mask *)

(** X21: the decoded x and y are equally spaced levels: the 16-bit field [k]
    decodes to within [2^-22] of [2k/65535 - 1], the 15-bit field [k]
    to within [2^-22] of [2k/32767 - 1]. *)
Theorem unpack_xy_levels (p : Z) :
  is_u32 p ->
  (Qabs (F2Q (vx (unpack p))
         - inject_Z (2 * u32_shr p 16 - 65535) / inject_Z 65535)
   <= pow2 (-22))%Q /\
  (Qabs (F2Q (vy (unpack p))
         - inject_Z (2 * u32_shr (Z.land p 65535) 1 - 32767) / inject_Z 32767)
   <= pow2 (-22))%Q.
Proof.
  intros Hp. destruct (unpack_fields_range p Hp) as [Hx Hy].
  rewrite unpack_x_dequant, unpack_y_dequant. split.
  - apply (dequant_ok_inv _ _ _ (dequant16_ok _ Hx)).
  - apply (dequant_ok_inv _ _ _ (dequant15_ok _ Hy)).
Qed.

Lemma unpack_xy_levels_witness :
  let p := 3435980389 in
  is_u32 p /\
  (Qabs (F2Q (vx (unpack p))
         - inject_Z (2 * u32_shr p 16 - 65535) / inject_Z 65535)
   <= pow2 (-22))%Q /\
  (Qabs (F2Q (vy (unpack p))
         - inject_Z (2 * u32_shr (Z.land p 65535) 1 - 32767) / inject_Z 32767)
   <= pow2 (-22))%Q.
Proof.
  assert (Hp : is_u32 3435980389) by (unfold is_u32, u32_mod; lia).
  split; [exact Hp|].
  exact (unpack_xy_levels 3435980389 Hp).
Defined.

(** X22: the sign of z through the round trip: for binary32 x and y in
    [-1, 1], the decoded z is negative exactly when the packed z was
    negative and the radicand of the decoded x and y is positive.  A
    z that is not negative is never decoded as a negative one. *)
Theorem roundtrip_z_sign (v : vec3) :
  F32.valid (vx v) = true -> F32.valid (vy v) = true ->
  in_signed_unit (vx v) = true -> in_signed_unit (vy v) = true ->
  exists p,
    pack v = Some p /\
    SFltb (vz (unpack p)) f0
    = SFltb (vz v) f0
      && SFltb f0 (radicand (vx (unpack p)) (vy (unpack p))).
Proof.
  intros Vx Vy Ix Iy.
  destruct (unpack_of_pack v Vx Vy Ix Iy)
    as (ux & uy & p & Hp & Hu & _ & _ & _ & _ & Hun).
  destruct (unpack_radicand p Hu) as (Vr & Fr & Hr & _). cbv zeta in *.
  exists p. split; [exact Hp|].
  rewrite Hun in *. cbn [vx vy vz] in *.
  destruct (SFltb (vz v) f0); exact (rebuilt_z_negative _ _ Vr Fr Hr).
Qed.

Lemma roundtrip_z_sign_witness :
  let v := mkvec3 f0_6 f0 fm1 in
  (F32.valid (vx v) = true /\ F32.valid (vy v) = true /\
   in_signed_unit (vx v) = true /\ in_signed_unit (vy v) = true) /\
  exists p,
    pack v = Some p /\
    SFltb (vz (unpack p)) f0
    = SFltb (vz v) f0
      && SFltb f0 (radicand (vx (unpack p)) (vy (unpack p))).
Proof.
  split; [repeat split; reflexivity|].
  exact (roundtrip_z_sign (mkvec3 f0_6 f0 fm1) eq_refl eq_refl eq_refl eq_refl).
Defined.

(** X23: the mask of [map_ftou15] keeps 16 bits, not 15: whatever the input,
    a defined result is at most 65535, and it does exceed 32767 above
    the domain (40959 at 1.25, the unsigned image of 1.5). *)
Theorem map_ftou15_mask_bound :
  (forall x k, map_ftou15 x = Some k -> 0 <= k <= 65535) /\
  map_ftou15 (map_ufnorm f1_5) = Some 40959.
Proof.
  split; [|vm_compute; reflexivity].
  unfold map_ftou15. intros x k H.
  destruct (f2u32 _) as [u|]; [|discriminate].
  injection H as <-.
  assert (E : Z.land u 65535 = u mod 65536)
    by (change 65535 with (Z.ones 16); rewrite Z.land_ones by lia;
        reflexivity).
  rewrite E. pose proof (Z.mod_pos_bound u 65536 ltac:(lia)). lia.
Qed.

(** Two words whose rebuilt z is a zero and that differ in bit 0 only:
    they decode to z = +0 and z = -0, which the C++ [==] equates. *)
Lemma unpack_zero_z_pair :
  vec3_eqb (unpack 4294934528) (unpack 4294934529) = true /\
  unpack 4294934528 <> unpack 4294934529.
Proof. split; [vm_compute; reflexivity|vm_compute; discriminate]. Qed.

(** X24: [unpack] is injective up to the sign of a zero z.  If two
    32-bit words decode to vectors that are equal component by
    component under the C++ [==] on floats (so that no component is a
    NaN), the words agree in bits 31 to 1; and they are the same word
    unless the decoded z is a zero, where bit 0 only selects between
    [+0] and [-0], which [==] equates. *)
Theorem unpack_injective (p q : Z) :
  is_u32 p -> is_u32 q ->
  vec3_eqb (unpack p) (unpack q) = true ->
  u32_shr p 1 = u32_shr q 1 /\
  (SFeqb (vz (unpack p)) f0 = false -> p = q).
Proof.
  intros Hp Hq E.
  unfold vec3_eqb in E. apply andb_true_iff in E. destruct E as [E Ez].
  apply andb_true_iff in E. destruct E as [Ex Ey].
  destruct (unpack_fields_range p Hp) as [Hpx Hpy].
  destruct (unpack_fields_range q Hq) as [Hqx Hqy].
  assert (Inc16 : forall k, 0 <= k < 65535 ->
            SFltb (dequant16 k) (dequant16 (k + 1)) = true).
  { intros k Hk.
    apply (recode_ok_inv _ _ _ _ (recode16 k ltac:(lia))). lia. }
  assert (Inc15 : forall k, 0 <= k < 32767 ->
            SFltb (dequant15 k) (dequant15 (k + 1)) = true).
  { intros k Hk.
    apply (recode_ok_inv _ _ _ _ (recode15 k ltac:(lia))). lia. }
  assert (Fx : u32_shr p 16 = u32_shr q 16).
  { rewrite !unpack_x_dequant in Ex.
    destruct (recode_ok_inv _ _ _ _ (recode16 _ Hpx))
      as ((s & m & e & Eg) & _).
    destruct (SFeqb_eq_or_zeros _ _ Ex) as [Exx|(s1 & s2 & Z1 & _)];
      [|congruence].
    pose proof (dequant_order dequant16 65535 dequant16_valid Inc16
                  (u32_shr p 16) (u32_shr q 16) ltac:(lia) ltac:(lia)) as O1.
    pose proof (dequant_order dequant16 65535 dequant16_valid Inc16
                  (u32_shr q 16) (u32_shr p 16) ltac:(lia) ltac:(lia)) as O2.
    pose proof (dequant_order dequant16 65535 dequant16_valid Inc16
                  (u32_shr p 16) (u32_shr p 16) ltac:(lia) ltac:(lia)) as O3.
    rewrite <- Exx in O1, O2. rewrite O3 in O1, O2.
    rewrite Z.ltb_irrefl in O1, O2.
    symmetry in O1, O2. apply Z.ltb_ge in O1, O2. lia. }
  assert (Fy : u32_shr (Z.land p 65535) 1 = u32_shr (Z.land q 65535) 1).
  { rewrite !unpack_y_dequant in Ey.
    set (kp := u32_shr (Z.land p 65535) 1) in *.
    set (kq := u32_shr (Z.land q 65535) 1) in *.
    destruct (recode_ok_inv _ _ _ _ (recode15 _ Hpy))
      as ((s & m & e & Eg) & _).
    destruct (SFeqb_eq_or_zeros _ _ Ey) as [Eyy|(s1 & s2 & Z1 & _)];
      [|congruence].
    pose proof (dequant_order dequant15 32767 dequant15_valid Inc15
                  kp kq ltac:(lia) ltac:(lia)) as O1.
    pose proof (dequant_order dequant15 32767 dequant15_valid Inc15
                  kq kp ltac:(lia) ltac:(lia)) as O2.
    pose proof (dequant_order dequant15 32767 dequant15_valid Inc15
                  kp kp ltac:(lia) ltac:(lia)) as O3.
    rewrite <- Eyy in O1, O2. rewrite O3 in O1, O2.
    rewrite Z.ltb_irrefl in O1, O2.
    symmetry in O1, O2. apply Z.ltb_ge in O1, O2. lia. }
  pose proof (word_fields p) as Wp. pose proof (word_fields q) as Wq.
  split.
  - unfold u32_shr. rewrite !Z.shiftr_div_pow2 by lia.
    change (2 ^ 1) with 2.
    destruct (land_1_cases p) as [Ap|Ap], (land_1_cases q) as [Aq|Aq];
      rewrite Ap in Wp; rewrite Aq in Wq; rewrite Fx, Fy in Wp;
      revert Wp Wq;
      generalize (u32_shr q 16), (u32_shr (Z.land q 65535) 1);
      intros; Z.div_mod_to_equations; lia.
  - intros Hnz.
    assert (Ea : Z.land p 1 = Z.land q 1).
    { assert (Exx : vx (unpack p) = vx (unpack q)).
      { rewrite !unpack_x_dequant, Fx. reflexivity. }
      assert (Eyy : vy (unpack p) = vy (unpack q)).
      { rewrite !unpack_y_dequant, Fy. reflexivity. }
      change (vz (unpack p))
        with (F32.mul (F32.sqrt (radicand (vx (unpack p)) (vy (unpack p))))
                (if Z.land p 1 =? 1 then fm1 else f1)) in Ez, Hnz.
      change (vz (unpack q))
        with (F32.mul (F32.sqrt (radicand (vx (unpack q)) (vy (unpack q))))
                (if Z.land q 1 =? 1 then fm1 else f1)) in Ez.
      rewrite <- Exx, <- Eyy in Ez.
      set (r := F32.sqrt (radicand (vx (unpack p)) (vy (unpack p)))) in *.
      clearbody r.
      destruct (land_1_cases p) as [Ap|Ap], (land_1_cases q) as [Aq|Aq];
        rewrite Ap, Aq in *; try reflexivity; exfalso;
        cbn [Z.eqb Pos.eqb] in Ez, Hnz; rewrite mul_fm1_opp in *;
        destruct (F32.mul r f1) as [s|s| |s m e];
        try discriminate; destruct s; discriminate. }
    rewrite Wp, Wq, Fx, Fy, Ea. reflexivity.
Qed.

Lemma unpack_injective_witness :
  let p := 4294934528 in
  let q := 4294934529 in
  (is_u32 p /\ is_u32 q /\ vec3_eqb (unpack p) (unpack q) = true) /\
  u32_shr p 1 = u32_shr q 1 /\
  (SFeqb (vz (unpack p)) f0 = false -> p = q).
Proof.
  assert (Hp : is_u32 4294934528) by (unfold is_u32, u32_mod; lia).
  assert (Hq : is_u32 4294934529) by (unfold is_u32, u32_mod; lia).
  split; [split; [exact Hp|split; [exact Hq|reflexivity]]|].
  exact (unpack_injective 4294934528 4294934529 Hp Hq eq_refl).
Defined.

(** ** The bit layout of [pack] on every input *)

(** The cast to [uint32_t], where defined, gives a 32-bit value. *)
Lemma f2u32_range (x : float) (k : Z) :
  f2u32 x = Some k -> 0 <= k < u32_mod.
Proof.
  unfold f2u32, u32_mod.
  destruct x as [s|s| |s m e]; try discriminate.
  - intros H. injection H as <-. lia.
  - cbv zeta.
    assert (Ht : 0 <= trunc_mag m e).
    { unfold trunc_mag. destruct (Z.leb_spec 0 e).
      - apply Z.mul_nonneg_nonneg; [lia|]. apply Z.pow_nonneg. lia.
      - apply Z.div_pos; [lia|]. apply Z.pow_pos_nonneg; lia. }
    destruct s.
    + destruct (trunc_mag m e =? 0); [|discriminate].
      intros H. injection H as <-. lia.
    + destruct (Z.ltb_spec (trunc_mag m e) (2 ^ 32)) as [L|G];
        [|discriminate].
      intros H. injection H as <-. lia.
Qed.

(** The word assembled from any quantizer results: the 16-bit path
    keeps the low 16 bits of [ux], and bit 15 of [uy] is OR-ed into
    bit 16 of the word. *)
Lemma assemble_any (ux uy ua : Z) :
  0 <= ux -> 0 <= uy < 65536 -> 0 <= ua < 2 ->
  Z.lor (Z.lor (u32_shl ux 16) (u32_shl uy 1)) ua
  = Z.lor (ux mod 65536) (uy / 32768) * 65536 + uy mod 32768 * 2 + ua.
Proof.
  intros Hx Hy Ha. unfold u32_shl, u32_mod.
  rewrite !Z.shiftl_mul_pow2 by lia.
  change (2 ^ 16) with 65536. change (2 ^ 1) with 2.
  change (2 ^ 32) with (65536 * 65536).
  rewrite Z.mul_mod_distr_r by lia.
  rewrite (Z.mod_small (uy * 2)) by lia.
  set (hx := ux mod 65536).
  assert (Hhx : 0 <= hx < 65536) by (apply Z.mod_pos_bound; lia).
  set (c := uy / 32768). set (ly := uy mod 32768).
  assert (Hly : 0 <= ly < 32768) by (apply Z.mod_pos_bound; lia).
  assert (Hc : 0 <= c < 2).
  { unfold c. split; [apply Z.div_pos; lia|].
    apply Z.div_lt_upper_bound; lia. }
  assert (Euy : uy * 2 = c * 65536 + ly * 2).
  { pose proof (Z.div_mod uy 32768 ltac:(lia)). fold c ly in H. lia. }
  rewrite Euy.
  pose proof (lor_shifted_add c (ly * 2) 16 ltac:(lia) ltac:(lia)) as L1.
  change (2 ^ 16) with 65536 in L1. rewrite <- L1.
  rewrite Z.lor_assoc.
  replace (Z.lor (hx * 65536) (c * 65536)) with (Z.lor hx c * 65536).
  2:{ change 65536 with (2 ^ 16). rewrite <- !Z.shiftl_mul_pow2 by lia.
      apply Z.shiftl_lor. }
  assert (HH : 0 <= Z.lor hx c < 65536).
  { change 65536 with (2 ^ 16). apply lor_range; [lia|lia|].
    change (2 ^ 16) with 65536. lia. }
  pose proof (lor_shifted_add (Z.lor hx c) (ly * 2) 16
                ltac:(lia) ltac:(lia)) as L2.
  change (2 ^ 16) with 65536 in L2. rewrite L2.
  pose proof (lor_shifted_add (Z.lor hx c * 32768 + ly) ua 1
                ltac:(lia) ltac:(lia)) as L3.
  change (2 ^ 1) with 2 in L3.
  replace (Z.lor hx c * 65536 + ly * 2)
    with ((Z.lor hx c * 32768 + ly) * 2) by lia.
  rewrite L3. lia.
Qed.

(** X25: the bit layout of [pack] on every input for which it is defined,
    in or out of the domain: bits [31:16] hold the low 16 bits of the
    quantized x, OR-ed with bit 15 of the quantized y; bits [15:1] hold
    the low 15 bits of the quantized y; bit 0 is the sign test of z. *)
Theorem pack_layout_general (v : vec3) (p : Z) :
  pack v = Some p ->
  exists ux uy,
    map_ftou16 (map_ufnorm (vx v)) = Some ux /\
    map_ftou15 (map_ufnorm (vy v)) = Some uy /\
    u32_shr p 16 = Z.lor (ux mod 65536) (uy / 32768) /\
    Z.land (u32_shr p 1) 32767 = uy mod 32768 /\
    Z.land p 1 = (if SFltb (vz v) f0 then 1 else 0).
Proof.
  unfold pack. cbv zeta.
  destruct (map_ftou16 (map_ufnorm (vx v))) as [ux|] eqn:Hux; [|discriminate].
  destruct (map_ftou15 (map_ufnorm (vy v))) as [uy|] eqn:Huy; [|discriminate].
  intros H. injection H as <-. exists ux, uy.
  split; [reflexivity|]. split; [reflexivity|].
  assert (Rx : 0 <= ux) by (apply (f2u32_range _ _ Hux)).
  assert (Ry : 0 <= uy < 65536).
  { unfold map_ftou15 in Huy. destruct (f2u32 _) as [u|]; [|discriminate].
    injection Huy as <-.
    assert (E : Z.land u 65535 = u mod 65536)
      by (change 65535 with (Z.ones 16); rewrite Z.land_ones by lia;
          reflexivity).
    rewrite E. apply Z.mod_pos_bound. lia. }
  set (ua := if SFltb (vz v) f0 then 1 else 0).
  assert (Ha : 0 <= ua < 2) by (unfold ua; destruct (SFltb (vz v) f0); lia).
  rewrite (assemble_any ux uy ua Rx Ry Ha).
  assert (HH : 0 <= Z.lor (ux mod 65536) (uy / 32768) < 65536).
  { change 65536 with (2 ^ 16). apply lor_range; [lia| |].
    - apply Z.mod_pos_bound. lia.
    - split; [apply Z.div_pos; lia|].
      apply Z.div_lt_upper_bound; lia. }
  assert (Hl : 0 <= uy mod 32768 < 32768) by (apply Z.mod_pos_bound; lia).
  exact (fields_of_sum _ _ ua HH Hl Ha).
Qed.

Lemma pack_layout_general_witness :
  let v := mkvec3 f3 f1_5 S754_nan in
  pack v = Some 4294918142 /\
  exists ux uy,
    map_ftou16 (map_ufnorm (vx v)) = Some ux /\
    map_ftou15 (map_ufnorm (vy v)) = Some uy /\
    u32_shr 4294918142 16 = Z.lor (ux mod 65536) (uy / 32768) /\
    Z.land (u32_shr 4294918142 1) 32767 = uy mod 32768 /\
    Z.land 4294918142 1 = (if SFltb (vz v) f0 then 1 else 0).
Proof.
  split; [reflexivity|].
  exact (pack_layout_general (mkvec3 f3 f1_5 S754_nan) 4294918142 eq_refl).
Defined.
